(** * Conference bot: catalog rebuild, invite redemption, membership and
      permission reconciliation

    A shallow embedding of [Conference] (the catalog, [reset], [construct],
    the [room.event] handler, [createUpdatePerson], [ensurePermissionsFor],
    the lookups and role queries, [getDesiredParentSpace] and the functions
    that create the rooms and spaces of the conference), of
    [InviteCommand.ensureInvited] and of the loop of the commands that drops
    the people already seen, with the properties the specification states
    about them and further properties of the code.

    The program talks to a Matrix homeserver through [MatrixClient] and to a
    schedule database through [DBBackend].  Both are external: they are
    modelled as records of functions that give, for each request, the answer
    the program receives ([None] when the awaited promise rejects).  Requests
    that change something outside the process (state events sent, invites,
    calls to the permission command, spaces and rooms created and linked)
    are recorded, in order, in a trace.  The order in which reads that were
    started together settle is the homeserver's too: it is a field of the
    client, and the properties hold for every such order.

    The maps of the catalog are plain JavaScript objects: a lookup that
    finds no own property falls back on [Object.prototype], and each
    function is modelled with the test the code makes ([in], truthiness, or
    the value read). *)

From stdpp Require Import gmap strings list fin_maps.

Open Scope string_scope.
Open Scope list_scope.
Open Scope nat_scope.

(** ** JavaScript values *)

(** A string-valued property read from a JSON object is [None] when the
    property is undefined.  [if (v)] holds for a defined, non-empty string. *)
Definition truthy (v : option string) : bool :=
  match v with
  | Some s => bool_decide (s ≠ "")
  | None => false
  end.

(** Objects used as maps are plain objects: their own properties are
    modelled as a finite map from strings, and they inherit the properties
    of [Object.prototype].  [obj[k]] with [k] undefined uses the property
    named "undefined".  (An assignment to the key "__proto__" would replace
    the prototype instead of adding a property; the writes of the program
    are modelled as additions of own properties.) *)
Definition propertyKey (k : option string) : string := default "undefined" k.

(** The property names of [Object.prototype]. *)
Definition Object_prototype : list string :=
  ["constructor"; "__defineGetter__"; "__defineSetter__"; "hasOwnProperty";
   "__lookupGetter__"; "__lookupSetter__"; "isPrototypeOf";
   "propertyIsEnumerable"; "toString"; "valueOf"; "__proto__";
   "toLocaleString"].

Definition inherited (key : string) : bool :=
  bool_decide (key ∈ Object_prototype).

(** The value of [obj[key]]: an own property, the property that
    [Object.prototype] has under the key (a function, or the prototype
    itself: an object that is none of the program's), or undefined. *)
Inductive Property (V : Type) :=
| Own (v : V)
| Inherited (key : string)
| Undefined.
Arguments Own {V} _.
Arguments Inherited {V} _.
Arguments Undefined {V}.

Definition getProperty {V} (obj : gmap string V) (key : string)
  : Property V :=
  match obj !! key with
  | Some v => Own v
  | None => if inherited key then Inherited key else Undefined
  end.

(** [key in obj]. *)
Definition hasProperty {V} (obj : gmap string V) (key : string) : bool :=
  match getProperty obj key with Undefined => false | _ => true end.

(** [v.roomId] for the value of a property whose own values are handles:
    the values inherited from [Object.prototype] have no [roomId]. *)
Definition roomIdOf {V} (roomId : V → string) (v : Property V)
  : option string :=
  match v with Own handle => Some (roomId handle) | _ => None end.

(** [array.slice(from, to)]. *)
Definition slice {A} (l : list A) (from to : nat) : list A :=
  take (to - from) (drop from l).

(** [array.find(p)]. *)
Fixpoint find {A} (p : A → bool) (l : list A) : option A :=
  match l with
  | [] => None
  | x :: l' => if p x then Some x else find p l'
  end.

(** ** Data model *)

(** [Role] of ./db/DbPerson, by the members the program names. *)
Inductive Role := Speaker | Host | Coordinator | OtherRole (name : string).

Record IDbPerson := {
  person_id : string;
  matrix_id : option string;
  event_role : Role;
}.

Record IStoredPerson := {
  pentaId : option string;
  userId : option string;
}.

Record IStoredSubspace := {
  subspace_roomId : option string;
}.

Record ResolvedPersonIdentifier := {
  mxid : option string;
  person : IDbPerson;
}.

(** [RoomKind] of ./models/room_kinds, by the members [construct] switches
    on. *)
Inductive RoomKind :=
| KConference | KAuditorium | KAuditoriumBackstage | KTalk | KSpecialInterest.

Record Signed := { token : option string }.
Record ThirdPartyInvite := { signed : option Signed }.

(** The content of an event is a JSON object.  It is read here through the
    properties the program looks at; a property the object does not have is
    [None].  The [RSC_*] and [RS_3PID_PERSON_ID] fields stand for the
    properties named by the constants of the same names (./models/room_kinds,
    ./models/room_state); [RSC_ROOM_KIND_FLAG] is [None] also when the value
    is none of the five room kinds. *)
Record Content := {
  RSC_CONFERENCE_ID : option string;
  RSC_ROOM_KIND_FLAG : option RoomKind;
  RSC_AUDITORIUM_ID : option string;
  RSC_TALK_ID : option string;
  RSC_SPECIAL_INTEREST_ID : option string;
  RS_3PID_PERSON_ID : option string;
  third_party_invite : option ThirdPartyInvite;
  membership : option string;
  as_IStoredPerson : IStoredPerson;
  as_IStoredSubspace : IStoredSubspace;
  users : option (gmap string Z);
}.

Definition emptyContent : Content := {|
  RSC_CONFERENCE_ID := None; RSC_ROOM_KIND_FLAG := None;
  RSC_AUDITORIUM_ID := None; RSC_TALK_ID := None;
  RSC_SPECIAL_INTEREST_ID := None; RS_3PID_PERSON_ID := None;
  third_party_invite := None; membership := None;
  as_IStoredPerson := {| pentaId := None; userId := None |};
  as_IStoredSubspace := {| subspace_roomId := None |};
  users := None |}.

(** [pls['users'] = u], the other properties kept. *)
Definition set_users (u : gmap string Z) (pls : Content) : Content := {|
  RSC_CONFERENCE_ID := RSC_CONFERENCE_ID pls;
  RSC_ROOM_KIND_FLAG := RSC_ROOM_KIND_FLAG pls;
  RSC_AUDITORIUM_ID := RSC_AUDITORIUM_ID pls;
  RSC_TALK_ID := RSC_TALK_ID pls;
  RSC_SPECIAL_INTEREST_ID := RSC_SPECIAL_INTEREST_ID pls;
  RS_3PID_PERSON_ID := RS_3PID_PERSON_ID pls;
  third_party_invite := third_party_invite pls;
  membership := membership pls;
  as_IStoredPerson := as_IStoredPerson pls;
  as_IStoredSubspace := as_IStoredSubspace pls;
  users := Some u |}.

(** A room event, as delivered by [room.event] and as listed by
    [getRoomState]. *)
Record RoomEvent := {
  type : string;
  state_key : string;
  sender : string;
  content : option Content;
}.

(** Entity handles.  [new Auditorium(roomId, client, conference)] and its
    siblings keep the room identifier; client and conference are the shared
    context. *)
Record MatrixRoom := { mr_roomId : string }.
Record Auditorium := { aud_roomId : string }.
Record AuditoriumBackstage := { bs_roomId : string }.
Record Talk := { talk_roomId : string }.
Record InterestRoom := { ir_roomId : string; ir_id : option string }.
Record Space := { space_roomId : string }.

(** The [Conference] object: its readonly [id] and the catalog. *)
Record Conference := {
  id : string;
  dbRoom : option MatrixRoom;
  subspaces : gmap string Space;
  auditoriums : gmap string Auditorium;
  auditoriumBackstages : gmap string AuditoriumBackstage;
  talks : gmap string Talk;
  interestRooms : gmap string InterestRoom;
  people : gmap string IStoredPerson;
}.

Definition set_dbRoom (v : option MatrixRoom) (c : Conference) : Conference :=
  {| id := id c; dbRoom := v; subspaces := subspaces c;
     auditoriums := auditoriums c;
     auditoriumBackstages := auditoriumBackstages c; talks := talks c;
     interestRooms := interestRooms c; people := people c |}.

Definition set_subspaces (v : gmap string Space) (c : Conference)
  : Conference :=
  {| id := id c; dbRoom := dbRoom c; subspaces := v;
     auditoriums := auditoriums c;
     auditoriumBackstages := auditoriumBackstages c; talks := talks c;
     interestRooms := interestRooms c; people := people c |}.

Definition set_auditoriums (v : gmap string Auditorium) (c : Conference)
  : Conference :=
  {| id := id c; dbRoom := dbRoom c; subspaces := subspaces c;
     auditoriums := v;
     auditoriumBackstages := auditoriumBackstages c; talks := talks c;
     interestRooms := interestRooms c; people := people c |}.

Definition set_auditoriumBackstages (v : gmap string AuditoriumBackstage)
  (c : Conference) : Conference :=
  {| id := id c; dbRoom := dbRoom c; subspaces := subspaces c;
     auditoriums := auditoriums c;
     auditoriumBackstages := v; talks := talks c;
     interestRooms := interestRooms c; people := people c |}.

Definition set_talks (v : gmap string Talk) (c : Conference) : Conference :=
  {| id := id c; dbRoom := dbRoom c; subspaces := subspaces c;
     auditoriums := auditoriums c;
     auditoriumBackstages := auditoriumBackstages c; talks := v;
     interestRooms := interestRooms c; people := people c |}.

Definition set_interestRooms (v : gmap string InterestRoom) (c : Conference)
  : Conference :=
  {| id := id c; dbRoom := dbRoom c; subspaces := subspaces c;
     auditoriums := auditoriums c;
     auditoriumBackstages := auditoriumBackstages c; talks := talks c;
     interestRooms := v; people := people c |}.

Definition set_people (v : gmap string IStoredPerson) (c : Conference)
  : Conference :=
  {| id := id c; dbRoom := dbRoom c; subspaces := subspaces c;
     auditoriums := auditoriums c;
     auditoriumBackstages := auditoriumBackstages c; talks := talks c;
     interestRooms := interestRooms c; people := v |}.

(** ** The outside world *)

(** [MatrixClient] of matrix-bot-sdk, by the methods the program calls.  A
    read answers [None] when its promise rejects.  [sendStateEvent] answers
    whether the write is accepted.  Reads started together settle in an
    order that the program does not choose: [settlesNext pending] is the
    position, among the rooms whose creation records are still being read,
    of the one whose read settles next (taken modulo their number). *)
Record MatrixClient := {
  getUserId : string;
  getJoinedRooms : option (list string);
  getRoomStateEvent : string → string → option string → option Content;
  getRoomState : string → option (list RoomEvent);
  resolveRoom : string → option string;
  getSpace : option string → option Space;
  sendStateEvent : string → string → string → Content → bool;
  settlesNext : list string → nat;
}.

(** Two clients give the same answers; the order in which reads settle
    may differ. *)
Definition sameAnswers (c1 c2 : MatrixClient) : Prop :=
  getUserId c1 = getUserId c2
  ∧ getJoinedRooms c1 = getJoinedRooms c2
  ∧ (∀ roomId ty key,
       getRoomStateEvent c1 roomId ty key = getRoomStateEvent c2 roomId ty key)
  ∧ (∀ roomId, getRoomState c1 roomId = getRoomState c2 roomId)
  ∧ (∀ alias, resolveRoom c1 alias = resolveRoom c2 alias)
  ∧ (∀ roomId, getSpace c1 roomId = getSpace c2 roomId)
  ∧ (∀ roomId ty key c,
       sendStateEvent c1 roomId ty key c = sendStateEvent c2 roomId ty key c).

(** [DBBackend] of ./db/backendDb.  A lookup answers [None] when its
    promise rejects; [findPeopleWithId] answers the empty list also when it
    yields no array ([people?.length] is then not truthy either). *)
Record DBBackend := {
  findPeopleWithId : string → option (list IDbPerson);
  findAllPeopleForAuditorium : string → option (list IDbPerson);
  findAllPeopleForTalk : string → option (list IDbPerson);
}.

(** The parts of ./config the program reads.  [existingInterestRooms] is an
    object enumerated with [for ... in]: its keys in order, with their
    values. *)
Record Config := {
  moderatorUserId : string;
  existingInterestRooms : list (string * string);
}.

(** What the program asks of the outside world, in the order it asks. *)
Inductive Effect :=
| SendStateEvent (room ty key : string) (c : Content)
| EnsureModerator (room : string) (resolved : list ResolvedPersonIdentifier)
| InvitePersonToRoom (target : ResolvedPersonIdentifier) (room : string)
| LogError (target : ResolvedPersonIdentifier) (room : string).

(** ** Asynchronous code with mutable state

    An [async] body runs on a state [S] and either returns a value or
    throws ([None]); the state reached is kept in both cases. *)
Definition M (S A : Type) : Type := S → option A * S.

Definition ret {S A} (a : A) : M S A := λ s, (Some a, s).

Definition bind {S A B} (m : M S A) (k : A → M S B) : M S B :=
  λ s, match m s with
       | (Some a, s') => k a s'
       | (None, s') => (None, s')
       end.

(** [await p] for a read whose answer is [r]. *)
Definition await {S A} (r : option A) : M S A := λ s, (r, s).

Definition get {S} : M S S := λ s, (Some s, s).
Definition modify {S} (f : S → S) : M S unit := λ s, (Some (), f s).

Notation "'let*' x ':=' m 'in' k" := (bind m (λ x, k))
  (at level 10, x pattern, m at level 100, k at level 200).

(** [for (const x of l) body(x)]. *)
Fixpoint forOf {S A} (l : list A) (body : A → M S unit) : M S unit :=
  match l with
  | [] => ret ()
  | x :: l' => let* _ := body x in forOf l' body
  end.

(** [await Promise.all(tasks)], the tasks being [async] bodies already
    started, each of which waits for one read and then runs to its end.
    The tasks are given in the order in which their reads settle: each one
    runs when its read settles.  The awaited promise rejects as soon as one
    task rejects, and fulfils when all have returned: the state is the one
    reached at that moment.  (The tasks whose reads have not settled when
    the promise rejects are not waited for: they go on when their reads
    settle, after the caller has thrown.) *)
Fixpoint Promise_all {S} (settling : list (M S unit)) : M S unit :=
  match settling with
  | [] => ret ()
  | t :: ts =>
      λ s, match t s with
           | (Some _, s') => Promise_all ts s'
           | (None, s') => (None, s')
           end
  end.

(** The order in which reads started together settle, [n] of them being
    pending: [next] picks among those still pending. *)
Fixpoint settleOrder {A} (next : list A → nat) (n : nat) (pending : list A)
  : list A :=
  match n with
  | 0 => []
  | S n' =>
      let i := next pending `mod` length pending in
      match pending !! i with
      | Some x => x :: settleOrder next n' (delete i pending)
      | None => []
      end
  end.

(** [m] leaves the observation [f] of the state as it was, whether it returns
    or throws. *)
Definition preserves {S A T} (f : S → T) (m : M S A) : Prop :=
  ∀ s, f (m s).2 = f s.

(** [m] keeps the property [P] of the state, whether it returns or throws. *)
Definition invariant {S A} (P : S → Prop) (m : M S A) : Prop :=
  ∀ s, P s → P (m s).2.

(** ** Repository modules outside the sources at hand

    [RS_STORED_PERSON] and [RS_STORED_SUBSPACE] are the event types declared
    in ./models/room_state; [Auditorium_getId], [AuditoriumBackstage_getId]
    and [Talk_getId] are the [getId()] methods of the classes of
    ./models/Auditorium and ./models/Talk;
    [resolveIdentifiers] and [invitePersonToRoom] come from ./invites;
    [ensureModerator] is [PermissionsCommand.ensureModerator].
    [membershipFor] and [effectiveMembership] are the getters of the SDK's
    [MembershipEvent]; [effectiveMembership] answers [None] when the getter
    throws, as it does for a member event without a membership.
    [logMessage] comes from ./LogProxy: it is given here by the target and
    the room that its message names.  Reads answer [None] when they reject;
    the requests answer whether they succeed. *)
Record Imports := {
  RS_STORED_PERSON : string;
  RS_STORED_SUBSPACE : string;
  Auditorium_getId : Auditorium → option string;
  AuditoriumBackstage_getId : AuditoriumBackstage → option string;
  Talk_getId : Talk → option string;
  resolveIdentifiers : list IDbPerson → option (list ResolvedPersonIdentifier);
  ensureModerator : string → list ResolvedPersonIdentifier → bool;
  invitePersonToRoom : ResolvedPersonIdentifier → string → bool;
  logMessage : ResolvedPersonIdentifier → string → bool;
  membershipFor : RoomEvent → string;
  effectiveMembership : RoomEvent → option string;
}.

Record IStateEvent (T : Type) := {
  se_type : string;
  se_state_key : string;
  se_content : T;
}.
Arguments se_type {T} _.
Arguments se_state_key {T} _.
Arguments se_content {T} _.

(** Modelled from the spec: [makeStoredPerson] of ./models/room_state is not
    among the sources.  The stored person is "one record per person, keyed by
    person ID", which carries the correlated platform identity; of its
    content the program reads [pentaId] and [userId]. *)
Definition makeStoredPerson (lib : Imports) (confId : string) (p : IDbPerson)
  : IStateEvent IStoredPerson :=
  {| se_type := RS_STORED_PERSON lib;
     se_state_key := person_id p;
     se_content :=
       {| pentaId := Some (person_id p); userId := matrix_id p |} |}.

(** The JSON object sent for a stored person. *)
Definition personContent (p : IStoredPerson) : Content := {|
  RSC_CONFERENCE_ID := None; RSC_ROOM_KIND_FLAG := None;
  RSC_AUDITORIUM_ID := None; RSC_TALK_ID := None;
  RSC_SPECIAL_INTEREST_ID := None; RS_3PID_PERSON_ID := None;
  third_party_invite := None; membership := None;
  as_IStoredPerson := p;
  as_IStoredSubspace := {| subspace_roomId := None |};
  users := None |}.

(** [clonedPerson.matrix_id = v]. *)
Definition set_matrix_id (v : option string) (p : IDbPerson) : IDbPerson :=
  {| person_id := person_id p; matrix_id := v; event_role := event_role p |}.

(** How a run of the [room.event] handler ends.  [Rejected]: it returns
    before the association block, because a guard does not hold.  [Threw]:
    a read awaited before the association block rejects; the handler has no
    [try], so its promise rejects.  [Applied]: the association block ran to
    its end.  [Incomplete]: a call inside the association block threw. *)
Inductive Outcome := Applied | Rejected | Threw | Incomplete.

(** The catalog and the trace of requests. *)
Abbreviation State := (Conference * list Effect)%type.

(** ** Conference *)

Section Conference.
Context (client : MatrixClient) (db : DBBackend) (config : Config)
        (lib : Imports).

(** [Object.values(map)].  The program only searches these arrays for a
    handle by its room, and handles of the same room are equal, so the order
    of the values does not show. *)
Definition storedTalks (this : Conference) : list Talk :=
  (map_to_list (talks this)).*2.

Definition storedAuditoriums (this : Conference) : list Auditorium :=
  (map_to_list (auditoriums this)).*2.

Definition storedAuditoriumBackstages (this : Conference)
  : list AuditoriumBackstage :=
  (map_to_list (auditoriumBackstages this)).*2.

Definition reset (this : Conference) : Conference :=
  {| id := id this; dbRoom := None; subspaces := ∅; auditoriums := ∅;
     auditoriumBackstages := ∅; talks := ∅; interestRooms := ∅;
     people := ∅ |}.

Definition batchSize : nat := 20.

(** The task started for one room of a batch. *)
Definition classifyRoom (roomId : string) : M Conference unit :=
  let* createEvent :=
    await (getRoomStateEvent client roomId "m.room.create" (Some "")) in
  λ this,
    if bool_decide (RSC_CONFERENCE_ID createEvent = Some (id this)) then
      match RSC_ROOM_KIND_FLAG createEvent with
      | Some KConference =>
          (Some (), set_dbRoom (Some {| mr_roomId := roomId |}) this)
      | Some KAuditorium =>
          (Some (),
           set_auditoriums
             (<[propertyKey (RSC_AUDITORIUM_ID createEvent) :=
                  {| aud_roomId := roomId |}]> (auditoriums this)) this)
      | Some KAuditoriumBackstage =>
          (Some (),
           set_auditoriumBackstages
             (<[propertyKey (RSC_AUDITORIUM_ID createEvent) :=
                  {| bs_roomId := roomId |}]> (auditoriumBackstages this))
             this)
      | Some KTalk =>
          (Some (),
           set_talks
             (<[propertyKey (RSC_TALK_ID createEvent) :=
                  {| talk_roomId := roomId |}]> (talks this)) this)
      | Some KSpecialInterest =>
          (Some (),
           set_interestRooms
             (<[propertyKey (RSC_SPECIAL_INTEREST_ID createEvent) :=
                  {| ir_roomId := roomId;
                     ir_id := RSC_SPECIAL_INTEREST_ID createEvent |}]>
                (interestRooms this)) this)
      | None => (Some (), this)
      end
    else (Some (), this).

(** Whether the creation record of a room can be read. *)
Definition readable (roomId : string) : bool :=
  bool_decide
    (is_Some (getRoomStateEvent client roomId "m.room.create" (Some ""))).

(** The catalog once the task of a room has settled. *)
Definition classified (this : Conference) (roomId : string) : Conference :=
  (classifyRoom roomId this).2.

(** Of rooms listed in the order in which their reads settle, those whose
    tasks have run when the first read is rejected: the rooms before that
    one. *)
Fixpoint untilRejected (rooms : list string) : list string :=
  match rooms with
  | [] => []
  | roomId :: rest =>
      if readable roomId then roomId :: untilRejected rest else []
  end.

(** The place of the catalog that the task of a room writes: the root
    room, or a key of one of the four maps. *)
Inductive Slot :=
| RootSlot
| AuditoriumSlot (key : string)
| BackstageSlot (key : string)
| TalkSlot (key : string)
| InterestSlot (key : string).

(** The slot claimed by a room for the conference [confId]; [None] when
    its task writes nothing. *)
Definition slotOf (confId roomId : string) : option Slot :=
  match getRoomStateEvent client roomId "m.room.create" (Some "") with
  | None => None
  | Some createEvent =>
      if bool_decide (RSC_CONFERENCE_ID createEvent = Some confId) then
        match RSC_ROOM_KIND_FLAG createEvent with
        | Some KConference => Some RootSlot
        | Some KAuditorium =>
            Some (AuditoriumSlot (propertyKey (RSC_AUDITORIUM_ID createEvent)))
        | Some KAuditoriumBackstage =>
            Some (BackstageSlot (propertyKey (RSC_AUDITORIUM_ID createEvent)))
        | Some KTalk =>
            Some (TalkSlot (propertyKey (RSC_TALK_ID createEvent)))
        | Some KSpecialInterest =>
            Some (InterestSlot
                    (propertyKey (RSC_SPECIAL_INTEREST_ID createEvent)))
        | None => None
        end
      else None
  end.

(** The slot of the catalog holds the room. *)
Definition holds (this : Conference) (slot : Slot) (roomId : string) : Prop :=
  match slot with
  | RootSlot => dbRoom this = Some {| mr_roomId := roomId |}
  | AuditoriumSlot key =>
      auditoriums this !! key = Some {| aud_roomId := roomId |}
  | BackstageSlot key =>
      auditoriumBackstages this !! key = Some {| bs_roomId := roomId |}
  | TalkSlot key => talks this !! key = Some {| talk_roomId := roomId |}
  | InterestSlot key =>
      ∃ interestId,
        interestRooms this !! key
        = Some {| ir_roomId := roomId; ir_id := interestId |}
  end.

(** The slots that only the classification of a joined room fills; an
    interest room can also come from the configuration. *)
Definition classifierSlot (slot : Slot) : bool :=
  match slot with InterestSlot _ => false | _ => true end.

(** Every room in such a slot of the catalog claims it, for the conference
    [confId]. *)
Definition claimed (confId : string) (this : Conference) : Prop :=
  id this = confId
  ∧ ∀ slot roomId, classifierSlot slot = true → holds this slot roomId →
      slotOf confId roomId = Some slot.

(** No two different rooms of the list claim the same slot. *)
Definition distinctClaims (confId : string) (rooms : list string) : Prop :=
  ∀ r1 r2, r1 ∈ rooms → r2 ∈ rooms → r1 ≠ r2 →
    slotOf confId r1 = None ∨ slotOf confId r1 ≠ slotOf confId r2.

(** The rooms of a batch, in the order in which the reads of their
    creation records settle. *)
Definition settled (batch : list string) : list string :=
  settleOrder (settlesNext client) (length batch) batch.

(** [for (let i = 0; i < roomIds.length; i += batchSize)], from [i] on.
    Each turn adds [batchSize] to [i], so [length roomIds] turns are
    enough ([batchLoop_fuel]).  The tasks of a batch are started together,
    in the order of the array; they go on in the order in which their
    reads settle. *)
Fixpoint batchLoop (fuel i : nat) (roomIds : list string)
  : M Conference unit :=
  match fuel with
  | 0 => ret ()
  | S fuel' =>
      if bool_decide (i < length roomIds) then
        let tasks :=
          map classifyRoom (settled (slice roomIds i (i + batchSize))) in
        let* _ := Promise_all tasks in
        batchLoop fuel' (i + batchSize) roomIds
      else ret ()
  end.

(** The joined rooms in the order in which the reads of their creation
    records settle when every batch is started: batch after batch, from
    [i] on. *)
Fixpoint settledFrom (fuel i : nat) (roomIds : list string) : list string :=
  match fuel with
  | 0 => []
  | S fuel' =>
      if bool_decide (i < length roomIds) then
        settled (slice roomIds i (i + batchSize))
        ++ settledFrom fuel' (i + batchSize) roomIds
      else []
  end.

Definition settledRooms (roomIds : list string) : list string :=
  settledFrom (length roomIds) 0 roomIds.

(** "Resolve pre-existing interest rooms". *)
Definition resolveExisting (entry : string * string) : M Conference unit :=
  let '(interestId, roomIdOrAlias) := entry in
  λ this,
    if hasProperty (interestRooms this) interestId then
      (Some (), this)
    else
      match resolveRoom client roomIdOrAlias with
      | None => (Some (), this)
      | Some roomId =>
          (Some (),
           set_interestRooms
             (<[interestId :=
                  {| ir_roomId := roomId; ir_id := Some interestId |}]>
                (interestRooms this)) this)
      end.

Definition hasContent (s : RoomEvent) : bool :=
  match content s with Some _ => true | None => false end.

(** [s.content] of an event that passed [hasContent]. *)
Definition contentOf (s : RoomEvent) : Content :=
  default emptyContent (content s).

Definition construct : M Conference unit :=
  let* _ := modify reset in
  let* roomIds := await (getJoinedRooms client) in
  let* _ := batchLoop (length roomIds) 0 roomIds in
  let* _ := forOf (existingInterestRooms config) resolveExisting in
  let* this := get in
  match dbRoom this with
  | None => ret ()
  | Some dbRoom =>
      let* roomState := await (getRoomState client (mr_roomId dbRoom)) in
      let dbState := List.filter hasContent roomState in
      let persons :=
        map (λ s, as_IStoredPerson (contentOf s))
          (List.filter
             (λ s, bool_decide (type s = RS_STORED_PERSON lib)) dbState) in
      let* _ :=
        forOf persons (λ person,
          modify (λ this,
            set_people (<[propertyKey (pentaId person) := person]>
                          (people this)) this)) in
      let subspaceEvents :=
        List.filter
          (λ event, bool_decide (type event = RS_STORED_SUBSPACE lib))
          dbState in
      forOf subspaceEvents (λ subspaceEvent,
        let roomId :=
          subspace_roomId (as_IStoredSubspace (contentOf subspaceEvent)) in
        let* space := await (getSpace client roomId) in
        modify (λ this,
          set_subspaces (<[state_key subspaceEvent := space]>
                           (subspaces this)) this))
  end.

(** A request sent to the outside: it is recorded, and throws when it is
    refused. *)
Definition request (e : Effect) (accepted : bool) : M State unit :=
  λ '(this, trace),
    (if accepted then Some () else None, (this, trace ++ [e])).

Definition createUpdatePerson (person : IDbPerson) : M State IStoredPerson :=
  let* (this, _) := get in
  let storedPerson := makeStoredPerson lib (id this) person in
  (* [this.dbRoom.roomId] throws when there is no root room *)
  let* dbRoom := await (dbRoom this) in
  let* _ :=
    request
      (SendStateEvent (mr_roomId dbRoom) (se_type storedPerson)
         (se_state_key storedPerson)
         (personContent (se_content storedPerson)))
      (sendStateEvent client (mr_roomId dbRoom) (se_type storedPerson)
         (se_state_key storedPerson)
         (personContent (se_content storedPerson))) in
  let* _ :=
    modify (λ '(this, trace),
      (set_people
         (<[propertyKey (pentaId (se_content storedPerson)) :=
              se_content storedPerson]> (people this)) this, trace)) in
  ret (se_content storedPerson).

Definition getPerson (this : Conference) (personId : string)
  : option IStoredPerson :=
  people this !! personId.

Definition resolvePeople (this : Conference) (found : list IDbPerson)
  : list IDbPerson :=
  map (λ person,
    if truthy (matrix_id person) then person
    else
      match getPerson this (person_id person) with
      | Some storedPerson =>
          if truthy (userId storedPerson)
          then set_matrix_id (userId storedPerson) person
          else person
      | None => person
      end) found.

(** [auditorium.getId()] is the method of the object's class: the objects
    passed are auditoriums and, from the handler, backstages. *)
Definition getId (auditorium : Auditorium + AuditoriumBackstage)
  : option string :=
  match auditorium with
  | inl aud => Auditorium_getId lib aud
  | inr audBackstage => AuditoriumBackstage_getId lib audBackstage
  end.

Definition getPeopleForAuditorium
  (auditorium : Auditorium + AuditoriumBackstage)
  : M State (list IDbPerson) :=
  let* audId := await (getId auditorium) in
  let* found := await (findAllPeopleForAuditorium db audId) in
  let* (this, _) := get in
  ret (resolvePeople this found).

Definition getPeopleForTalk (talk : Talk) : M State (list IDbPerson) :=
  let* talkId := await (Talk_getId lib talk) in
  let* found := await (findAllPeopleForTalk db talkId) in
  let* (this, _) := get in
  ret (resolvePeople this found).

Definition getModeratorsForAuditorium
  (auditorium : Auditorium + AuditoriumBackstage)
  : M State (list IDbPerson) :=
  let* found := getPeopleForAuditorium auditorium in
  ret (List.filter
         (λ p, match event_role p with Coordinator => true | _ => false end)
         found).

Definition getModeratorsForTalk (talk : Talk) : M State (list IDbPerson) :=
  let* found := getPeopleForTalk talk in
  ret (List.filter
         (λ p, match event_role p with
               | Coordinator | Speaker | Host => true
               | _ => false
               end)
         found).

(** [resolveIdentifiers(mods)] and then
    [PermissionsCommand.ensureModerator(this.client, roomId, resolved)]. *)
Definition moderate (roomId : string) (mods : list IDbPerson)
  : M State unit :=
  let* resolved := await (resolveIdentifiers lib mods) in
  request (EnsureModerator roomId resolved)
          (ensureModerator lib roomId resolved).

(** "Update permissions while we're here (if we can identify the room
    kind)". *)
Definition updatePermissions (roomId : string) : M State unit :=
  let* (this, _) := get in
  match find (λ a, bool_decide (aud_roomId a = roomId))
             (storedAuditoriums this) with
  | Some aud =>
      let* mods := getModeratorsForAuditorium (inl aud) in
      moderate roomId mods
  | None =>
      match find (λ a, bool_decide (bs_roomId a = roomId))
                 (storedAuditoriumBackstages this) with
      | Some audBackstage =>
          let* mods := getModeratorsForAuditorium (inr audBackstage) in
          moderate roomId mods
      | None =>
          match find (λ a, bool_decide (talk_roomId a = roomId))
                     (storedTalks this) with
          | Some talk =>
              let* mods := getModeratorsForTalk talk in
              moderate roomId mods
          | None => ret ()
          end
      end
  end.

(** The association block: "Finally, associate the users", then the
    permissions. *)
Definition associate (roomId : string) (event : RoomEvent)
  (found : list IDbPerson) : M State unit :=
  let* _ :=
    forOf found (λ person,
      let clonedPerson := set_matrix_id (Some (state_key event)) person in
      let* _ := createUpdatePerson clonedPerson in
      ret ()) in
  updatePermissions roomId.

(** [e?.['sender'] === userId]. *)
Definition senderIs (e : option RoomEvent) (user : string) : bool :=
  match e with
  | Some e => bool_decide (sender e = user)
  | None => false
  end.

(** The [room.event] handler registered by the constructor. *)
Definition onRoomEvent (roomId : string) (event : RoomEvent) (s : State)
  : Outcome * State :=
  match (if bool_decide (type event = "m.room.member")
         then content event ≫= third_party_invite else None) with
  | None => (Rejected, s)
  | Some invite =>
    let emailInviteToken := signed invite ≫= token in
    match getRoomStateEvent client roomId "m.room.third_party_invite"
            emailInviteToken with
    | None => (Threw, s)
    | Some emailInvite =>
      if truthy (RS_3PID_PERSON_ID emailInvite) then
        match getRoomState client roomId with
        | None => (Threw, s)
        | Some state =>
          let verifiableCreateEvent :=
            find (λ e, bool_decide (type e = "m.room.create")) state in
          let verifiable3pidInvite :=
            find (λ e,
              bool_decide (type e = "m.room.third_party_invite")
              && bool_decide (Some (state_key e) = emailInviteToken))
              state in
          if senderIs verifiableCreateEvent (getUserId client) then
            if senderIs verifiable3pidInvite (getUserId client) then
              match findPeopleWithId db
                      (default "" (RS_3PID_PERSON_ID emailInvite)) with
              | None => (Threw, s)
              | Some [] => (Rejected, s)
              | Some (person :: rest) =>
                  match associate roomId event (person :: rest) s with
                  | (Some _, s') => (Applied, s')
                  | (None, s') => (Incomplete, s')
                  end
              end
            else (Rejected, s)
          else (Rejected, s)
        end
      else (Rejected, s)
    end
  end.

(** The conditions under which a redemption is trusted, for the token
    [tok] and the person ID [pid]: the event carries the token; the record
    of the room under that token carries the person ID; the room's
    creation event and that record, as found in the room state, were
    sent by this agent; the backend knows the person ID. *)
Definition carriesToken (event : RoomEvent) (tok : string) : Prop :=
  type event = "m.room.member"
  ∧ ∃ invite sg,
      content event ≫= third_party_invite = Some invite
      ∧ signed invite = Some sg ∧ token sg = Some tok.

Definition recordCarries (roomId tok pid : string) : Prop :=
  ∃ emailInvite,
    getRoomStateEvent client roomId "m.room.third_party_invite" (Some tok)
      = Some emailInvite
    ∧ RS_3PID_PERSON_ID emailInvite = Some pid ∧ pid ≠ "".

Definition createdByAgent (roomId : string) : Prop :=
  ∃ state e,
    getRoomState client roomId = Some state
    ∧ find (λ e, bool_decide (type e = "m.room.create")) state = Some e
    ∧ sender e = getUserId client.

Definition inviteSentByAgent (roomId tok : string) : Prop :=
  ∃ state e,
    getRoomState client roomId = Some state
    ∧ find (λ e, bool_decide (type e = "m.room.third_party_invite")
                 && bool_decide (Some (state_key e) = Some tok)) state
      = Some e
    ∧ sender e = getUserId client.

Definition backendKnows (pid : string) : Prop :=
  ∃ person rest, findPeopleWithId db pid = Some (person :: rest).

Definition genuine (roomId : string) (event : RoomEvent) : Prop :=
  ∃ tok pid,
    carriesToken event tok ∧ recordCarries roomId tok pid
    ∧ createdByAgent roomId ∧ inviteSentByAgent roomId tok
    ∧ backendKnows pid.

(** A read of the handler rejects: that of the record under the token of
    the event; or, the record carrying a person ID, that of the room
    state; or, the creation event and the record being this agent's, the
    backend lookup. *)
Definition readRejects (roomId : string) (event : RoomEvent) : Prop :=
  type event = "m.room.member"
  ∧ ∃ invite,
      content event ≫= third_party_invite = Some invite
      ∧ match getRoomStateEvent client roomId "m.room.third_party_invite"
                (signed invite ≫= token) with
        | None => True
        | Some emailInvite =>
            truthy (RS_3PID_PERSON_ID emailInvite) = true
            ∧ match getRoomState client roomId with
              | None => True
              | Some state =>
                  senderIs
                    (find (λ e, bool_decide (type e = "m.room.create")) state)
                    (getUserId client) = true
                  ∧ senderIs
                      (find (λ e,
                         bool_decide (type e = "m.room.third_party_invite")
                         && bool_decide
                              (Some (state_key e) = signed invite ≫= token))
                         state)
                      (getUserId client) = true
                  ∧ findPeopleWithId db
                      (default "" (RS_3PID_PERSON_ID emailInvite)) = None
              end
        end.

(** The room belongs to an auditorium, a backstage, a talk of the
    catalog. *)
Definition auditoriumOf (this : Conference) (roomId : string) : Prop :=
  ∃ k a, auditoriums this !! k = Some a ∧ aud_roomId a = roomId.

Definition backstageOf (this : Conference) (roomId : string) : Prop :=
  ∃ k a, auditoriumBackstages this !! k = Some a ∧ bs_roomId a = roomId.

Definition talkOf (this : Conference) (roomId : string) : Prop :=
  ∃ k a, talks this !! k = Some a ∧ talk_roomId a = roomId.

(** The loop of the association block over the people found. *)
Definition stampAll (event : RoomEvent) (found : list IDbPerson)
  : M State unit :=
  forOf found (λ person,
    let clonedPerson := set_matrix_id (Some (state_key event)) person in
    let* _ := createUpdatePerson clonedPerson in
    ret ()).

(** The target identities of [ensurePermissionsFor]: the truthy [mxid]s. *)
Definition isTarget (targets : list ResolvedPersonIdentifier)
  (user : string) : Prop :=
  user ≠ "" ∧ ∃ t, t ∈ targets ∧ mxid t = Some user.

(** [if (pls['users'][userId])]: a number that is not 0. *)
Definition truthyLevel (v : option Z) : bool :=
  match v with
  | Some n => bool_decide (n ≠ 0%Z)
  | None => false
  end.

(** The loop over [mxids] of [ensurePermissionsFor]. *)
Definition grantModerators (mxids : list string) (users : gmap string Z)
  : gmap string Z :=
  foldl (λ users userId,
           if truthyLevel (users !! userId) then users
           else <[userId := 50%Z]> users)
        users mxids.

Definition ensurePermissionsFor (targets : list ResolvedPersonIdentifier)
  (roomId : string) : M State unit :=
  let mxids :=
    map (λ r, default "" (mxid r))
        (List.filter (λ t, truthy (mxid t)) targets) in
  let* pls :=
    await (getRoomStateEvent client roomId "m.room.power_levels" (Some "")) in
  (* [pls['users'][...] = ...] throws when [pls] has no [users] *)
  let* users0 := await (users pls) in
  let users1 := <[getUserId client := 100%Z]> users0 in
  let users2 := <[moderatorUserId config := 100%Z]> users1 in
  let users3 := grantModerators mxids users2 in
  request
    (SendStateEvent roomId "m.room.power_levels" "" (set_users users3 pls))
    (sendStateEvent client roomId "m.room.power_levels" ""
       (set_users users3 pls)).
End Conference.

(** ** InviteCommand *)

Section InviteCommand.
Context (client : MatrixClient) (lib : Imports).

(** [emailInvitePersonIds]: the truthy person-ID payloads of the room's
    third-party-invite records. *)
Definition emailInvitePersonIds (state : list RoomEvent) : gset string :=
  list_to_set
    (map (default "")
       (List.filter truthy
          (map (λ s, content s ≫= RS_3PID_PERSON_ID)
             (List.filter
                (λ s, bool_decide (type s = "m.room.third_party_invite"))
                state)))).

(** [members.filter(m => m.effectiveMembership === "join")]: the getter
    is called on every member event, in order, and the filter throws where
    it does. *)
Fixpoint joinedMembers (members : list RoomEvent) : option (list RoomEvent) :=
  match members with
  | [] => Some []
  | m :: rest =>
      match effectiveMembership lib m with
      | None => None
      | Some effective =>
          match joinedMembers rest with
          | None => None
          | Some joined =>
              Some (if bool_decide (effective = "join") then m :: joined
                    else joined)
          end
      end
  end.

(** [effectiveJoinedUserIds]; [None] when the getter throws. *)
Definition effectiveJoinedUserIds (state : list RoomEvent)
  : option (gset string) :=
  let members :=
    List.filter (λ s, bool_decide (type s = "m.room.member")) state in
  (λ joined, list_to_set (map (membershipFor lib) joined))
  <$> joinedMembers members.

(** One turn of the loop over the targets.  A failed invite is caught and
    logged; the log entry is awaited inside the [catch] block, so a log
    entry that cannot be written throws out of the loop. *)
Definition inviteTarget (roomId : string) (invited joined : gset string)
  (target : ResolvedPersonIdentifier) : M (list Effect) unit :=
  if truthy (mxid target)
     && bool_decide (default "" (mxid target) ∈ joined)
  then ret ()
  else if bool_decide (person_id (person target) ∈ invited)
  then ret ()
  else
    λ trace,
      if invitePersonToRoom lib target roomId
      then (Some (), trace ++ [InvitePersonToRoom target roomId])
      else
        (if logMessage lib target roomId then Some () else None,
         trace ++ [InvitePersonToRoom target roomId;
                   LogError target roomId]).

Definition ensureInvited (roomId : string)
  (targets : list ResolvedPersonIdentifier) : M (list Effect) unit :=
  let* state := await (getRoomState client roomId) in
  let invited := emailInvitePersonIds state in
  let* joined := await (effectiveJoinedUserIds state) in
  forOf targets (inviteTarget roomId invited joined).

(** The requests of one turn of the loop. *)
Definition inviteRequests (roomId : string) (invited joined : gset string)
  (target : ResolvedPersonIdentifier) : list Effect :=
  (inviteTarget roomId invited joined target []).2.

(** The membership of every member event of the state can be read. *)
Definition membershipsReadable (state : list RoomEvent) : Prop :=
  ∀ s, s ∈ state → type s = "m.room.member" →
    is_Some (effectiveMembership lib s).

(** The target's platform identity has effective join membership. *)
Definition hasJoined (state : list RoomEvent)
  (target : ResolvedPersonIdentifier) : Prop :=
  ∃ user s,
    mxid target = Some user ∧ user ≠ "" ∧ s ∈ state
    ∧ type s = "m.room.member" ∧ effectiveMembership lib s = Some "join"
    ∧ membershipFor lib s = user.

(** A third-party-invite record of the room carries the target's person
    ID. *)
Definition hasPendingInvite (state : list RoomEvent)
  (target : ResolvedPersonIdentifier) : Prop :=
  person_id (person target) ≠ ""
  ∧ ∃ s, s ∈ state ∧ type s = "m.room.third_party_invite"
         ∧ content s ≫= RS_3PID_PERSON_ID
           = Some (person_id (person target)).

(** The invite of the target succeeds, or its failure is logged: the loop
    goes on after the target. *)
Definition goesOn (roomId : string) (target : ResolvedPersonIdentifier)
  : bool :=
  invitePersonToRoom lib target roomId || logMessage lib target roomId.

(** Of the targets that are not passed over, those for whom an invite is
    asked: all up to the first one after whom the loop does not go on. *)
Fixpoint askedFor (roomId : string) (todo : list ResolvedPersonIdentifier)
  : list ResolvedPersonIdentifier :=
  match todo with
  | [] => []
  | target :: rest =>
      target :: (if goesOn roomId target then askedFor roomId rest else [])
  end.
End InviteCommand.

(** ** Conference: lookups, role queries and parent spaces *)

(** Methods of classes that are not among the sources, and the parts of
    ./config and of the backend read by the functions below:
    [MatrixRoom.getSpace()], [InterestRoom.getId()], [Auditorium.getName()],
    [Auditorium.getSpace()], [db.getSystemName()]; the entries of
    [config.conference.subspaces], in order, each with its prefixes.  Reads
    answer [None] when they reject.  [powerLevels_undefined] is the answer
    of [client.getRoomStateEvent(undefined, "m.room.power_levels", "")],
    the read made for a room identifier that is undefined. *)
Record Surroundings := {
  MatrixRoom_getSpace : MatrixRoom → option Space;
  InterestRoom_getId : InterestRoom → option string;
  Auditorium_getName : Auditorium → option string;
  Auditorium_getSpace : Auditorium → option Space;
  getSystemName : string;
  subspaces_prefixes : list (string * list string);
  powerLevels_undefined : option Content;
}.

(** What [getDesiredParentSpace] comes to: the value it returns, which is
    a space or, for a subspace named like a property of
    [Object.prototype], the value inherited under that name; or one of its
    two ways of throwing: the error that names the subspace not yet
    created, or the failure of [this.getSpace()]. *)
Inductive ParentSpace :=
| Parent (space : Property Space)
| NotCreatedYet (subspaceId : string)
| NoConferenceSpace.

Section ConferenceQueries.
Context (db : DBBackend) (lib : Imports) (env : Surroundings).

Definition isCreated (this : Conference) : bool :=
  bool_decide (is_Some (dbRoom this)).

Definition getAuditorium (this : Conference) (audId : string)
  : Property Auditorium :=
  getProperty (auditoriums this) audId.

Definition getAuditoriumBackstage (this : Conference) (audId : string)
  : Property AuditoriumBackstage :=
  getProperty (auditoriumBackstages this) audId.

Definition getTalk (this : Conference) (talkId : string) : Property Talk :=
  getProperty (talks this) talkId.

Definition getInterestRoom (this : Conference) (intId : string)
  : Property InterestRoom :=
  getProperty (interestRooms this) intId.

(** [Conference.getSpace()], that is [this.dbRoom.getSpace()]: throws
    without a root room. *)
Definition Conference_getSpace (this : Conference) : option Space :=
  dbRoom this ≫= MatrixRoom_getSpace env.

Definition getPeopleForInterest (int : InterestRoom)
  : M State (list IDbPerson) :=
  (* "Yes, an interest room is an auditorium to Penta." *)
  let* intId := await (InterestRoom_getId env int) in
  let* found := await (findAllPeopleForAuditorium db intId) in
  let* (this, _) := get in
  ret (resolvePeople this found).

(** [roles.has(p.event_role)] for the three sets of roles the queries
    use. *)
Definition isCoordinator (p : IDbPerson) : bool :=
  match event_role p with Coordinator => true | _ => false end.

Definition isHostOrCoordinator (p : IDbPerson) : bool :=
  match event_role p with Host | Coordinator => true | _ => false end.

Definition isSpeakerHostOrCoordinator (p : IDbPerson) : bool :=
  match event_role p with
  | Coordinator | Host | Speaker => true
  | _ => false
  end.

Definition getInviteTargetsForAuditorium
  (auditorium : Auditorium + AuditoriumBackstage)
  : M State (list IDbPerson) :=
  let* found := getPeopleForAuditorium db lib auditorium in
  ret (List.filter isSpeakerHostOrCoordinator found).

Definition getInviteTargetsForTalk (talk : Talk) : M State (list IDbPerson) :=
  let* found := getPeopleForTalk db lib talk in
  ret (List.filter isSpeakerHostOrCoordinator found).

Definition getInviteTargetsForInterest (int : InterestRoom)
  : M State (list IDbPerson) :=
  let* found := getPeopleForInterest int in
  ret (List.filter isSpeakerHostOrCoordinator found).

Definition getModeratorsForInterest (int : InterestRoom)
  : M State (list IDbPerson) :=
  let* found := getPeopleForInterest int in
  ret (List.filter isHostOrCoordinator found).

(** The loop over the prefixes of one subspace of [getDesiredParentSpace];
    [None] when it ends without returning or throwing. *)
Fixpoint forPrefixes (this : Conference) (subspaceId : string)
  (prefixes : list string) (id : string) : option ParentSpace :=
  match prefixes with
  | [] => None
  | prefix :: rest =>
      if String.prefix prefix id then
        if hasProperty (subspaces this) subspaceId
        then Some (Parent (getProperty (subspaces this) subspaceId))
        else Some (NotCreatedYet subspaceId)
      else forPrefixes this subspaceId rest id
  end.

(** The loop over the configured subspaces. *)
Fixpoint forSubspaces (this : Conference)
  (entries : list (string * list string)) (id : string)
  : option ParentSpace :=
  match entries with
  | [] => None
  | (subspaceId, prefixes) :: rest =>
      match forPrefixes this subspaceId prefixes id with
      | Some result => Some result
      | None => forSubspaces this rest id
      end
  end.

(** [getDesiredParentSpace(auditoriumOrInterestRoom)], by the [id] of its
    argument. *)
Definition getDesiredParentSpace (this : Conference) (id : string)
  : ParentSpace :=
  match forSubspaces this (subspaces_prefixes env) id with
  | Some result => result
  | None =>
      (* "Default to the top-level conference space." *)
      match Conference_getSpace this with
      | Some space => Parent (Own space)
      | None => NoConferenceSpace
      end
  end.

(** What [getDesiredParentSpace] comes to when the subspace [subspaceId]
    decides. *)
Definition subspaceOrError (this : Conference) (subspaceId : string)
  : ParentSpace :=
  match getProperty (subspaces this) subspaceId with
  | Undefined => NotCreatedYet subspaceId
  | subspace => Parent subspace
  end.

(** The subspace that decides for [id]: the first configured one with a
    prefix of [id]. *)
Definition decidingSubspace (id : string) : option string :=
  fst <$> find (λ entry, existsb (λ prefix, String.prefix prefix id)
                                 (snd entry))
               (subspaces_prefixes env).
End ConferenceQueries.

(** ** The people lists of the commands *)

(** One turn of the loop that drops the people whose [person_id] was
    already seen: [if (!newPeople.some(n => n.person_id === p.person_id))
    newPeople.push(p)]. *)
Definition pushUnseen (newPeople : list IDbPerson) (p : IDbPerson)
  : list IDbPerson :=
  if existsb (λ n, bool_decide (person_id n = person_id p)) newPeople
  then newPeople
  else newPeople ++ [p].

(** The loop, as it stands in [InviteCommand.run] (twice) and in the command
    that counts the coordinators. *)
Definition dropSeen (people : list IDbPerson) : list IDbPerson :=
  foldl pushUnseen [] people.

(** ** Permissions and invites: what is written and who is asked *)

(** [mxids] of [ensurePermissionsFor]: the identities of the targets that
    have one. *)
Definition targetIds (targets : list ResolvedPersonIdentifier)
  : list string :=
  map (λ r, default "" (mxid r)) (List.filter (λ t, truthy (mxid t)) targets).

(** The [users] map that [ensurePermissionsFor] writes, from the one it
    read. *)
Definition mergeUsers (client : MatrixClient) (config : Config)
  (targets : list ResolvedPersonIdentifier) (users0 : gmap string Z)
  : gmap string Z :=
  grantModerators (targetIds targets)
    (<[moderatorUserId config := 100%Z]>
       (<[getUserId client := 100%Z]> users0)).

(** The two tests of [ensureInvited] that pass a target over. *)
Definition passedOver (invited joined : gset string)
  (target : ResolvedPersonIdentifier) : bool :=
  (truthy (mxid target) && bool_decide (default "" (mxid target) ∈ joined))
  || bool_decide (person_id (person target) ∈ invited).

(** The targets that the loop of [ensureInvited] comes to: all up to the
    first one, not passed over, after whom the loop does not go on. *)
Fixpoint reached (lib : Imports) (roomId : string)
  (invited joined : gset string) (targets : list ResolvedPersonIdentifier)
  : list ResolvedPersonIdentifier :=
  match targets with
  | [] => []
  | target :: rest =>
      target :: (if passedOver invited joined target
                    || goesOn lib roomId target
                 then reached lib roomId invited joined rest else [])
  end.

(** The targets of the invites asked for, in the order of the requests. *)
Definition invitesOf (requests : list Effect)
  : list ResolvedPersonIdentifier :=
  omap (λ e, match e with
             | InvitePersonToRoom target _ => Some target
             | _ => None
             end) requests.

(** The targets of the log entries, in the order of the requests. *)
Definition logsOf (requests : list Effect) : list ResolvedPersonIdentifier :=
  omap (λ e, match e with
             | LogError target _ => Some target
             | _ => None
             end) requests.

(** The cache has an identity for the person ID. *)
Definition cachedIdentity (this : Conference) (pid : string) : Prop :=
  ∃ stored, people this !! pid = Some stored ∧ truthy (userId stored) = true.

(** The stored persons [construct] reads from the state of the root room,
    in the order of the state. *)
Definition storedPersons (lib : Imports) (roomState : list RoomEvent)
  : list IStoredPerson :=
  map (λ s, as_IStoredPerson (contentOf s))
    (List.filter (λ s, bool_decide (type s = RS_STORED_PERSON lib))
       (List.filter hasContent roomState)).

(** ** Conference: creating the rooms and spaces

    The functions that create the conference ask the homeserver for spaces
    and rooms and link them.  What they ask is recorded, in order; an answer
    may depend on everything asked so far, and so may what a read gives. *)

(** Descriptions of ./models/schedule, by the properties the program
    reads. *)
Record IConference := { conference_title : string }.
Record IAuditorium := { auditorium_id : string; auditorium_name : string }.
Record IInterestRoom := { interest_id : string; interest_name : string }.
Record ITalk := {
  talk_id : string;
  talk_title : string;
  talk_slug : string;
  talk_startTime : Z;
}.

(** The creation templates of ./models/room_kinds. *)
Inductive Template :=
| CONFERENCE_ROOM_CREATION_TEMPLATE
| AUDITORIUM_CREATION_TEMPLATE
| AUDITORIUM_BACKSTAGE_CREATION_TEMPLATE
| TALK_CREATION_TEMPLATE
| SPECIAL_INTEREST_CREATION_TEMPLATE.

(** The state events made by the functions of ./models/room_state, by
    the call that makes them. *)
Inductive InitialState :=
| makeStoredConference (confId : string) (conference : IConference)
| makeStoredSpace (roomId : string)
| makeStoredAuditorium (confId : string) (auditorium : IAuditorium)
| makeStoredInterestRoom (confId : string) (interestRoom : IInterestRoom)
| makeStoredTalk (confId : string) (talk : ITalk)
| makeParentRoom (roomId : string).

(** The options merged with a creation template. *)
Record RoomOptions := {
  creation_content : option Content;
  name : option string;
  initial_state : list InitialState;
  room_alias_name : option string;
  invite : list string;
}.

(** [creation_content] with the conference and the ids given. *)
Definition creationContent (confId : string)
  (auditoriumId talkId interestId : option string) : Content := {|
  RSC_CONFERENCE_ID := Some confId; RSC_ROOM_KIND_FLAG := None;
  RSC_AUDITORIUM_ID := auditoriumId; RSC_TALK_ID := talkId;
  RSC_SPECIAL_INTEREST_ID := interestId; RS_3PID_PERSON_ID := None;
  third_party_invite := None; membership := None;
  as_IStoredPerson := {| pentaId := None; userId := None |};
  as_IStoredSubspace := {| subspace_roomId := None |};
  users := None |}.

(** The contents of the state events sent: [{ guest_access }],
    [{ roomId } as IStoredSubspace], [{ name }], and the power levels read
    with [events["im.vector.modular.widgets"] = 100]. *)
Inductive Written :=
| guest_access (value : string)
| storedSubspace (stored : IStoredSubspace)
| roomName (title : string)
| widgetsRestricted (powerLevels : Content).

(** What is asked of the homeserver: [client.createSpace],
    [safeCreateRoom] of ./utils on a merged template,
    [assignAliasVariations] of ./utils/aliases, [addDirectChild] of a room,
    [addChildSpace] and [addChildRoom] of a space with the [order] given,
    [client.sendStateEvent].  A room identifier read from a value that has
    no [roomId] is undefined ([None]), and the child space given may be a
    value inherited from [Object.prototype]. *)
Inductive Request :=
| CreateSpace (isPublic : bool) (localpart displayName : string)
| SafeCreateRoom (template : Template) (options : RoomOptions)
| AssignAliasVariations (roomId alias : string) (identifier : option string)
| AddDirectChild (parentRoomId : string) (roomId : option string)
| AddChildSpace (space : Space) (child : Property Space)
    (order : option string)
| AddChildRoom (space : Space) (roomId : option string)
    (order : option string)
| SendState (roomId : option string) (ty key : string) (written : Written).

(** The answers of the homeserver.  Each is given the requests made so
    far, the last of which is the one answered: the space of a
    [CreateSpace], the room of a [SafeCreateRoom] ([None] when the promise
    rejects), and whether any other request succeeds. *)
Record Server := {
  createdSpace : list Request → option Space;
  createdRoom : list Request → option string;
  accepted : list Request → bool;
}.

(** The parts of ./config read here that do not change, and the functions
    of ./utils, ./utils/aliases and of the SDK that compute names:
    [makeLocalpart], [makeDisplayName], [new RoomAlias(alias).localpart],
    and [new Date(t).toISOString()], which throws on an invalid date. *)
Record Settings := {
  conference_id : string;
  conference_name : string;
  prefixes_aliases : string;
  supportRooms_speakers : string;
  supportRooms_specialInterest : string;
  supportRooms_coordinators : string;
  makeLocalpart : string → string → string;
  makeDisplayName : string → string → string;
  RoomAlias_localpart : string → string;
  toISOString : Z → option string;
}.

(** The catalog and the requests made so far. *)
Abbreviation Build := (Conference * list Request)%type.

Section Builder.
Context (client : list Request → MatrixClient)
        (env : list Request → Surroundings)
        (server : Server) (settings : Settings) (config : Config)
        (lib : Imports).

(** A request with an answer. *)
Definition ask {A} (answer : list Request → option A) (r : Request)
  : M Build A :=
  λ s, (answer (s.2 ++ [r]), (s.1, s.2 ++ [r])).

(** A request that succeeds or throws. *)
Definition send (r : Request) : M Build unit :=
  ask (λ asked, if accepted server asked then Some () else None) r.

(** A request whose promise is not awaited: its failure is not seen. *)
Definition sendUnawaited (r : Request) : M Build unit :=
  λ s, (Some (), (s.1, s.2 ++ [r])).

(** A read, answered as of the requests made so far. *)
Definition read {A} (answer : list Request → option A) : M Build A :=
  λ s, (answer s.2, s).

Definition catalog : M Build Conference := λ s, (Some s.1, s).

Definition update (f : Conference → Conference) : M Build unit :=
  λ s, (Some (), (f s.1, s.2)).

(** [await this.getSpace()]. *)
Definition getSpaceNow : M Build Space :=
  λ s, (Conference_getSpace (env s.2) s.1, s).

(** [await this.getDesiredParentSpace(auditoriumOrInterestRoom)]. *)
Definition desiredParentSpace (entityId : string)
  : M Build (Property Space) :=
  λ s, (match getDesiredParentSpace (env s.2) s.1 entityId with
        | Parent space => Some space
        | _ => None
        end, s).

(** The receiver of [space.addChildSpace(...)] or [space.addChildRoom(...)]:
    a value inherited from [Object.prototype] has no such method, and the
    call throws. *)
Definition asSpace (space : Property Space) : M Build Space :=
  await (match space with Own space => Some space | _ => None end).

Definition guestsCanJoin (roomId : option string) : Request :=
  SendState roomId "m.room.guest_access" "" (guest_access "can_join").

Definition createDb (conference : IConference) : M Build unit :=
  let* this := catalog in
  let* space :=
    match dbRoom this with
    | None =>
        let* space :=
          ask (createdSpace server)
            (CreateSpace true (conference_id settings)
               (conference_name settings)) in
        let* roomId :=
          ask (createdRoom server)
            (SafeCreateRoom CONFERENCE_ROOM_CREATION_TEMPLATE
               {| creation_content :=
                    Some (creationContent (id this) None None None);
                  name := Some ("[DB] Conference "
                                +:+ conference_title conference);
                  initial_state :=
                    [makeStoredConference (id this) conference;
                     makeStoredSpace (space_roomId space)];
                  room_alias_name := None; invite := [] |}) in
        let* _ := update (set_dbRoom (Some {| mr_roomId := roomId |})) in
        ret space
    | Some room => read (λ asked, MatrixRoom_getSpace (env asked) room)
    end in
  (* "Ensure that the space can be viewed by guest users." *)
  send (guestsCanJoin (Some (space_roomId space))).

(** One turn of the loop of [createSupportRooms]. *)
Definition createSupportRoom (alias : string) : M Build unit :=
  let* resolved := read (λ asked, Some (resolveRoom (client asked) alias)) in
  match resolved with
  | Some _ => ret ()
  | None =>
      (* "The room doesn't exist yet, probably." *)
      let* roomId :=
        ask (createdRoom server)
          (SafeCreateRoom AUDITORIUM_BACKSTAGE_CREATION_TEMPLATE
             {| creation_content := None; name := None; initial_state := [];
                room_alias_name := Some (RoomAlias_localpart settings alias);
                invite := [moderatorUserId config] |}) in
      let* space := getSpaceNow in
      sendUnawaited (AddChildRoom space (Some roomId) None)
  end.

Definition roomAliases : list string :=
  [supportRooms_speakers settings; supportRooms_specialInterest settings;
   supportRooms_coordinators settings].

Definition createSupportRooms : M Build unit :=
  forOf roomAliases createSupportRoom.

Definition createSubspace (subspaceId displayName aliasLocalpart : string)
  : M Build (Property Space) :=
  let* this := catalog in
  let* subspace :=
    match getProperty (subspaces this) subspaceId with
    | Undefined =>
        let* subspace :=
          ask (createdSpace server)
            (CreateSpace true
               ("space-" +:+ prefixes_aliases settings +:+ aliasLocalpart)
               displayName) in
        let* _ :=
          update (λ this,
            set_subspaces (<[subspaceId := subspace]> (subspaces this))
              this) in
        (* [this.dbRoom.roomId] throws when there is no root room *)
        let* this := catalog in
        let* room := await (dbRoom this) in
        let* _ :=
          send (SendState (Some (mr_roomId room)) (RS_STORED_SUBSPACE lib)
                  subspaceId
                  (storedSubspace
                     {| subspace_roomId := Some (space_roomId subspace) |}))
        in
        ret (Own subspace)
    | existing => ret existing
    end in
  (* "Ensure that the subspace appears within the conference space." *)
  let* space := getSpaceNow in
  let* _ := send (AddChildSpace space subspace None) in
  (* "Ensure that the subspace can be viewed by guest users." *)
  let* _ := send (guestsCanJoin (roomIdOf space_roomId subspace)) in
  ret subspace.

(** [config.conference.existingInterestRooms[interestId]], on the own
    properties of the object. *)
Definition existingInterestRoom (interestId : string) : option string :=
  snd <$> find (λ entry, bool_decide (entry.1 = interestId))
               (existingInterestRooms config).

(** [client.getRoomStateEvent(roomId, "m.room.power_levels", "")]. *)
Definition powerLevelsOf (roomId : option string) : M Build Content :=
  read (λ asked,
    match roomId with
    | Some roomId =>
        getRoomStateEvent (client asked) roomId "m.room.power_levels"
          (Some "")
    | None => powerLevels_undefined (env asked)
    end).

Definition createInterestRoom (interestRoom : IInterestRoom)
  : M Build (Property InterestRoom) :=
  let interestId := interest_id interestRoom in
  let* this := catalog in
  let* roomId :=
    match getProperty (interestRooms this) interestId with
    | Undefined =>
        (* [interestRoom.id in config.conference.existingInterestRooms]:
           the id is no property of [Object.prototype] here, or
           [this.interestRooms[interestRoom.id]] would be defined *)
        match existingInterestRoom interestId with
        | Some roomIdOrAlias =>
            (* "Resolve a pre-existing room that has been created after the
               bot started up." *)
            let* roomId :=
              read (λ asked, resolveRoom (client asked) roomIdOrAlias) in
            let* _ :=
              update (λ this,
                set_interestRooms
                  (<[interestId := {| ir_roomId := roomId;
                                      ir_id := Some interestId |}]>
                     (interestRooms this)) this) in
            ret (Some roomId)
        | None =>
            (* "Create a new interest room." *)
            let* room := await (dbRoom this) in
            let* roomId :=
              ask (createdRoom server)
                (SafeCreateRoom SPECIAL_INTEREST_CREATION_TEMPLATE
                   {| creation_content :=
                        Some (creationContent (id this) None None
                                (Some interestId));
                      name := None;
                      initial_state :=
                        [makeStoredInterestRoom (id this) interestRoom;
                         makeParentRoom (mr_roomId room)];
                      room_alias_name := None; invite := [] |}) in
            let* _ :=
              send (AssignAliasVariations roomId
                      (prefixes_aliases settings
                       +:+ interest_name interestRoom)
                      (Some interestId)) in
            let* _ :=
              update (λ this,
                set_interestRooms
                  (<[interestId := {| ir_roomId := roomId;
                                      ir_id := Some interestId |}]>
                     (interestRooms this)) this) in
            ret (Some roomId)
        end
    | existing =>
        (* "The interest room already exists" *)
        ret (roomIdOf ir_roomId existing)
    end in
  (* "Ensure that widget modification is restricted to admins." *)
  let* powerLevels := powerLevelsOf roomId in
  let* _ :=
    send (SendState roomId "m.room.power_levels" ""
            (widgetsRestricted powerLevels)) in
  (* "Ensure that the room appears within the correct space." *)
  let* this := catalog in
  let* room := await (dbRoom this) in
  let* _ := send (AddDirectChild (mr_roomId room) roomId) in
  let* parentSpace := desiredParentSpace interestId in
  let* parentSpace := asSpace parentSpace in
  let* _ :=
    send (AddChildRoom parentSpace roomId
            (Some ("interest-" +:+ interestId))) in
  let* this := catalog in
  ret (getProperty (interestRooms this) interestId).

Definition createAuditoriumBackstage (auditorium : IAuditorium)
  : M Build (Property AuditoriumBackstage) :=
  let auditoriumId := auditorium_id auditorium in
  let* this := catalog in
  match getProperty (auditoriumBackstages this) auditoriumId with
  | Undefined =>
      let* room := await (dbRoom this) in
      let* roomId :=
        ask (createdRoom server)
          (SafeCreateRoom AUDITORIUM_BACKSTAGE_CREATION_TEMPLATE
             {| creation_content :=
                  Some (creationContent (id this) (Some auditoriumId) None
                          None);
                name := None;
                initial_state :=
                  [makeStoredAuditorium (id this) auditorium;
                   makeParentRoom (mr_roomId room)];
                room_alias_name := None; invite := [] |}) in
      let* _ :=
        send (AssignAliasVariations roomId
                (prefixes_aliases settings +:+ auditorium_name auditorium
                 +:+ "-backstage")
                (Some auditoriumId)) in
      let* this := catalog in
      let* room := await (dbRoom this) in
      let* _ := send (AddDirectChild (mr_roomId room) (Some roomId)) in
      let* _ :=
        update (λ this,
          set_auditoriumBackstages
            (<[auditoriumId := {| bs_roomId := roomId |}]>
               (auditoriumBackstages this)) this) in
      let* this := catalog in
      ret (getProperty (auditoriumBackstages this) auditoriumId)
  | existing => ret existing
  end.

Definition createAuditorium (auditorium : IAuditorium)
  : M Build (Property Auditorium) :=
  let auditoriumId := auditorium_id auditorium in
  let* this := catalog in
  match getProperty (auditoriums this) auditoriumId with
  | Undefined =>
      let* parentSpace := desiredParentSpace auditoriumId in
      let* audSpace :=
        ask (createdSpace server)
          (CreateSpace true
             (makeLocalpart settings
                ("space-" +:+ prefixes_aliases settings
                 +:+ auditorium_name auditorium) auditoriumId)
             (makeDisplayName settings (auditorium_name auditorium)
                auditoriumId)) in
      let* parentSpace := asSpace parentSpace in
      let* _ :=
        send (AddChildSpace parentSpace (Own audSpace)
                (Some ("auditorium-" +:+ auditoriumId))) in
      let* this := catalog in
      let* room := await (dbRoom this) in
      let* roomId :=
        ask (createdRoom server)
          (SafeCreateRoom AUDITORIUM_CREATION_TEMPLATE
             {| creation_content :=
                  Some (creationContent (id this) (Some auditoriumId) None
                          None);
                name := None;
                initial_state :=
                  [makeStoredAuditorium (id this) auditorium;
                   makeParentRoom (mr_roomId room);
                   makeStoredSpace (space_roomId audSpace)];
                room_alias_name := None; invite := [] |}) in
      let* _ :=
        send (AssignAliasVariations roomId
                (prefixes_aliases settings +:+ auditorium_name auditorium)
                (Some auditoriumId)) in
      let* this := catalog in
      let* room := await (dbRoom this) in
      let* _ := send (AddDirectChild (mr_roomId room) (Some roomId)) in
      let* _ :=
        update (λ this,
          set_auditoriums
            (<[auditoriumId := {| aud_roomId := roomId |}]>
               (auditoriums this)) this) in
      let* _ :=
        send (AddChildRoom audSpace (Some roomId) (Some "1-auditorium")) in
      (* "Now create the backstage" *)
      let* backstage := createAuditoriumBackstage auditorium in
      let* _ :=
        send (AddChildRoom audSpace (roomIdOf bs_roomId backstage)
                (Some "2-backstage")) in
      let* this := catalog in
      ret (getProperty (auditoriums this) auditoriumId)
  | existing => ret existing
  end.

Definition createTalk (talk : ITalk) (auditorium : Auditorium)
  : M Build (Property Talk) :=
  let talkId := talk_id talk in
  let* this := catalog in
  let* roomId :=
    match getProperty (talks this) talkId with
    | Undefined =>
        let* auditoriumId := await (Auditorium_getId lib auditorium) in
        let* roomId :=
          ask (createdRoom server)
            (SafeCreateRoom TALK_CREATION_TEMPLATE
               {| creation_content :=
                    Some (creationContent (id this) (Some auditoriumId)
                            (Some talkId) None);
                  name := Some (talk_title talk);
                  initial_state :=
                    [makeStoredTalk (id this) talk;
                     makeParentRoom (aud_roomId auditorium)];
                  room_alias_name := None; invite := [] |}) in
        let* auditoriumName :=
          read (λ asked, Auditorium_getName (env asked) auditorium) in
        let* _ :=
          send (AssignAliasVariations roomId
                  (prefixes_aliases settings +:+ auditoriumName +:+ "-"
                   +:+ talk_slug talk) None) in
        let* _ :=
          send (AssignAliasVariations roomId
                  (prefixes_aliases settings +:+ "talk-" +:+ talkId) None) in
        let* _ :=
          update (λ this,
            set_talks (<[talkId := {| talk_roomId := roomId |}]>
                         (talks this)) this) in
        ret (Some roomId)
    | existing =>
        let roomId := roomIdOf talk_roomId existing in
        (* "Ensure that the room has the correct name." *)
        let* _ :=
          send (SendState roomId "m.room.name" ""
                  (roomName (talk_title talk))) in
        ret roomId
    end in
  (* "Ensure that the room appears within the correct space." *)
  let* _ := send (AddDirectChild (aud_roomId auditorium) roomId) in
  let* startTime := await (toISOString settings (talk_startTime talk)) in
  let* space := read (λ asked, Auditorium_getSpace (env asked) auditorium) in
  let* _ :=
    send (AddChildRoom space roomId (Some ("3-talk-" +:+ startTime))) in
  let* this := catalog in
  ret (getProperty (talks this) talkId).
End Builder.

(** ** What the creating functions keep *)

(** The catalog [later] has everything the catalog [earlier] has. *)
Definition extends (earlier later : Conference) : Prop :=
  id later = id earlier ∧ people later = people earlier
  ∧ (∀ room, dbRoom earlier = Some room → dbRoom later = Some room)
  ∧ subspaces earlier ⊆ subspaces later
  ∧ auditoriums earlier ⊆ auditoriums later
  ∧ auditoriumBackstages earlier ⊆ auditoriumBackstages later
  ∧ talks earlier ⊆ talks later
  ∧ interestRooms earlier ⊆ interestRooms later.

(** Whatever its outcome, [m] keeps what the catalog has and what was
    asked. *)
Definition onlyGrows {A} (m : M Build A) : Prop :=
  ∀ s, extends s.1 (m s).2.1 ∧ s.2 `prefix_of` (m s).2.2.

(** The requests for a new space or room. *)
Definition isCreation (r : Request) : bool :=
  match r with
  | CreateSpace _ _ _ | SafeCreateRoom _ _ => true
  | _ => false
  end.

(** [m] run from [s] asks for no new space or room and leaves the catalog
    as it was. *)
Definition createsNothing {A} (m : M Build A) (s : Build) : Prop :=
  (m s).2.1 = s.1
  ∧ ∃ added, (m s).2.2 = s.2 ++ added ∧ List.filter isCreation added = [].

(** The request for a support room. *)
Definition supportRoomRequest (settings : Settings) (config : Config)
  (alias : string) : Request :=
  SafeCreateRoom AUDITORIUM_BACKSTAGE_CREATION_TEMPLATE
    {| creation_content := None; name := None; initial_state := [];
       room_alias_name := Some (RoomAlias_localpart settings alias);
       invite := [moderatorUserId config] |}.

(** What one turn of the loop of [createSupportRooms] asks for an alias,
    [asked] being what was asked before: nothing when the alias resolves;
    otherwise the room and, when the room is made and the conference has
    its space, the place of the room in that space. *)
Definition supportRoomTurn (client : list Request → MatrixClient)
  (env : list Request → Surroundings) (server : Server)
  (settings : Settings) (config : Config) (this : Conference)
  (asked : list Request) (alias : string) : list Request :=
  match resolveRoom (client asked) alias with
  | Some _ => []
  | None =>
      let request := supportRoomRequest settings config alias in
      request
      :: match createdRoom server (asked ++ [request]) with
         | None => []
         | Some roomId =>
             match Conference_getSpace (env (asked ++ [request])) this with
             | None => []
             | Some space => [AddChildRoom space (Some roomId) None]
             end
         end
  end.

(** The requests of [createAuditoriumBackstage] when it makes the room
    [roomId], under the root room [room]. *)
Definition backstageRequests (settings : Settings) (confId : string)
  (room : MatrixRoom) (auditorium : IAuditorium) (roomId : string)
  : list Request :=
  [SafeCreateRoom AUDITORIUM_BACKSTAGE_CREATION_TEMPLATE
     {| creation_content :=
          Some (creationContent confId (Some (auditorium_id auditorium))
                  None None);
        name := None;
        initial_state :=
          [makeStoredAuditorium confId auditorium;
           makeParentRoom (mr_roomId room)];
        room_alias_name := None; invite := [] |};
   AssignAliasVariations roomId
     (prefixes_aliases settings +:+ auditorium_name auditorium
      +:+ "-backstage")
     (Some (auditorium_id auditorium));
   AddDirectChild (mr_roomId room) (Some roomId)].

(** The requests of [createAuditorium] up to the backstage, when it makes
    the space [audSpace] under [parentSpace] and the room [roomId]. *)
Definition auditoriumRequests (settings : Settings) (confId : string)
  (room : MatrixRoom) (auditorium : IAuditorium)
  (parentSpace audSpace : Space) (roomId : string) : list Request :=
  [CreateSpace true
     (makeLocalpart settings
        ("space-" +:+ prefixes_aliases settings
         +:+ auditorium_name auditorium) (auditorium_id auditorium))
     (makeDisplayName settings (auditorium_name auditorium)
        (auditorium_id auditorium));
   AddChildSpace parentSpace (Own audSpace)
     (Some ("auditorium-" +:+ auditorium_id auditorium));
   SafeCreateRoom AUDITORIUM_CREATION_TEMPLATE
     {| creation_content :=
          Some (creationContent confId (Some (auditorium_id auditorium))
                  None None);
        name := None;
        initial_state :=
          [makeStoredAuditorium confId auditorium;
           makeParentRoom (mr_roomId room);
           makeStoredSpace (space_roomId audSpace)];
        room_alias_name := None; invite := [] |};
   AssignAliasVariations roomId
     (prefixes_aliases settings +:+ auditorium_name auditorium)
     (Some (auditorium_id auditorium));
   AddDirectChild (mr_roomId room) (Some roomId);
   AddChildRoom audSpace (Some roomId) (Some "1-auditorium")].

(** ** What [construct] loads once the rooms are classified *)

(** The catalog once every joined room is classified: each room writes
    when the read of its creation record settles. *)
Definition classifiedCatalog (client : MatrixClient) (this : Conference)
  (roomIds : list string) : Conference :=
  foldl (classified client) (reset this) (settledRooms client roomIds).

(** The catalog once the loop over [config.conference.existingInterestRooms]
    has run. *)
Definition withConfigured (client : MatrixClient) (config : Config)
  (this : Conference) : Conference :=
  foldl (λ this entry, (resolveExisting client entry this).2) this
    (existingInterestRooms config).

(** The interest room that the configuration gives for an id: that of the
    first entry for the id whose room or alias resolves; none for an id
    that is a property name of [Object.prototype], which the loop finds
    [in] the interest rooms whatever they hold. *)
Definition configuredRoom (client : MatrixClient) (config : Config)
  (interestId : string) : option InterestRoom :=
  if inherited interestId then None
  else
    find (λ entry, bool_decide (entry.1 = interestId)
                   && bool_decide (is_Some (resolveRoom client entry.2)))
         (existingInterestRooms config)
    ≫= λ entry,
         (λ roomId, {| ir_roomId := roomId; ir_id := Some interestId |})
         <$> resolveRoom client entry.2.

(** [subspaceEvents] of [construct], and the room of one of them. *)
Definition storedSubspaces (lib : Imports) (roomState : list RoomEvent)
  : list RoomEvent :=
  List.filter (λ event, bool_decide (type event = RS_STORED_SUBSPACE lib))
    (List.filter hasContent roomState).

Definition subspaceRoom (subspaceEvent : RoomEvent) : option string :=
  subspace_roomId (as_IStoredSubspace (contentOf subspaceEvent)).

(** One turn of the loop over the subspace events. *)
Definition openSubspace (client : MatrixClient) (subspaceEvent : RoomEvent)
  : M Conference unit :=
  let roomId :=
    subspace_roomId (as_IStoredSubspace (contentOf subspaceEvent)) in
  let* space := await (getSpace client roomId) in
  modify (λ this,
    set_subspaces (<[state_key subspaceEvent := space]> (subspaces this))
      this).

(** Every space of the events can be opened. *)
Definition spacesOpen (client : MatrixClient) (events : list RoomEvent)
  : bool :=
  forallb (λ e, bool_decide (is_Some (getSpace client (subspaceRoom e))))
    events.

(** ** The requests of the [room.event] handler *)

(** The stored person written for a person found, once stamped with the
    identity that redeemed. *)
Definition stamped (event : RoomEvent) (p : IDbPerson) : IStoredPerson :=
  {| pentaId := Some (person_id p); userId := Some (state_key event) |}.

(** The write of the association block for one person found, and whether
    the homeserver accepts it. *)
Definition stampWrite (lib : Imports) (room : MatrixRoom) (event : RoomEvent)
  (p : IDbPerson) : Effect :=
  SendStateEvent (mr_roomId room) (RS_STORED_PERSON lib) (person_id p)
    (personContent (stamped event p)).

Definition stampAccepted (client : MatrixClient) (lib : Imports)
  (room : MatrixRoom) (event : RoomEvent) (p : IDbPerson) : bool :=
  sendStateEvent client (mr_roomId room) (RS_STORED_PERSON lib) (person_id p)
    (personContent (stamped event p)).

(** The cache once the stored persons of [written] have been put in it, in
    order. *)
Definition cacheStamped (event : RoomEvent) (written : list IDbPerson)
  (cache : gmap string IStoredPerson) : gmap string IStoredPerson :=
  foldl (λ cache p, <[person_id p := stamped event p]> cache) cache written.

(** ** A concrete homeserver, for examples *)

Module Demo.
Definition bot : string := "@bot:example.org".

Definition creation (conf : string) (kind : RoomKind)
  (aud tk interest : option string) : Content := {|
  RSC_CONFERENCE_ID := Some conf; RSC_ROOM_KIND_FLAG := Some kind;
  RSC_AUDITORIUM_ID := aud; RSC_TALK_ID := tk;
  RSC_SPECIAL_INTEREST_ID := interest; RS_3PID_PERSON_ID := None;
  third_party_invite := None; membership := None;
  as_IStoredPerson := {| pentaId := None; userId := None |};
  as_IStoredSubspace := {| subspace_roomId := None |};
  users := None |}.

Definition inviteRecord (pid : string) : Content := {|
  RSC_CONFERENCE_ID := None; RSC_ROOM_KIND_FLAG := None;
  RSC_AUDITORIUM_ID := None; RSC_TALK_ID := None;
  RSC_SPECIAL_INTEREST_ID := None; RS_3PID_PERSON_ID := Some pid;
  third_party_invite := None; membership := None;
  as_IStoredPerson := {| pentaId := None; userId := None |};
  as_IStoredSubspace := {| subspace_roomId := None |};
  users := None |}.

Definition member (m : string) (invite : option ThirdPartyInvite)
  : Content := {|
  RSC_CONFERENCE_ID := None; RSC_ROOM_KIND_FLAG := None;
  RSC_AUDITORIUM_ID := None; RSC_TALK_ID := None;
  RSC_SPECIAL_INTEREST_ID := None; RS_3PID_PERSON_ID := None;
  third_party_invite := invite; membership := Some m;
  as_IStoredPerson := {| pentaId := None; userId := None |};
  as_IStoredSubspace := {| subspace_roomId := None |};
  users := None |}.

Definition stateEvent (ty key from : string) (c : Content) : RoomEvent :=
  {| type := ty; state_key := key; sender := from; content := Some c |}.

(** The state of each room of the server. *)
Definition Rooms := list (string * list RoomEvent).

Definition stateOf (rooms : Rooms) (roomId : string)
  : option (list RoomEvent) :=
  snd <$> find (λ r, bool_decide (fst r = roomId)) rooms.

(** A client of a server in a fixed state: a state event is found by its
    type and key, and a read of a room or event that is not there
    rejects; writes are accepted. *)
Definition clientOf (joined : option (list string)) (rooms : Rooms)
  : MatrixClient := {|
  getUserId := bot;
  getJoinedRooms := joined;
  getRoomStateEvent := λ roomId ty key,
    state ← stateOf rooms roomId;
    e ← find (λ e, bool_decide (type e = ty)
                   && bool_decide (state_key e = default "" key)) state;
    content e;
  getRoomState := stateOf rooms;
  resolveRoom := λ _, None;
  getSpace := λ r, (λ r, {| space_roomId := r |}) <$> r;
  sendStateEvent := λ _ _ _ _, true;
  settlesNext := λ _, 0 |}.

(** The same homeserver, where of the reads started together the last
    one settles first. *)
Definition lastFirst (c : MatrixClient) : MatrixClient := {|
  getUserId := getUserId c;
  getJoinedRooms := getJoinedRooms c;
  getRoomStateEvent := getRoomStateEvent c;
  getRoomState := getRoomState c;
  resolveRoom := resolveRoom c;
  getSpace := getSpace c;
  sendStateEvent := sendStateEvent c;
  settlesNext := λ pending, length pending - 1 |}.

Definition alice : string := "@alice:example.org".
Definition mallory : string := "@mallory:example.org".

Definition room1 : list RoomEvent := [
  stateEvent "m.room.create" "" bot
    (creation "X" KAuditorium (Some "A1") None None);
  stateEvent "m.room.power_levels" "" bot
    (set_users {[ alice := 100%Z; mallory := 0%Z ]} emptyContent);
  stateEvent "m.room.third_party_invite" "tok1" bot (inviteRecord "p1");
  stateEvent "m.room.third_party_invite" "tok2" bot (inviteRecord "p1");
  stateEvent "m.room.member" alice alice (member "join" None)
].

Definition room2 : list RoomEvent := [
  stateEvent "m.room.create" "" "@other:example.org"
    (creation "Y" KTalk None (Some "T1") None)
].

Definition dbRoomState : list RoomEvent := [
  stateEvent "m.room.create" "" bot
    (creation "X" KConference None None None)
].

Definition rooms : Rooms :=
  [("!room1:x", room1); ("!room2:x", room2); ("!db:x", dbRoomState)].

(** The scenario of the specification: two joined rooms. *)
Definition scenario : MatrixClient :=
  clientOf (Some ["!room1:x"; "!room2:x"]) rooms.

Definition client : MatrixClient :=
  clientOf (Some ["!room1:x"; "!room2:x"; "!db:x"]) rooms.

(** The list of joined rooms cannot be read. *)
Definition offline : MatrixClient := clientOf None rooms.

Definition config : Config :=
  {| moderatorUserId := "@admin:example.org"; existingInterestRooms := [] |}.

Definition p1 : IDbPerson :=
  {| person_id := "p1"; matrix_id := None; event_role := Coordinator |}.

Definition db : DBBackend := {|
  findPeopleWithId := λ pid,
    if bool_decide (pid = "p1") then Some [p1] else Some [];
  findAllPeopleForAuditorium := λ _, Some [p1];
  findAllPeopleForTalk := λ _, Some [] |}.

Definition lib : Imports := {|
  RS_STORED_PERSON := "org.matrix.confbot.person";
  RS_STORED_SUBSPACE := "org.matrix.confbot.subspace";
  Auditorium_getId := λ _, Some "A1";
  AuditoriumBackstage_getId := λ _, Some "A1";
  Talk_getId := λ _, Some "T1";
  resolveIdentifiers := λ l,
    Some (map (λ p, {| mxid := matrix_id p; person := p |}) l);
  ensureModerator := λ _ _, true;
  invitePersonToRoom := λ t _,
    bool_decide (person_id (person t) ≠ "p3"
                 ∧ person_id (person t) ≠ "p6");
  logMessage := λ t _, bool_decide (person_id (person t) ≠ "p6");
  membershipFor := state_key;
  effectiveMembership := λ e,
    match content e ≫= membership with
    | Some "join" => Some "join"
    | Some "invite" => Some "invite"
    | Some "" | None => None
    | Some _ => Some "leave"
    end |}.

Definition emptyCatalog (confId : string) : Conference :=
  {| id := confId; dbRoom := None; subspaces := ∅; auditoriums := ∅;
     auditoriumBackstages := ∅; talks := ∅; interestRooms := ∅;
     people := ∅ |}.

(** The catalog of conference "X" once built. *)
Definition built : Conference :=
  {| id := "X"; dbRoom := Some {| mr_roomId := "!db:x" |}; subspaces := ∅;
     auditoriums := {[ "A1" := {| aud_roomId := "!room1:x" |} ]};
     auditoriumBackstages := ∅; talks := ∅; interestRooms := ∅;
     people := ∅ |}.

(** A membership event that redeems the invite [tok] for [user]. *)
Definition redemption (tok user : string) : RoomEvent :=
  {| type := "m.room.member"; state_key := user; sender := user;
     content :=
       Some (member "join"
               (Some {| signed := Some {| token := Some tok |} |})) |}.

(** Twenty-one joined rooms: one whose state cannot be read, nineteen
    rooms of another conference, and the auditorium. *)
Definition fillers : list string :=
  ["!r01:x"; "!r02:x"; "!r03:x"; "!r04:x"; "!r05:x"; "!r06:x";
   "!r07:x"; "!r08:x"; "!r09:x"; "!r10:x"; "!r11:x"; "!r12:x";
   "!r13:x"; "!r14:x"; "!r15:x"; "!r16:x"; "!r17:x"; "!r18:x";
   "!r19:x"].

Definition crowdedRooms : Rooms :=
  rooms
  ++ map (λ r,
       (r, [stateEvent "m.room.create" "" "@other:example.org"
              (creation "Z" KTalk None (Some "T9") None)]))
       fillers.

Definition crowded : MatrixClient :=
  clientOf (Some ("!gone:x" :: fillers ++ ["!room1:x"])) crowdedRooms.

(** Two joined rooms of conference "X" that both say they are the
    auditorium "A1". *)
Definition twins : MatrixClient :=
  clientOf (Some ["!a:x"; "!b:x"])
    [("!a:x", [stateEvent "m.room.create" "" bot
                 (creation "X" KAuditorium (Some "A1") None None)]);
     ("!b:x", [stateEvent "m.room.create" "" bot
                 (creation "X" KAuditorium (Some "A1") None None)])].

(** Two joined rooms: one whose state cannot be read, and the
    auditorium. *)
Definition flaky : MatrixClient :=
  clientOf (Some ["!gone:x"; "!room1:x"]) rooms.

(** A room with a member event that has lost its membership. *)
Definition redacted : MatrixClient :=
  clientOf (Some ["!redacted:x"])
    [("!redacted:x",
      [stateEvent "m.room.member" "@gone:example.org" "@gone:example.org"
         emptyContent])].

Definition target (user : option string) (pid : string)
  : ResolvedPersonIdentifier :=
  {| mxid := user;
     person := {| person_id := pid; matrix_id := user;
                  event_role := Speaker |} |}.
End Demo.

Example scenario_rebuild :
  construct Demo.scenario Demo.config Demo.lib (Demo.emptyCatalog "X")
  = (Some (),
     {| id := "X"; dbRoom := None; subspaces := ∅;
        auditoriums := {[ "A1" := {| aud_roomId := "!room1:x" |} ]};
        auditoriumBackstages := ∅; talks := ∅; interestRooms := ∅;
        people := ∅ |}).
Proof. vm_compute. reflexivity. Qed.

Example demo_rebuild :
  construct Demo.client Demo.config Demo.lib (Demo.emptyCatalog "X")
  = (Some (), Demo.built).
Proof. vm_compute. reflexivity. Qed.

(** ** A second homeserver: people, subspaces, configured rooms and a
       conference being built *)

Module Festival.
Definition storedPerson (key pid : string) (user : option string)
  : RoomEvent :=
  Demo.stateEvent (RS_STORED_PERSON Demo.lib) key Demo.bot
    (personContent {| pentaId := Some pid; userId := user |}).

Definition subspaceContent (roomId : string) : Content := {|
  RSC_CONFERENCE_ID := None; RSC_ROOM_KIND_FLAG := None;
  RSC_AUDITORIUM_ID := None; RSC_TALK_ID := None;
  RSC_SPECIAL_INTEREST_ID := None; RS_3PID_PERSON_ID := None;
  third_party_invite := None; membership := None;
  as_IStoredPerson := {| pentaId := None; userId := None |};
  as_IStoredSubspace := {| subspace_roomId := Some roomId |};
  users := None |}.

(** The root room stores the person "p1" twice, under two state keys, and
    one subspace. *)
Definition dbRoomState : list RoomEvent := [
  Demo.stateEvent "m.room.create" "" Demo.bot
    (Demo.creation "X" KConference None None None);
  storedPerson "p1" "p1" (Some Demo.alice);
  storedPerson "p1-moved" "p1" (Some Demo.mallory);
  storedPerson "p2" "p2" None;
  Demo.stateEvent (RS_STORED_SUBSPACE Demo.lib) "devrooms" Demo.bot
    (subspaceContent "!devrooms:x")
].

Definition interestState : list RoomEvent := [
  Demo.stateEvent "m.room.create" "" Demo.bot
    (Demo.creation "X" KSpecialInterest None None (Some "I1"))
].

Definition rooms : Demo.Rooms :=
  [("!room1:x", Demo.room1); ("!db:x", dbRoomState);
   ("!i1:x", interestState)].

(** Of the configured aliases only "#i2:x" resolves. *)
Definition client : MatrixClient :=
  let joined := Demo.clientOf (Some ["!room1:x"; "!db:x"; "!i1:x"]) rooms in
  {| getUserId := getUserId joined;
     getJoinedRooms := getJoinedRooms joined;
     getRoomStateEvent := getRoomStateEvent joined;
     getRoomState := getRoomState joined;
     resolveRoom := λ alias,
       if bool_decide (alias = "#i2:x") then Some "!i2:x" else None;
     getSpace := getSpace joined;
     sendStateEvent := sendStateEvent joined;
     settlesNext := settlesNext joined |}.

Definition config : Config :=
  {| moderatorUserId := "@admin:example.org";
     existingInterestRooms :=
       [("I1", "#i1-other:x"); ("I2", "#i2:x"); ("I3", "#i3:x")] |}.

(** The homeserver of [Demo.client], refusing every write. *)
Definition readOnly : MatrixClient :=
  {| getUserId := getUserId Demo.client;
     getJoinedRooms := getJoinedRooms Demo.client;
     getRoomStateEvent := getRoomStateEvent Demo.client;
     getRoomState := getRoomState Demo.client;
     resolveRoom := resolveRoom Demo.client;
     getSpace := getSpace Demo.client;
     sendStateEvent := λ _ _ _ _, false;
     settlesNext := settlesNext Demo.client |}.

(** The room "!room1:x" once [ensurePermissionsFor] has written the power
    levels for [targets]. *)
Definition regranted (targets : list ResolvedPersonIdentifier)
  : MatrixClient :=
  Demo.clientOf (Some ["!room1:x"])
    [("!room1:x",
      [Demo.stateEvent "m.room.power_levels" "" Demo.bot
         (set_users
            (mergeUsers Demo.client Demo.config targets
               {[ Demo.alice := 100%Z; Demo.mallory := 0%Z ]})
            emptyContent)])].

Definition env : Surroundings := {|
  MatrixRoom_getSpace := λ _, Some {| space_roomId := "!conference:x" |};
  InterestRoom_getId := ir_id;
  Auditorium_getName := λ _, Some "Main";
  Auditorium_getSpace := λ _, Some {| space_roomId := "!main-space:x" |};
  getSystemName := "pentabarf";
  subspaces_prefixes := [("devrooms", ["D."; "d."]); ("other", [""])];
  powerLevels_undefined := None |}.

Definition settings : Settings := {|
  conference_id := "X";
  conference_name := "Festival";
  prefixes_aliases := "fest-";
  supportRooms_speakers := "#speakers:x";
  supportRooms_specialInterest := "#stands:x";
  supportRooms_coordinators := "#coordinators:x";
  makeLocalpart := λ localpart identifier, localpart;
  makeDisplayName := λ displayName identifier, displayName;
  RoomAlias_localpart := λ alias, alias;
  toISOString := λ _, Some "2021-02-06T10:00:00.000Z" |}.

(** The catalog of [Demo.built] with the subspace of the developer
    rooms. *)
Definition catalog : Conference :=
  set_subspaces {[ "devrooms" := {| space_roomId := "!devrooms:x" |} ]}
    Demo.built.

Definition devroom : IAuditorium :=
  {| auditorium_id := "D.rust"; auditorium_name := "Rust" |}.

(** A homeserver that makes every space and room and accepts every
    request. *)
Definition server : Server := {|
  createdSpace := λ _, Some {| space_roomId := "!rust-space:x" |};
  createdRoom := λ asked,
    match last asked with
    | Some (SafeCreateRoom AUDITORIUM_BACKSTAGE_CREATION_TEMPLATE _) =>
        Some "!rust-backstage:x"
    | _ => Some "!rust:x"
    end;
  accepted := λ _, true |}.

(** One that makes no backstage room. *)
Definition noBackstage : Server := {|
  createdSpace := createdSpace server;
  createdRoom := λ asked,
    match last asked with
    | Some (SafeCreateRoom AUDITORIUM_BACKSTAGE_CREATION_TEMPLATE _) => None
    | _ => Some "!rust:x"
    end;
  accepted := accepted server |}.

(** One that refuses to assign aliases. *)
Definition noAliases : Server := {|
  createdSpace := createdSpace server;
  createdRoom := createdRoom server;
  accepted := λ asked,
    match last asked with
    | Some (AssignAliasVariations _ _ _) => false
    | _ => true
    end |}.
End Festival.

(** * Properties *)

(** ** The monad *)

Lemma bind_ok {S A B} (m : M S A) (k : A → M S B) s a s' :
  m s = (Some a, s') → bind m k s = k a s'.
Proof. intros H. unfold bind. by rewrite H. Qed.

Lemma bind_throw {S A B} (m : M S A) (k : A → M S B) s s' :
  m s = (None, s') → bind m k s = (None, s').
Proof. intros H. unfold bind. by rewrite H. Qed.

Lemma preserves_ret {S A T} (f : S → T) (a : A) : preserves f (ret a).
Proof. done. Qed.

Lemma preserves_await {S A T} (f : S → T) (r : option A) :
  preserves f (await r).
Proof. done. Qed.

Lemma preserves_get {S T} (f : S → T) : preserves f get.
Proof. done. Qed.

Lemma preserves_modify {S T} (f : S → T) (g : S → S) :
  (∀ s, f (g s) = f s) → preserves f (modify g).
Proof. intros H s. apply H. Qed.

Lemma preserves_bind {S A B T} (f : S → T) (m : M S A) (k : A → M S B) :
  preserves f m → (∀ a, preserves f (k a)) → preserves f (bind m k).
Proof.
  intros Hm Hk s. unfold bind. specialize (Hm s).
  destruct (m s) as [[a|] s1]; simpl in *; [|done].
  by rewrite Hk.
Qed.

Lemma preserves_forOf {S A T} (f : S → T) (l : list A)
    (body : A → M S unit) :
  (∀ x, preserves f (body x)) → preserves f (forOf l body).
Proof.
  intros H. induction l as [|x l IH]; simpl.
  - apply preserves_ret.
  - apply preserves_bind; auto.
Qed.

Lemma invariant_ret {S A} (P : S → Prop) (a : A) : invariant P (ret a).
Proof. by intros s. Qed.

Lemma invariant_await {S A} (P : S → Prop) (r : option A) :
  invariant P (await r).
Proof. by intros s. Qed.

Lemma invariant_modify {S} (P : S → Prop) (g : S → S) :
  (∀ s, P s → P (g s)) → invariant P (modify g).
Proof. intros H s. apply H. Qed.

Lemma invariant_bind {S A B} (P : S → Prop) (m : M S A) (k : A → M S B) :
  invariant P m → (∀ a, invariant P (k a)) → invariant P (bind m k).
Proof.
  intros Hm Hk s Hs. unfold bind. specialize (Hm s Hs).
  destruct (m s) as [[a|] s1]; simpl in *; [|done].
  by apply Hk.
Qed.

Lemma invariant_forOf {S A} (P : S → Prop) (l : list A)
    (body : A → M S unit) :
  (∀ x, invariant P (body x)) → invariant P (forOf l body).
Proof.
  intros H. induction l as [|x l IH]; simpl.
  - apply invariant_ret.
  - apply invariant_bind; auto.
Qed.

(** Steps through a body made of reads, [get] and [ret]. *)
Ltac preserves_reads :=
  repeat first
    [ apply preserves_ret | apply preserves_await | apply preserves_get
    | apply preserves_bind; [|intros ?]
    | match goal with
      | |- preserves _ (let (_, _) := ?p in _) => destruct p
      end ].

(** A left fold does not depend on the order of the list when its steps
    commute on the states at hand. *)
Lemma foldl_permutation {A B} (f : A → B → A) (I : A → Prop)
    (l1 l2 : list B) :
  l1 ≡ₚ l2 →
  (∀ a x, I a → I (f a x)) →
  (∀ a x y, I a → x ∈ l1 → y ∈ l1 → f (f a x) y = f (f a y) x) →
  ∀ a, I a → foldl f a l1 = foldl f a l2.
Proof.
  intros Hperm Hstep.
  induction Hperm as [|x l l' Hperm IH|x y l|l l' l'' H1 IH1 H2 IH2];
    intros Hcomm a Ha; simpl.
  - done.
  - apply IH; [|by apply Hstep].
    intros b u v Hb Hu Hv. apply Hcomm; [done|by right|by right].
  - f_equal. apply Hcomm; [done| |].
    + apply elem_of_cons. by left.
    + apply elem_of_cons. right. apply elem_of_cons. by left.
  - rewrite IH1 by done. apply IH2; [|done].
    intros b u v Hb Hu Hv. apply Hcomm; [done| |]; by rewrite H1.
Qed.

Lemma take_add {A} (l : list A) n m :
  take (n + m) l = take n l ++ take m (drop n l).
Proof.
  revert l. induction n as [|n IH]; intros [|x l]; simpl; try done.
  - by rewrite take_nil.
  - by rewrite IH.
Qed.

Lemma slice_split {A} (l : list A) a b c :
  a ≤ b → b ≤ c → slice l a c = slice l a b ++ slice l b c.
Proof.
  intros Hab Hbc. unfold slice.
  replace (c - a) with ((b - a) + (c - b)) by lia.
  rewrite take_add, drop_drop. do 3 f_equal. lia.
Qed.

Lemma slice_from_0 {A} (l : list A) n : slice l 0 n = take n l.
Proof. unfold slice. by rewrite Nat.sub_0_r. Qed.

Lemma slice_cons {A} (l : list A) k x n :
  l !! k = Some x → k < n → ∃ l', slice l k n = x :: l'.
Proof.
  intros Hk Hn. unfold slice. rewrite (drop_S _ _ _ Hk).
  destruct (n - k) as [|d] eqn:E; [lia|]. simpl. eauto.
Qed.

(** ** Rebuild *)

Section Rebuild.
Context (client : MatrixClient) (config : Config) (lib : Imports).

Lemma classifyRoom_result roomId this :
  classifyRoom client roomId this
  = (if readable client roomId then Some () else None,
     classified client this roomId).
Proof.
  unfold classified, readable, classifyRoom, bind, await.
  destruct (getRoomStateEvent client roomId "m.room.create" (Some ""))
    as [createEvent|]; simpl; [|reflexivity].
  repeat case_match; reflexivity.
Qed.

Lemma Promise_all_classify batch this :
  Promise_all (map (classifyRoom client) batch) this
  = (if forallb (readable client) batch then Some () else None,
     foldl (classified client) this (untilRejected client batch)).
Proof.
  revert this. induction batch as [|r batch IH]; intros this; simpl.
  - reflexivity.
  - rewrite classifyRoom_result.
    destruct (readable client r) eqn:Hr; simpl; [apply IH|].
    f_equal. unfold classified, classifyRoom, bind, await.
    unfold readable in Hr.
    destruct (getRoomStateEvent client r "m.room.create" (Some ""));
      [|done].
    by rewrite bool_decide_eq_true_2 in Hr by eauto.
Qed.

Lemma untilRejected_readable rooms :
  forallb (readable client) rooms = true →
  untilRejected client rooms = rooms.
Proof.
  induction rooms as [|r rooms IH]; simpl; [done|].
  intros [-> Hall]%andb_prop. by rewrite IH.
Qed.

Lemma untilRejected_app before rest :
  forallb (readable client) before = true →
  untilRejected client (before ++ rest)
  = before ++ untilRejected client rest.
Proof.
  induction before as [|r before IH]; simpl; [done|].
  intros [-> Hall]%andb_prop. by rewrite IH.
Qed.

Lemma untilRejected_stops before rest :
  forallb (readable client) before = false →
  untilRejected client (before ++ rest) = untilRejected client before.
Proof.
  induction before as [|r before IH]; simpl; [done|].
  destruct (readable client r); simpl; [|done].
  intros Hall. by rewrite IH.
Qed.

Lemma untilRejected_first before r after :
  forallb (readable client) before = true → readable client r = false →
  untilRejected client (before ++ r :: after) = before.
Proof.
  intros Hall Hr. rewrite untilRejected_app by done. simpl.
  by rewrite Hr, app_nil_r.
Qed.

Lemma settleOrder_Permutation {A} (next : list A → nat) n (l : list A) :
  length l = n → settleOrder next n l ≡ₚ l.
Proof.
  revert l. induction n as [|n IH]; intros l Hlen; simpl.
  - by destruct l.
  - assert (next l `mod` length l < length l) as Hlt
      by (apply Nat.mod_upper_bound; lia).
    destruct (lookup_lt_is_Some_2 l _ Hlt) as [x Hx]. rewrite Hx.
    etrans; [|symmetry; apply (delete_Permutation _ _ _ Hx)].
    apply perm_skip, IH. rewrite length_delete by eauto. lia.
Qed.

(** The reads of a batch settle in some order: every room of the batch,
    once. *)
Lemma settled_Permutation batch : settled client batch ≡ₚ batch.
Proof. by apply settleOrder_Permutation. Qed.

Lemma forallb_Permutation {A} (p : A → bool) (l1 l2 : list A) :
  l1 ≡ₚ l2 → forallb p l1 = forallb p l2.
Proof.
  induction 1; simpl; [done|by f_equal| |congruence].
  by rewrite !andb_assoc, (andb_comm (p y)).
Qed.

(** The loop, from [i] on: it returns when every creation record is read,
    and throws at the first read that is rejected, with the rooms whose
    reads settled before classified. *)
Lemma batchLoop_run fuel i roomIds this :
  batchLoop client fuel i roomIds this
  = (if forallb (readable client) (settledFrom client fuel i roomIds)
     then Some () else None,
     foldl (classified client) this
       (untilRejected client (settledFrom client fuel i roomIds))).
Proof.
  revert i this. induction fuel as [|fuel IH]; intros i this; simpl.
  - reflexivity.
  - case_bool_decide; [|reflexivity].
    unfold bind. rewrite Promise_all_classify.
    rewrite forallb_app.
    destruct (forallb (readable client)
                (settled client (slice roomIds i (i + batchSize))))
      eqn:Hbatch; simpl.
    + rewrite untilRejected_readable by done.
      rewrite IH, untilRejected_app by done. by rewrite foldl_app.
    + by rewrite untilRejected_stops.
Qed.

Lemma settledFrom_done fuel i roomIds :
  length roomIds ≤ i → settledFrom client fuel i roomIds = [].
Proof.
  intros Hi. destruct fuel; simpl; [done|].
  by rewrite bool_decide_eq_false_2 by lia.
Qed.

(** The loop never stops for want of fuel: with [length roomIds] turns
    or more it gives the same result. *)
Lemma settledFrom_fuel fuel fuel' i roomIds :
  length roomIds - i ≤ fuel → length roomIds - i ≤ fuel' →
  settledFrom client fuel i roomIds = settledFrom client fuel' i roomIds.
Proof.
  revert fuel' i.
  induction fuel as [|fuel IH]; intros fuel' i H1 H2.
  - rewrite !settledFrom_done by lia. done.
  - destruct fuel' as [|fuel'].
    { rewrite !settledFrom_done by lia. done. }
    simpl. case_bool_decide; [|done]. f_equal.
    apply IH; unfold batchSize; lia.
Qed.

Lemma batchLoop_fuel fuel fuel' i roomIds this :
  length roomIds - i ≤ fuel → length roomIds - i ≤ fuel' →
  batchLoop client fuel i roomIds this = batchLoop client fuel' i roomIds this.
Proof.
  intros H1 H2. rewrite !batchLoop_run.
  by rewrite (settledFrom_fuel fuel fuel').
Qed.

(** Every joined room from [i] on is read, batch after batch. *)
Lemma settledFrom_Permutation fuel i roomIds :
  length roomIds - i ≤ fuel →
  settledFrom client fuel i roomIds ≡ₚ drop i roomIds.
Proof.
  revert i. induction fuel as [|fuel IH]; intros i Hfuel.
  - rewrite settledFrom_done by lia. by rewrite drop_ge by lia.
  - simpl. case_bool_decide as Hi.
    + rewrite settled_Permutation, IH by (unfold batchSize; lia).
      unfold slice. replace (i + batchSize - i) with batchSize by lia.
      by rewrite <- (drop_drop roomIds batchSize i), take_drop.
    + by rewrite drop_ge by lia.
Qed.

Lemma settledRooms_Permutation roomIds :
  settledRooms client roomIds ≡ₚ roomIds.
Proof. apply (settledFrom_Permutation _ 0). lia. Qed.

Lemma slice_from a b c (l : list string) x :
  a ≤ b → b ≤ c → x ∈ slice l b c → x ∈ slice l a c.
Proof.
  intros Hab Hbc Hx. rewrite (slice_split l a b c) by done.
  apply elem_of_app. by right.
Qed.

Lemma slice_upto a b c (l : list string) x :
  a ≤ b → b ≤ c → x ∈ slice l a b → x ∈ slice l a c.
Proof.
  intros Hab Hbc Hx. rewrite (slice_split l a b c) by done.
  apply elem_of_app. by left.
Qed.

(** The first [k + 1] reads to settle are reads of rooms of the batches up
    to the one that the room at index [k] belongs to. *)
Lemma settledFrom_take fuel i k roomIds x :
  x ∈ take (S k) (settledFrom client fuel i roomIds) →
  x ∈ slice roomIds i (i + (k / batchSize + 1) * batchSize).
Proof.
  revert i k. induction fuel as [|fuel IH]; intros i k; simpl.
  { by intros ?%elem_of_nil. }
  case_bool_decide as Hi; [|by intros ?%elem_of_nil].
  pose proof (settled_Permutation (slice roomIds i (i + batchSize)))
    as Hperm.
  assert (length (settled client (slice roomIds i (i + batchSize)))
          = length (slice roomIds i (i + batchSize))) as Hlen
    by (by rewrite Hperm).
  rewrite take_app, elem_of_app. intros [Hx|Hx].
  - apply elem_of_take in Hx as (j & Hx & _).
    apply list_elem_of_lookup_2 in Hx. rewrite Hperm in Hx.
    apply (slice_upto i (i + batchSize)); [lia| |done].
    unfold batchSize. nia.
  - destruct (decide (length (slice roomIds i (i + batchSize)) = batchSize))
      as [Hfull|Hshort].
    + rewrite Hlen, Hfull in Hx.
      destruct (decide (k < batchSize)) as [Hk|Hk].
      { replace (S k - batchSize) with 0 in Hx by (unfold batchSize in *; lia).
        by apply elem_of_nil in Hx. }
      replace (S k - batchSize) with (S (k - batchSize)) in Hx
        by (unfold batchSize in *; lia).
      apply IH in Hx.
      replace (i + batchSize + ((k - batchSize) / batchSize + 1) * batchSize)
        with (i + (k / batchSize + 1) * batchSize) in Hx.
      * apply (slice_from i (i + batchSize)); [lia| |done].
        unfold batchSize. nia.
      * replace k with ((k - batchSize) + 1 * batchSize) at 1
          by (unfold batchSize in *; lia).
        rewrite Nat.div_add by done. unfold batchSize. lia.
    + rewrite settledFrom_done in Hx.
      { rewrite take_nil in Hx. by apply elem_of_nil in Hx. }
      unfold slice in Hshort. rewrite length_take, length_drop in Hshort.
      unfold batchSize in *. lia.
Qed.

Lemma classifyRoom_id roomId : preserves id (classifyRoom client roomId).
Proof.
  intros this. unfold classifyRoom, bind, await.
  destruct (getRoomStateEvent client roomId "m.room.create" (Some ""));
    [|done].
  repeat case_match; reflexivity.
Qed.

Lemma Promise_all_preserves {S T} (f : S → T) (tasks : list (M S unit)) :
  Forall (preserves f) tasks → preserves f (Promise_all tasks).
Proof.
  induction 1 as [|t ts Ht _ IH]; intros s; simpl; [done|].
  specialize (Ht s). destruct (t s) as [[[]|] s1]; simpl in *; [|done].
  rewrite IH. done.
Qed.

Lemma batchLoop_id fuel i roomIds :
  preserves id (batchLoop client fuel i roomIds).
Proof.
  revert i. induction fuel as [|fuel IH]; intros i; simpl.
  - apply preserves_ret.
  - case_bool_decide; [|apply preserves_ret].
    apply preserves_bind; [|auto].
    apply Promise_all_preserves, Forall_forall.
    intros t [r [-> _]]%list_elem_of_fmap.
    apply classifyRoom_id.
Qed.

Lemma resolveExisting_id entry : preserves id (resolveExisting client entry).
Proof.
  destruct entry as [interestId roomIdOrAlias]. intros this.
  unfold resolveExisting. repeat case_match; reflexivity.
Qed.

Lemma construct_id : preserves id (construct client config lib).
Proof.
  unfold construct.
  apply preserves_bind; [by apply preserves_modify|intros _].
  apply preserves_bind; [apply preserves_await|intros roomIds].
  apply preserves_bind; [apply batchLoop_id|intros _].
  apply preserves_bind;
    [apply preserves_forOf, resolveExisting_id|intros _].
  apply preserves_bind; [apply preserves_get|intros this].
  destruct (dbRoom this); [|apply preserves_ret].
  apply preserves_bind; [apply preserves_await|intros roomState].
  apply preserves_bind.
  - apply preserves_forOf. intros person. by apply preserves_modify.
  - intros _. apply preserves_forOf. intros e.
    apply preserves_bind; [apply preserves_await|intros space].
    by apply preserves_modify.
Qed.

(** What a rebuild leaves depends on the conference identifier, not on
    what the catalog held. *)
Lemma construct_prior prior this :
  id prior = id this →
  construct client config lib prior = construct client config lib this.
Proof.
  intros H. unfold construct, bind at 1 3, modify. simpl.
  unfold reset. by rewrite H.
Qed.

Lemma construct_unfold this :
  construct client config lib this
  = match getJoinedRooms client with
    | None => (None, reset this)
    | Some roomIds =>
        bind (batchLoop client (length roomIds) 0 roomIds)
          (λ _,
            let* _ :=
              forOf (existingInterestRooms config)
                (resolveExisting client) in
            let* this := get in
            match dbRoom this with
            | None => ret ()
            | Some dbRoom =>
                let* roomState :=
                  await (getRoomState client (mr_roomId dbRoom)) in
                let dbState := List.filter hasContent roomState in
                let persons :=
                  map (λ s, as_IStoredPerson (contentOf s))
                    (List.filter
                       (λ s, bool_decide (type s = RS_STORED_PERSON lib))
                       dbState) in
                let* _ :=
                  forOf persons (λ person,
                    modify (λ this,
                      set_people
                        (<[propertyKey (pentaId person) := person]>
                           (people this)) this)) in
                let subspaceEvents :=
                  List.filter
                    (λ event,
                       bool_decide (type event = RS_STORED_SUBSPACE lib))
                    dbState in
                forOf subspaceEvents (λ subspaceEvent,
                  let roomId :=
                    subspace_roomId
                      (as_IStoredSubspace (contentOf subspaceEvent)) in
                  let* space := await (getSpace client roomId) in
                  modify (λ this,
                    set_subspaces (<[state_key subspaceEvent := space]>
                                     (subspaces this)) this))
            end) (reset this)
    end.
Proof.
  unfold construct, bind at 1 2, modify, await. simpl.
  destruct (getJoinedRooms client); reflexivity.
Qed.

Lemma classifyRoom_mismatch roomId createEvent this :
  getRoomStateEvent client roomId "m.room.create" (Some "")
    = Some createEvent →
  RSC_CONFERENCE_ID createEvent ≠ Some (id this) →
  classifyRoom client roomId this = (Some (), this).
Proof.
  intros Hread Hconf. unfold classifyRoom, bind, await. rewrite Hread.
  by rewrite bool_decide_eq_false_2.
Qed.

(** The catalog after a task, as a function of the record read. *)
Lemma classified_eq this roomId :
  classified client this roomId
  = match getRoomStateEvent client roomId "m.room.create" (Some "") with
    | None => this
    | Some createEvent =>
        if bool_decide (RSC_CONFERENCE_ID createEvent = Some (id this)) then
          match RSC_ROOM_KIND_FLAG createEvent with
          | Some KConference =>
              set_dbRoom (Some {| mr_roomId := roomId |}) this
          | Some KAuditorium =>
              set_auditoriums
                (<[propertyKey (RSC_AUDITORIUM_ID createEvent) :=
                     {| aud_roomId := roomId |}]> (auditoriums this)) this
          | Some KAuditoriumBackstage =>
              set_auditoriumBackstages
                (<[propertyKey (RSC_AUDITORIUM_ID createEvent) :=
                     {| bs_roomId := roomId |}]> (auditoriumBackstages this))
                this
          | Some KTalk =>
              set_talks
                (<[propertyKey (RSC_TALK_ID createEvent) :=
                     {| talk_roomId := roomId |}]> (talks this)) this
          | Some KSpecialInterest =>
              set_interestRooms
                (<[propertyKey (RSC_SPECIAL_INTEREST_ID createEvent) :=
                     {| ir_roomId := roomId;
                        ir_id := RSC_SPECIAL_INTEREST_ID createEvent |}]>
                   (interestRooms this)) this
          | None => this
          end
        else this
    end.
Proof.
  unfold classified, classifyRoom, bind, await.
  destruct (getRoomStateEvent client roomId "m.room.create" (Some ""));
    [|done].
  repeat case_match; reflexivity.
Qed.

Lemma classified_id this roomId : id (classified client this roomId) = id this.
Proof. apply classifyRoom_id. Qed.

(** The tasks of two rooms that do not claim the same slot commute. *)
Lemma classified_commute this r1 r2 :
  slotOf client (id this) r1 = None
  ∨ slotOf client (id this) r1 ≠ slotOf client (id this) r2 →
  classified client (classified client this r1) r2
  = classified client (classified client this r2) r1.
Proof.
  rewrite (classified_eq (classified client this r1) r2).
  rewrite (classified_eq (classified client this r2) r1).
  rewrite !classified_id, !classified_eq. unfold slotOf.
  destruct (getRoomStateEvent client r1 "m.room.create" (Some ""))
    as [e1|]; [|done].
  destruct (getRoomStateEvent client r2 "m.room.create" (Some ""))
    as [e2|]; [|done].
  destruct (bool_decide (RSC_CONFERENCE_ID e1 = Some (id this))); [|done].
  destruct (bool_decide (RSC_CONFERENCE_ID e2 = Some (id this))); [|done].
  destruct (RSC_ROOM_KIND_FLAG e1) as [[]|],
           (RSC_ROOM_KIND_FLAG e2) as [[]|];
    intros [Hnone|Hne]; try done;
    unfold set_auditoriums, set_auditoriumBackstages, set_talks,
      set_interestRooms; simpl; f_equal;
    apply insert_insert_ne; congruence.
Qed.

(** The task of a room leaves the room in the slot it claims. *)
Lemma classified_holds this roomId slot :
  slotOf client (id this) roomId = Some slot →
  holds (classified client this roomId) slot roomId.
Proof.
  rewrite classified_eq. unfold slotOf.
  destruct (getRoomStateEvent client roomId "m.room.create" (Some ""))
    as [createEvent|]; [|done].
  destruct (bool_decide (RSC_CONFERENCE_ID createEvent = Some (id this)));
    [|done].
  destruct (RSC_ROOM_KIND_FLAG createEvent) as [[]|]; intros [= <-]; simpl;
    rewrite ?lookup_insert_eq; eauto.
Qed.

(** The task of a room that claims another slot, or none, leaves the slot
    as it is. *)
Lemma classified_keeps this other slot roomId :
  slotOf client (id this) other ≠ Some slot →
  holds this slot roomId → holds (classified client this other) slot roomId.
Proof.
  rewrite classified_eq. unfold slotOf.
  destruct (getRoomStateEvent client other "m.room.create" (Some ""))
    as [createEvent|]; [|done].
  destruct (bool_decide (RSC_CONFERENCE_ID createEvent = Some (id this)));
    [|done].
  destruct (RSC_ROOM_KIND_FLAG createEvent) as [[]|], slot; simpl;
    intros Hne Hholds; try done;
    rewrite lookup_insert_ne; congruence.
Qed.

(** After the tasks of a list of rooms, a room of the list is in the slot it
    claims when no other room of the list claims that slot. *)
Lemma foldl_classified_holds rooms this roomId slot :
  roomId ∈ rooms →
  slotOf client (id this) roomId = Some slot →
  (∀ other, other ∈ rooms → other ≠ roomId →
     slotOf client (id this) other ≠ Some slot) →
  holds (foldl (classified client) this rooms) slot roomId.
Proof.
  intros Hin Hslot Hothers.
  assert (∀ l c, id c = id this → (∀ x, x ∈ l → x ∈ rooms) →
            holds c slot roomId →
            holds (foldl (classified client) c l) slot roomId) as Hkeep.
  { induction l as [|x l IH]; intros c Hc Hl Hholds; simpl; [done|].
    apply IH; [by rewrite classified_id| |].
    - intros y Hy. apply Hl. by right.
    - destruct (decide (x = roomId)) as [->|Hx].
      + apply classified_holds. by rewrite Hc.
      + apply classified_keeps; [|done]. rewrite Hc.
        apply Hothers; [|done]. apply Hl. by left. }
  assert (∀ l c, id c = id this → (∀ x, x ∈ l → x ∈ rooms) → roomId ∈ l →
            holds (foldl (classified client) c l) slot roomId) as Hfind.
  { induction l as [|x l IH]; intros c Hc Hl Hr; simpl.
    { by apply elem_of_nil in Hr. }
    destruct (decide (x = roomId)) as [->|Hx].
    - apply Hkeep; [by rewrite classified_id| |].
      + intros y Hy. apply Hl. by right.
      + apply classified_holds. by rewrite Hc.
    - apply elem_of_cons in Hr as [->|Hr]; [done|].
      apply IH; [by rewrite classified_id| |done].
      intros y Hy. apply Hl. by right. }
  by apply Hfind.
Qed.

Lemma resolveExisting_holds slot roomId entry :
  invariant (λ c, holds c slot roomId) (resolveExisting client entry).
Proof.
  destruct entry as [interestId roomIdOrAlias]. intros this Hholds.
  unfold resolveExisting, hasProperty, getProperty.
  destruct (interestRooms this !! interestId) eqn:Hknown; [done|].
  destruct (inherited interestId); [done|].
  destruct (resolveRoom client roomIdOrAlias); [|done].
  destruct slot; simpl in *; try done.
  destruct Hholds as [i Hi]. exists i.
  rewrite lookup_insert_ne; [done|]. intros ->. congruence.
Qed.

(** A completed batch loop over rooms that claim different slots leaves
    every room in the slot it claims, and the rest of [construct] leaves it
    there. *)
Lemma construct_holds this roomIds roomId slot :
  getJoinedRooms client = Some roomIds →
  forallb (readable client) roomIds = true →
  distinctClaims client (id this) roomIds →
  roomId ∈ roomIds →
  slotOf client (id this) roomId = Some slot →
  holds (construct client config lib this).2 slot roomId.
Proof.
  intros Hjoined Hall Hclaims Hin Hslot.
  rewrite construct_unfold, Hjoined.
  pose proof (settledRooms_Permutation roomIds) as Hperm.
  erewrite bind_ok.
  2: { rewrite batchLoop_run. fold (settledRooms client roomIds).
       rewrite (forallb_Permutation _ _ _ Hperm), Hall.
       rewrite untilRejected_readable;
         [done|by rewrite (forallb_Permutation _ _ _ Hperm)]. }
  cbv beta.
  assert (holds (foldl (classified client) (reset this)
                   (settledRooms client roomIds)) slot roomId)
    as Hloop.
  { apply foldl_classified_holds; [by rewrite Hperm|done|].
    intros other Hother Hne Hsame. rewrite Hperm in Hother.
    destruct (Hclaims other roomId Hother Hin Hne) as [Hnone|Hdiff].
    - simpl in Hsame. congruence.
    - simpl in Hsame, Hslot. congruence. }
  revert Hloop.
  generalize (foldl (classified client) (reset this)
                (settledRooms client roomIds)).
  apply (invariant_bind (λ c, holds c slot roomId)).
  { apply invariant_forOf. intros entry. apply resolveExisting_holds. }
  intros _. apply invariant_bind; [by intros c|]. intros that.
  destruct (dbRoom that); [|apply invariant_ret].
  apply invariant_bind; [apply invariant_await|]. intros roomState.
  apply invariant_bind.
  - apply invariant_forOf. intros person. apply invariant_modify.
    intros c. by destruct slot.
  - intros _. apply invariant_forOf. intros e.
    apply invariant_bind; [apply invariant_await|]. intros space.
    apply invariant_modify. intros c. by destruct slot.
Qed.

Lemma classifyRoom_claimed confId roomId :
  invariant (claimed client confId) (classifyRoom client roomId).
Proof.
  intros this [Hid Hclaimed].
  change (claimed client confId (classified client this roomId)).
  split; [by rewrite classified_id|]. subst confId.
  intros slot r Hslot. rewrite classified_eq.
  destruct (getRoomStateEvent client roomId "m.room.create" (Some ""))
    as [createEvent|] eqn:Hread; [|by apply Hclaimed].
  destruct (bool_decide (RSC_CONFERENCE_ID createEvent = Some (id this)))
    eqn:Hconf; [|by apply Hclaimed].
  destruct (RSC_ROOM_KIND_FLAG createEvent) as [[]|] eqn:Hkind;
    [| | | | |by apply Hclaimed];
    destruct slot as [|key|key|key|key]; try done;
    try (by apply (Hclaimed RootSlot));
    try (by apply (Hclaimed (AuditoriumSlot key)));
    try (by apply (Hclaimed (BackstageSlot key)));
    try (by apply (Hclaimed (TalkSlot key)));
    simpl; intros Hholds.
  - injection Hholds as <-. unfold slotOf. by rewrite Hread, Hconf, Hkind.
  - destruct (decide (propertyKey (RSC_AUDITORIUM_ID createEvent) = key))
      as [<-|Hne].
    + rewrite lookup_insert_eq in Hholds. injection Hholds as <-.
      unfold slotOf. by rewrite Hread, Hconf, Hkind.
    + rewrite lookup_insert_ne in Hholds by done.
      by apply (Hclaimed (AuditoriumSlot key)).
  - destruct (decide (propertyKey (RSC_AUDITORIUM_ID createEvent) = key))
      as [<-|Hne].
    + rewrite lookup_insert_eq in Hholds. injection Hholds as <-.
      unfold slotOf. by rewrite Hread, Hconf, Hkind.
    + rewrite lookup_insert_ne in Hholds by done.
      by apply (Hclaimed (BackstageSlot key)).
  - destruct (decide (propertyKey (RSC_TALK_ID createEvent) = key))
      as [<-|Hne].
    + rewrite lookup_insert_eq in Hholds. injection Hholds as <-.
      unfold slotOf. by rewrite Hread, Hconf, Hkind.
    + rewrite lookup_insert_ne in Hholds by done.
      by apply (Hclaimed (TalkSlot key)).
Qed.

Lemma Promise_all_invariant {S} (P : S → Prop) (tasks : list (M S unit)) :
  Forall (invariant P) tasks → invariant P (Promise_all tasks).
Proof.
  induction 1 as [|t ts Ht _ IH]; intros s Hs; simpl; [done|].
  specialize (Ht s Hs). destruct (t s) as [[[]|] s1]; simpl in *; [|done].
  by apply IH.
Qed.

Lemma batchLoop_claimed confId fuel i roomIds :
  invariant (claimed client confId) (batchLoop client fuel i roomIds).
Proof.
  revert i. induction fuel as [|fuel IH]; intros i; simpl.
  - apply invariant_ret.
  - case_bool_decide; [|apply invariant_ret].
    apply invariant_bind; [|auto].
    apply Promise_all_invariant, Forall_forall.
    intros t [r [-> _]]%list_elem_of_fmap. apply classifyRoom_claimed.
Qed.

(** Whether it completes or not, [construct] leaves in the root slot and in
    the auditorium, backstage and talk maps only rooms whose creation
    record, read for this conference, claims the slot. *)
Lemma construct_claimed this :
  claimed client (id this) (construct client config lib this).2.
Proof.
  assert (claimed client (id this) (reset this)) as Hreset.
  { split; [done|]. intros [] r; simpl; by rewrite ?lookup_empty. }
  rewrite construct_unfold.
  destruct (getJoinedRooms client) as [roomIds|]; [|done].
  revert Hreset. generalize (reset this).
  apply (invariant_bind (claimed client (id this)));
    [apply batchLoop_claimed|intros _].
  apply invariant_bind.
  { apply invariant_forOf. intros [interestId roomIdOrAlias] c [Hid Hc].
    unfold resolveExisting. repeat case_match; try done.
    split; [done|]. intros slot r Hslot Hholds.
    apply (Hc slot r Hslot). by destruct slot. }
  intros _. apply invariant_bind; [by intros c|]. intros that.
  destruct (dbRoom that); [|apply invariant_ret].
  apply invariant_bind; [apply invariant_await|]. intros roomState.
  apply invariant_bind.
  - apply invariant_forOf. intros person. apply invariant_modify.
    intros c [Hid Hc]. split; [done|]. intros slot r Hslot Hholds.
    apply (Hc slot r Hslot). by destruct slot.
  - intros _. apply invariant_forOf. intros e.
    apply invariant_bind; [apply invariant_await|]. intros space.
    apply invariant_modify. intros c [Hid Hc]. split; [done|].
    intros slot r Hslot Hholds. apply (Hc slot r Hslot). by destruct slot.
Qed.

(** The reads may settle in any order: when no two rooms claim the same
    slot, the order does not show in the catalog. *)
Lemma foldl_classified_order rooms order this :
  order ≡ₚ rooms → distinctClaims client (id this) rooms →
  foldl (classified client) this order = foldl (classified client) this rooms.
Proof.
  intros Hperm Hclaims.
  apply (foldl_permutation _ (λ c, id c = id this)); [done| | |done].
  - intros c r Hc. by rewrite <- Hc, <- (classifyRoom_id r c).
  - intros c x y Hc Hx Hy. rewrite Hperm in Hx, Hy.
    destruct (decide (x = y)) as [->|Hxy]; [done|].
    apply classified_commute. rewrite Hc. by apply Hclaims.
Qed.

(** C7.  The task that [construct] starts for a room whose creation record
    is read, with conference-ID tag, kind tag and logical ID as given:
    when the tag is this conference's, the room is put under the logical
    ID in the map of its kind (the root room for the kind Conference),
    and the rest of the catalog is as it was; when the tag differs, the
    catalog is as it was.  For the rebuild as a whole: the room is found in
    the root slot or in the auditorium, backstage or talk map only with
    this conference's tag and in the slot its record names; and when every
    record is read and no other joined room claims the same slot, the room
    is in the slot its record names.  (Interest rooms named by the
    configuration are added after the classification, by alias.) *)
Theorem classifier_correct roomId createEvent this :
  getRoomStateEvent client roomId "m.room.create" (Some "")
    = Some createEvent →
  (RSC_CONFERENCE_ID createEvent = Some (id this) →
     (RSC_ROOM_KIND_FLAG createEvent = Some KConference →
        classifyRoom client roomId this
        = (Some (), set_dbRoom (Some {| mr_roomId := roomId |}) this))
     ∧ (∀ Y, RSC_ROOM_KIND_FLAG createEvent = Some KAuditorium →
          RSC_AUDITORIUM_ID createEvent = Some Y →
          classifyRoom client roomId this
          = (Some (),
             set_auditoriums
               (<[Y := {| aud_roomId := roomId |}]> (auditoriums this))
               this))
     ∧ (∀ Y, RSC_ROOM_KIND_FLAG createEvent = Some KAuditoriumBackstage →
          RSC_AUDITORIUM_ID createEvent = Some Y →
          classifyRoom client roomId this
          = (Some (),
             set_auditoriumBackstages
               (<[Y := {| bs_roomId := roomId |}]>
                  (auditoriumBackstages this)) this))
     ∧ (∀ Y, RSC_ROOM_KIND_FLAG createEvent = Some KTalk →
          RSC_TALK_ID createEvent = Some Y →
          classifyRoom client roomId this
          = (Some (),
             set_talks (<[Y := {| talk_roomId := roomId |}]> (talks this))
               this))
     ∧ (∀ Y, RSC_ROOM_KIND_FLAG createEvent = Some KSpecialInterest →
          RSC_SPECIAL_INTEREST_ID createEvent = Some Y →
          classifyRoom client roomId this
          = (Some (),
             set_interestRooms
               (<[Y := {| ir_roomId := roomId; ir_id := Some Y |}]>
                  (interestRooms this)) this)))
  ∧ (RSC_CONFERENCE_ID createEvent ≠ Some (id this) →
       classifyRoom client roomId this = (Some (), this))
  ∧ (∀ slot, classifierSlot slot = true →
       holds (construct client config lib this).2 slot roomId →
       RSC_CONFERENCE_ID createEvent = Some (id this)
       ∧ slotOf client (id this) roomId = Some slot)
  ∧ (∀ roomIds slot,
       getJoinedRooms client = Some roomIds →
       forallb (readable client) roomIds = true →
       distinctClaims client (id this) roomIds →
       roomId ∈ roomIds →
       slotOf client (id this) roomId = Some slot →
       holds (construct client config lib this).2 slot roomId).
Proof.
  intros Hread. split; [|split; [|split]].
  - unfold classifyRoom, bind, await. rewrite Hread.
    intros Hconf. rewrite bool_decide_eq_true_2 by done.
    repeat split; intros; repeat match goal with
      | H : _ = Some _ |- _ => rewrite H
      end; reflexivity.
  - by apply classifyRoom_mismatch.
  - intros slot Hslot Hholds.
    destruct (construct_claimed this) as [_ Hclaimed].
    specialize (Hclaimed slot roomId Hslot Hholds). split; [|done].
    unfold slotOf in Hclaimed. rewrite Hread in Hclaimed.
    by case_bool_decide.
  - intros roomIds slot. apply construct_holds.
Qed.

(** C4, amended.  A room whose conference-ID tag is not this conference's
    is passed over, and when every creation record can be read every
    joined room is classified, each when its read settles.  A creation
    record that cannot be read is not passed over: [construct] throws as
    soon as the first such read has failed.  The rooms whose reads settled
    before it are classified; they belong to the batches up to that of the
    failure, so that no room of a later batch is read; and the steps after
    the loop are not run. *)
Theorem construct_partial_failure this roomIds :
  getJoinedRooms client = Some roomIds →
  (∀ roomId createEvent that,
      getRoomStateEvent client roomId "m.room.create" (Some "")
        = Some createEvent →
      RSC_CONFERENCE_ID createEvent ≠ Some (id that) →
      classifyRoom client roomId that = (Some (), that))
  ∧ settledRooms client roomIds ≡ₚ roomIds
  ∧ (forallb (readable client) roomIds = true →
       batchLoop client (length roomIds) 0 roomIds (reset this)
       = (Some (),
          foldl (classified client) (reset this)
            (settledRooms client roomIds)))
  ∧ (∀ before r after,
       settledRooms client roomIds = before ++ r :: after →
       readable client r = false →
       forallb (readable client) before = true →
       construct client config lib this
       = (None, foldl (classified client) (reset this) before)
       ∧ ∀ x, x ∈ before →
           x ∈ take ((length before / batchSize + 1) * batchSize) roomIds).
Proof.
  intros Hjoined.
  pose proof (settledRooms_Permutation roomIds) as Hperm.
  split; [|split; [|split]].
  - intros roomId createEvent that. apply classifyRoom_mismatch.
  - done.
  - intros Hall. rewrite batchLoop_run. fold (settledRooms client roomIds).
    rewrite (forallb_Permutation _ _ _ Hperm), Hall.
    rewrite untilRejected_readable;
      [done|by rewrite (forallb_Permutation _ _ _ Hperm)].
  - intros before r after Hsettled Hr Hall. split.
    + rewrite construct_unfold, Hjoined.
      erewrite bind_throw; [reflexivity|].
      rewrite batchLoop_run. fold (settledRooms client roomIds).
      rewrite Hsettled, untilRejected_first by done.
      rewrite forallb_app. simpl. by rewrite Hr, andb_false_r.
    + intros x Hx. rewrite <- slice_from_0.
      apply (settledFrom_take (length roomIds) 0).
      fold (settledRooms client roomIds). rewrite Hsettled.
      rewrite take_app, elem_of_app. left. by rewrite take_ge by lia.
Qed.

(** C3, amended.  [construct] empties the catalog first: what it leaves,
    completed or not, is what a rebuild from the empty catalog leaves, and
    nothing of the previous contents; when the joined rooms cannot be
    listed it throws and leaves the empty catalog. *)
Theorem construct_discards_prior this :
  (∀ prior, id prior = id this →
     construct client config lib prior = construct client config lib this)
  ∧ construct client config lib this
    = construct client config lib (reset this)
  ∧ (getJoinedRooms client = None →
       construct client config lib this = (None, reset this)).
Proof.
  split; [|split].
  - intros prior. apply construct_prior.
  - by apply construct_prior.
  - intros Hjoined. by rewrite construct_unfold, Hjoined.
Qed.

Lemma forallb_pointwise {A} (p q : A → bool) (l : list A) :
  (∀ x, p x = q x) → forallb p l = forallb q l.
Proof.
  intros Hpq. induction l as [|x l IH]; simpl; [done|]. by rewrite Hpq, IH.
Qed.

Lemma foldl_pointwise {A B} (f g : A → B → A) (l : list B) a :
  (∀ a x, f a x = g a x) → foldl f a l = foldl g a l.
Proof.
  intros Hfg. revert a. induction l as [|x l IH]; intros a; simpl; [done|].
  by rewrite Hfg, IH.
Qed.

Lemma bind_ext {S A B} (m m' : M S A) (k k' : A → M S B) s :
  m s = m' s → (∀ a s, k a s = k' a s) → bind m k s = bind m' k' s.
Proof.
  intros Hm Hk. unfold bind. rewrite Hm.
  by destruct (m' s) as [[a|] s1].
Qed.

Lemma forOf_ext {S A} (l : list A) (body body' : A → M S unit) s :
  (∀ x s, body x s = body' x s) → forOf l body s = forOf l body' s.
Proof.
  intros Hbody. revert s. induction l as [|x l IH]; intros s; simpl; [done|].
  unfold bind. rewrite Hbody. by destruct (body' x s) as [[[]|] s'].
Qed.

End Rebuild.

Section RebuildAgain.
Context (client client' : MatrixClient) (config : Config) (lib : Imports).

(** What a rebuild does depends on the answers of the homeserver and, when
    two rooms claim the same slot, on the order in which they come. *)
Lemma construct_order this :
  sameAnswers client client' →
  (∀ roomIds, getJoinedRooms client = Some roomIds →
     distinctClaims client (id this) roomIds) →
  (construct client' config lib this).1 = (construct client config lib this).1
  ∧ ((construct client config lib this).1 = Some () →
       construct client' config lib this = construct client config lib this).
Proof.
  intros (_ & Hjoined & Hevent & Hstate & Hresolve & Hspace & _) Hclaims.
  assert (∀ roomId c,
            classifyRoom client' roomId c = classifyRoom client roomId c)
    as Hclassify.
  { intros roomId c. unfold classifyRoom, bind, await. by rewrite Hevent. }
  assert (∀ roomId, readable client' roomId = readable client roomId)
    as Hreadable.
  { intros roomId. unfold readable. by rewrite Hevent. }
  assert (∀ c roomId, classified client' c roomId = classified client c roomId)
    as Hclassified.
  { intros c roomId. unfold classified. by rewrite Hclassify. }
  rewrite !construct_unfold, <- Hjoined.
  destruct (getJoinedRooms client) as [roomIds|] eqn:Hrooms; [|done].
  specialize (Hclaims roomIds eq_refl).
  pose proof (settledRooms_Permutation client roomIds) as Hperm.
  pose proof (settledRooms_Permutation client' roomIds) as Hperm'.
  pose proof (batchLoop_run client (length roomIds) 0 roomIds (reset this))
    as Hloop.
  pose proof (batchLoop_run client' (length roomIds) 0 roomIds (reset this))
    as Hloop'.
  fold (settledRooms client roomIds) in Hloop.
  fold (settledRooms client' roomIds) in Hloop'.
  rewrite (forallb_pointwise _ _ _ Hreadable) in Hloop'.
  rewrite (forallb_Permutation _ _ _ Hperm') in Hloop'.
  rewrite (forallb_Permutation _ _ _ Hperm) in Hloop.
  destruct (forallb (readable client) roomIds) eqn:Hall.
  2: { rewrite (bind_throw _ _ _ _ Hloop), (bind_throw _ _ _ _ Hloop').
       by split. }
  rewrite untilRejected_readable in Hloop
    by (by rewrite (forallb_Permutation _ _ _ Hperm)).
  rewrite untilRejected_readable in Hloop'.
  2: { rewrite (forallb_pointwise _ _ _ Hreadable).
       by rewrite (forallb_Permutation _ _ _ Hperm'). }
  rewrite (foldl_pointwise _ (classified client)) in Hloop' by done.
  rewrite (foldl_classified_order client roomIds) in Hloop' by done.
  rewrite (foldl_classified_order client roomIds) in Hloop by done.
  rewrite (bind_ok _ _ _ _ _ Hloop), (bind_ok _ _ _ _ _ Hloop').
  cbv beta.
  match goal with
  | |- (?T').1 = (?T).1 ∧ _ => assert (T' = T) as ->; [|done]
  end.
  apply bind_ext.
  { apply forOf_ext. intros [interestId roomIdOrAlias] c1.
    unfold resolveExisting. by rewrite Hresolve. }
  intros [] c1. apply bind_ext; [done|]. intros that c2.
  destruct (dbRoom that) as [room|]; [|done].
  apply bind_ext; [unfold await; by rewrite Hstate|].
  intros roomState c3. apply bind_ext; [done|]. intros [] c4.
  apply forOf_ext. intros e c5.
  apply bind_ext; [unfold await; by rewrite Hspace|done].
Qed.

(** C9, amended.  When no two joined rooms claim the same slot, a second
    [construct] against the same rooms and room states ends as the first
    did, whatever order the reads settle in; and when the first returns,
    the second leaves the same catalog. *)
Theorem construct_idempotent this :
  sameAnswers client client' →
  (∀ roomIds, getJoinedRooms client = Some roomIds →
     distinctClaims client (id this) roomIds) →
  (construct client' config lib (construct client config lib this).2).1
  = (construct client config lib this).1
  ∧ ((construct client config lib this).1 = Some () →
       construct client' config lib (construct client config lib this).2
       = construct client config lib this).
Proof.
  intros Hsame Hclaims.
  rewrite (construct_prior client' config lib _ this)
    by apply construct_id.
  by apply construct_order.
Qed.
End RebuildAgain.

(** ** Invite redemption *)

Lemma find_never {A} (p : A → bool) (l : list A) :
  (∀ x, p x = false) → find p l = None.
Proof. intros H. induction l as [|x l IH]; simpl; [done|]. by rewrite H. Qed.

Lemma find_Some {A} (p : A → bool) (l : list A) x :
  find p l = Some x → x ∈ l ∧ p x = true.
Proof.
  induction l as [|y l IH]; simpl; [done|].
  destruct (p y) eqn:Hy.
  - intros [= ->]. split; [left|done].
  - intros [Hin Hp]%IH. split; [by right|done].
Qed.

Lemma find_None {A} (p : A → bool) (l : list A) x :
  find p l = None → x ∈ l → p x = false.
Proof.
  induction l as [|y l IH]; simpl; [by intros _ ?%elem_of_nil|].
  destruct (p y) eqn:Hy; [done|].
  intros Hnone [->|Hin]%elem_of_cons; auto.
Qed.

Section Redemption.
Context (client : MatrixClient) (db : DBBackend) (lib : Imports).

(** A run of the handler returns at a guard and leaves everything as it
    was; or throws at a read that rejects, and leaves everything as it was;
    or passed every check and ran the association block on the people
    found. *)
Lemma onRoomEvent_run roomId event s :
  (onRoomEvent client db lib roomId event s = (Rejected, s)
   ∧ ¬ readRejects client db roomId event)
  ∨ (onRoomEvent client db lib roomId event s = (Threw, s)
     ∧ readRejects client db roomId event)
  ∨ (¬ readRejects client db roomId event
     ∧ ∃ tok pid found,
         carriesToken event tok ∧ recordCarries client roomId tok pid
         ∧ createdByAgent client roomId ∧ inviteSentByAgent client roomId tok
         ∧ findPeopleWithId db pid = Some found ∧ found ≠ []
         ∧ onRoomEvent client db lib roomId event s
           = match associate client db lib roomId event found s with
             | (Some _, s') => (Applied, s')
             | (None, s') => (Incomplete, s')
             end).
Proof.
  unfold onRoomEvent, readRejects.
  case_bool_decide as Hty.
  2: { left. split; [done|]. by intros [? _]. }
  destruct (content event ≫= third_party_invite) as [invite|] eqn:Hinv.
  2: { left. split; [done|]. by intros (_ & invite & ? & _). }
  destruct (getRoomStateEvent client roomId "m.room.third_party_invite"
              (signed invite ≫= token)) as [emailInvite|] eqn:Hrec.
  2: { right; left. split; [done|]. split; [done|].
       exists invite. split; [done|]. by rewrite Hrec. }
  destruct (truthy (RS_3PID_PERSON_ID emailInvite)) eqn:Hpid.
  2: { left. split; [done|]. intros (_ & invite' & [= <-] & H).
       rewrite Hrec in H. destruct H as [H _]. congruence. }
  destruct (getRoomState client roomId) as [state|] eqn:Hstate.
  2: { right; left. split; [done|]. split; [done|].
       exists invite. split; [done|]. rewrite Hrec. auto. }
  destruct (senderIs (find (λ e, bool_decide (type e = "m.room.create"))
                        state) (getUserId client)) eqn:Hs1.
  2: { left. split; [done|]. intros (_ & invite' & [= <-] & H).
       rewrite Hrec in H. destruct H as (_ & H & _). congruence. }
  destruct (senderIs
              (find (λ e, bool_decide (type e = "m.room.third_party_invite")
                          && bool_decide
                               (Some (state_key e) = signed invite ≫= token))
                 state) (getUserId client)) eqn:Hs2.
  2: { left. split; [done|]. intros (_ & invite' & [= <-] & H).
       rewrite Hrec in H. destruct H as (_ & _ & H & _).
       congruence. }
  destruct (findPeopleWithId db (default "" (RS_3PID_PERSON_ID emailInvite)))
    as [[|person rest]|] eqn:Hdb.
  3: { right; left. split; [done|]. split; [done|].
       exists invite. split; [done|]. rewrite Hrec. auto. }
  1: { left. split; [done|]. intros (_ & invite' & [= <-] & H).
       rewrite Hrec in H. destruct H as (_ & _ & _ & H).
       congruence. }
  right; right. split.
  { intros (_ & invite' & [= <-] & H).
    rewrite Hrec in H. destruct H as (_ & _ & _ & H). congruence. }
  destruct (RS_3PID_PERSON_ID emailInvite) as [pid|] eqn:Hpayload; [|done].
  simpl in Hpid, Hdb. apply bool_decide_eq_true in Hpid.
  destruct (find (λ e, bool_decide (type e = "m.room.create")) state)
    as [created|] eqn:Hcreate; [|done].
  simpl in Hs1. apply bool_decide_eq_true in Hs1.
  destruct (find _ state) as [invited|] eqn:Hinvited in Hs2; [|done].
  simpl in Hs2. apply bool_decide_eq_true in Hs2.
  destruct (find_Some _ _ _ Hinvited) as [_ Hkey].
  apply andb_prop in Hkey as [_ Hkey]. apply bool_decide_eq_true in Hkey.
  destruct (signed invite) as [sg|] eqn:Hsg; [|done]. simpl in *.
  destruct (token sg) as [tok|] eqn:Htok; [|done].
  exists tok, pid, (person :: rest).
  split; [split; [done|by exists invite, sg]|].
  split; [by exists emailInvite|].
  split; [by exists state, created|].
  split; [by exists state, invited|].
  done.
Qed.

(** A genuine redemption reaches the association block. *)
Lemma onRoomEvent_genuine roomId event s :
  genuine client db roomId event →
  ∃ tok pid found,
    carriesToken event tok ∧ recordCarries client roomId tok pid
    ∧ findPeopleWithId db pid = Some found ∧ found ≠ []
    ∧ onRoomEvent client db lib roomId event s
      = match associate client db lib roomId event found s with
        | (Some _, s') => (Applied, s')
        | (None, s') => (Incomplete, s')
        end.
Proof.
  intros (tok & pid & [Hty (invite & sg & Hinv & Hsg & Htok)]
          & (emailInvite & Hrec & Hpid & Hne)
          & (state & created & Hstate & Hcreate & Hs1)
          & (state' & invited & Hstate' & Hinvited & Hs2)
          & (person & rest & Hdb)).
  assert (state' = state) as -> by congruence.
  exists tok, pid, (person :: rest).
  split; [split; [done|by exists invite, sg]|].
  split; [by exists emailInvite|]. split; [done|]. split; [done|].
  unfold onRoomEvent.
  rewrite bool_decide_eq_true_2 by done. rewrite Hinv, Hsg. simpl.
  rewrite Htok, Hrec, Hpid. simpl.
  rewrite bool_decide_eq_true_2 by done. rewrite Hstate, Hcreate. simpl.
  rewrite bool_decide_eq_true_2 by done. rewrite Hinvited. simpl.
  rewrite bool_decide_eq_true_2 by done. by rewrite Hdb.
Qed.

Lemma genuine_found roomId event tok pid found :
  carriesToken event tok → recordCarries client roomId tok pid →
  createdByAgent client roomId → inviteSentByAgent client roomId tok →
  findPeopleWithId db pid = Some found → found ≠ [] →
  genuine client db roomId event.
Proof.
  intros. exists tok, pid. do 4 (split; [done|]).
  destruct found as [|person rest]; [done|]. by exists person, rest.
Qed.

(** C1, amended.  The handler reaches [Applied] only when the event
    carries a third-party-invite token, the record under that token
    carries a person-ID payload, the room's creation event and that record
    were sent by this agent, and the backend lookup by the person ID
    yields a non-empty result.  When one of these fails, the catalog and
    the trace of requests are as they were, and the handler ends
    [Rejected], unless the failure is that of a read: when the record
    under the token is not there, or the room state or the backend cannot
    be read, the handler throws.  When all of them hold the handler
    neither rejects nor throws before the association block. *)
Theorem redemption_verified roomId event s :
  ((onRoomEvent client db lib roomId event s).1 = Applied →
     genuine client db roomId event)
  ∧ (¬ genuine client db roomId event →
       ¬ readRejects client db roomId event →
       onRoomEvent client db lib roomId event s = (Rejected, s))
  ∧ (readRejects client db roomId event →
       ¬ genuine client db roomId event
       ∧ onRoomEvent client db lib roomId event s = (Threw, s))
  ∧ ((onRoomEvent client db lib roomId event s).1 = Threw →
       readRejects client db roomId event)
  ∧ (genuine client db roomId event →
       (onRoomEvent client db lib roomId event s).1 ≠ Rejected
       ∧ (onRoomEvent client db lib roomId event s).1 ≠ Threw).
Proof.
  assert (genuine client db roomId event →
          (onRoomEvent client db lib roomId event s).1 ≠ Rejected
          ∧ (onRoomEvent client db lib roomId event s).1 ≠ Threw)
    as Hgenuine.
  { intros (_ & _ & found & _ & _ & _ & _ & ->)%(onRoomEvent_genuine _ _ s).
    by destruct (associate _ _ _ _ _ _ _) as [[?|] ?]. }
  destruct (onRoomEvent_run roomId event s)
    as [[Hrun Hreads]|[[Hrun Hreads]
       |(Hreads & tok & pid & found & ? & ? & ? & ? & Hdb & Hne & Hrun)]].
  - rewrite Hrun. split; [done|]. split; [done|]. split; [done|].
    split; [done|]. intros [H _]%Hgenuine. by rewrite Hrun in H.
  - rewrite Hrun. split; [done|]. split; [done|]. split.
    { intros _. split; [|done]. intros [_ H]%Hgenuine. by rewrite Hrun in H. }
    split; [done|]. intros [_ H]%Hgenuine. by rewrite Hrun in H.
  - assert (genuine client db roomId event) as Hg
      by (by eapply genuine_found).
    split; [done|]. split; [done|]. split; [done|]. split; [|done].
    rewrite Hrun. by destruct (associate _ _ _ _ _ _ _) as [[?|] ?].
Qed.

Lemma createUpdatePerson_run person this trace :
  createUpdatePerson client lib person (this, trace)
  = match dbRoom this with
    | None => (None, (this, trace))
    | Some room =>
        let c := se_content (makeStoredPerson lib (id this) person) in
        let e :=
          SendStateEvent (mr_roomId room) (RS_STORED_PERSON lib)
            (person_id person) (personContent c) in
        if sendStateEvent client (mr_roomId room) (RS_STORED_PERSON lib)
             (person_id person) (personContent c)
        then (Some c,
              (set_people (<[person_id person := c]> (people this)) this,
               trace ++ [e]))
        else (None, (this, trace ++ [e]))
    end.
Proof.
  unfold createUpdatePerson, bind, get, await, request, modify, ret. simpl.
  destruct (dbRoom this) as [room|]; simpl; [|done].
  by destruct (sendStateEvent _ _ _ _ _).
Qed.

Lemma associate_unfold roomId event found :
  associate client db lib roomId event found
  = bind (stampAll client lib event found)
      (λ _, updatePermissions db lib roomId).
Proof. reflexivity. Qed.

(** The loop writes the stored person of each person found, stamped with
    the redeeming identity, over whatever the cache holds under that
    person ID, and leaves the other entries alone. *)
Lemma stampAll_people event found s s' :
  stampAll client lib event found s = (Some (), s') →
  ∀ k,
    ((∃ p, p ∈ found ∧ person_id p = k) →
       people s'.1 !! k
       = Some {| pentaId := Some k; userId := Some (state_key event) |})
    ∧ ((∀ p, p ∈ found → person_id p ≠ k) →
         people s'.1 !! k = people s.1 !! k).
Proof.
  revert s. induction found as [|x found IH]; intros [this trace] Hrun k.
  - injection Hrun as <-. split; [|done].
    by intros (p & ?%elem_of_nil & _).
  - unfold stampAll in Hrun. simpl in Hrun.
    unfold bind at 1 2, ret in Hrun.
    rewrite createUpdatePerson_run in Hrun.
    destruct (dbRoom this) as [room|]; [|done]. simpl in Hrun.
    destruct (sendStateEvent _ _ _ _ _); [|done].
    destruct (IH _ Hrun k) as [Hin Hout]. simpl in *.
    split.
    + intros (p & Hp & Hk).
      destruct (decide (k ∈ person_id <$> found)) as [Hq|Hq].
      { apply list_elem_of_fmap in Hq as (q & -> & Hq). apply Hin. eauto. }
      assert (∀ q, q ∈ found → person_id q ≠ k) as Hq'.
      { intros q Hq1 Hq2. apply Hq, list_elem_of_fmap. eauto. }
      rewrite Hout by done.
      apply elem_of_cons in Hp as [->|Hp]; [|by destruct (Hq' p)].
      subst k. by rewrite lookup_insert_eq.
    + intros Hno. rewrite Hout by (intros q Hq; apply Hno; by right).
      rewrite lookup_insert_ne; [done|]. apply Hno. by left.
Qed.

Lemma preserves_request {T} (f : Conference → T) e accepted :
  preserves (λ s : State, f s.1) (request e accepted).
Proof. by intros [this trace]. Qed.

Lemma createUpdatePerson_entities {T} (f : Conference → T) person :
  (∀ v c, f (set_people v c) = f c) →
  preserves (λ s : State, f s.1) (createUpdatePerson client lib person).
Proof.
  intros Hf [this trace]. rewrite createUpdatePerson_run.
  destruct (dbRoom this); [|done]. simpl.
  destruct (sendStateEvent _ _ _ _ _); simpl; [apply Hf|done].
Qed.

Lemma stampAll_entities {T} (f : Conference → T) event found :
  (∀ v c, f (set_people v c) = f c) →
  preserves (λ s : State, f s.1) (stampAll client lib event found).
Proof.
  intros Hf. apply preserves_forOf. intros person.
  apply preserves_bind; [by apply createUpdatePerson_entities|].
  intros _. apply preserves_ret.
Qed.

(** The loop sends stored persons and nothing else. *)
Lemma stampAll_trace event found s :
  ∃ added,
    (stampAll client lib event found s).2.2 = s.2 ++ added
    ∧ Forall (λ e, ∃ r t k c, e = SendStateEvent r t k c) added.
Proof.
  revert s. induction found as [|x found IH]; intros [this trace].
  - exists []. by rewrite app_nil_r.
  - unfold stampAll. simpl. unfold bind at 1 2, ret.
    rewrite createUpdatePerson_run.
    destruct (dbRoom this) as [room|]; simpl.
    2: { exists []. by rewrite app_nil_r. }
    destruct (sendStateEvent _ _ _ _ _).
    + unfold stampAll in IH.
      edestruct IH as (added & Heq & Hadded). rewrite Heq. simpl.
      eexists (_ :: added). rewrite <- app_assoc. split; [done|].
      constructor; eauto 10.
    + simpl. eexists [_]. split; [done|]. constructor; eauto 10.
Qed.

Lemma getModeratorsForAuditorium_catalog auditorium :
  preserves (λ s : State, s.1) (getModeratorsForAuditorium db lib auditorium).
Proof.
  unfold getModeratorsForAuditorium, getPeopleForAuditorium.
  preserves_reads.
Qed.

Lemma getModeratorsForTalk_catalog talk :
  preserves (λ s : State, s.1) (getModeratorsForTalk db lib talk).
Proof.
  unfold getModeratorsForTalk, getPeopleForTalk.
  preserves_reads.
Qed.

Lemma moderate_catalog roomId mods :
  preserves (λ s : State, s.1) (moderate lib roomId mods).
Proof.
  unfold moderate. apply preserves_bind; [apply preserves_await|].
  intros resolved. apply (preserves_request (λ c, c)).
Qed.

(** The permission step does not touch the catalog. *)
Lemma updatePermissions_catalog roomId :
  preserves (λ s : State, s.1) (updatePermissions db lib roomId).
Proof.
  unfold updatePermissions.
  apply preserves_bind; [apply preserves_get|]. intros [this trace].
  repeat case_match;
    try (apply preserves_bind;
         [first [apply getModeratorsForAuditorium_catalog
                |apply getModeratorsForTalk_catalog]
         |intros ?; apply moderate_catalog]).
  apply preserves_ret.
Qed.

(** C2, amended.  An [Applied] redemption leaves, for every backend
    person matching the payload, the stored person stamped with the
    identity that redeemed (the event's state key) in the cache, whatever
    the cache held for that person ID before: a later redemption by
    another identity overwrites the earlier one. *)
Theorem redemption_last_write_wins roomId event s s' :
  onRoomEvent client db lib roomId event s = (Applied, s') →
  ∃ tok pid found,
    carriesToken event tok ∧ recordCarries client roomId tok pid
    ∧ findPeopleWithId db pid = Some found ∧ found ≠ []
    ∧ ∀ p, p ∈ found →
        people s'.1 !! person_id p
        = Some {| pentaId := Some (person_id p);
                  userId := Some (state_key event) |}.
Proof.
  intros Hrun.
  destruct (onRoomEvent_run roomId event s)
    as [[Hrej _]|[[Hrej _]
       |(_ & tok & pid & found & Htok & Hrec & _ & _ & Hdb & Hne & Heq)]];
    [congruence|congruence|].
  exists tok, pid, found. do 4 (split; [done|]).
  rewrite Hrun, associate_unfold in Heq. unfold bind in Heq.
  destruct (stampAll client lib event found s) as [[[]|] s1] eqn:Hstamp.
  2: { by destruct s1. }
  pose proof (updatePermissions_catalog roomId s1) as Hcat. simpl in Hcat.
  destruct (updatePermissions db lib roomId s1) as [[[]|] s2];
    [|by destruct s2].
  injection Heq as ->. simpl in Hcat. rewrite Hcat.
  intros p Hp. apply (stampAll_people event found s s1 Hstamp). eauto.
Qed.

Lemma find_values_Some {V} (m : gmap string V) (p : V → bool) v :
  find p (map_to_list m).*2 = Some v → p v = true ∧ ∃ k, m !! k = Some v.
Proof.
  intros [Hin Hp]%find_Some. split; [done|].
  apply list_elem_of_fmap in Hin as ([k v'] & -> & Hin).
  exists k. by apply elem_of_map_to_list.
Qed.

Lemma find_values_None {V} (m : gmap string V) (p : V → bool) k v :
  find p (map_to_list m).*2 = None → m !! k = Some v → p v = false.
Proof.
  intros Hnone Hk. apply (find_None _ _ _ Hnone).
  apply list_elem_of_fmap. exists (k, v). split; [done|].
  by apply elem_of_map_to_list.
Qed.

Lemma find_auditorium this roomId :
  (auditoriumOf this roomId →
     find (λ a, bool_decide (aud_roomId a = roomId))
          (storedAuditoriums this) = Some {| aud_roomId := roomId |})
  ∧ (¬ auditoriumOf this roomId →
       find (λ a, bool_decide (aud_roomId a = roomId))
            (storedAuditoriums this) = None).
Proof.
  unfold storedAuditoriums.
  destruct (find _ _) as [[r]|] eqn:Hfind.
  - apply find_values_Some in Hfind as [Hp [k Hk]].
    apply bool_decide_eq_true in Hp. simpl in Hp. subst r.
    split; [done|]. intros []. by exists k, {| aud_roomId := roomId |}.
  - split; [|done]. intros (k & a & Hk & Ha).
    apply (find_values_None _ _ _ _ Hfind) in Hk.
    by apply bool_decide_eq_false in Hk.
Qed.

Lemma find_backstage this roomId :
  (backstageOf this roomId →
     find (λ a, bool_decide (bs_roomId a = roomId))
          (storedAuditoriumBackstages this) = Some {| bs_roomId := roomId |})
  ∧ (¬ backstageOf this roomId →
       find (λ a, bool_decide (bs_roomId a = roomId))
            (storedAuditoriumBackstages this) = None).
Proof.
  unfold storedAuditoriumBackstages.
  destruct (find _ _) as [[r]|] eqn:Hfind.
  - apply find_values_Some in Hfind as [Hp [k Hk]].
    apply bool_decide_eq_true in Hp. simpl in Hp. subst r.
    split; [done|]. intros []. by exists k, {| bs_roomId := roomId |}.
  - split; [|done]. intros (k & a & Hk & Ha).
    apply (find_values_None _ _ _ _ Hfind) in Hk.
    by apply bool_decide_eq_false in Hk.
Qed.

Lemma find_talk this roomId :
  (talkOf this roomId →
     find (λ a, bool_decide (talk_roomId a = roomId)) (storedTalks this)
     = Some {| talk_roomId := roomId |})
  ∧ (¬ talkOf this roomId →
       find (λ a, bool_decide (talk_roomId a = roomId)) (storedTalks this)
       = None).
Proof.
  unfold storedTalks.
  destruct (find _ _) as [[r]|] eqn:Hfind.
  - apply find_values_Some in Hfind as [Hp [k Hk]].
    apply bool_decide_eq_true in Hp. simpl in Hp. subst r.
    split; [done|]. intros []. by exists k, {| talk_roomId := roomId |}.
  - split; [|done]. intros (k & a & Hk & Ha).
    apply (find_values_None _ _ _ _ Hfind) in Hk.
    by apply bool_decide_eq_false in Hk.
Qed.

Lemma updatePermissions_none roomId s :
  ¬ auditoriumOf s.1 roomId → ¬ backstageOf s.1 roomId →
  ¬ talkOf s.1 roomId →
  updatePermissions db lib roomId s = (Some (), s).
Proof.
  destruct s as [this trace]. simpl. intros Ha Hb Ht.
  unfold updatePermissions, bind, get. simpl.
  rewrite (proj2 (find_auditorium this roomId) Ha).
  rewrite (proj2 (find_backstage this roomId) Hb).
  by rewrite (proj2 (find_talk this roomId) Ht).
Qed.

Lemma getModeratorsForAuditorium_state auditorium :
  preserves (λ s : State, s) (getModeratorsForAuditorium db lib auditorium).
Proof.
  unfold getModeratorsForAuditorium, getPeopleForAuditorium.
  preserves_reads.
Qed.

Lemma getModeratorsForTalk_state talk :
  preserves (λ s : State, s) (getModeratorsForTalk db lib talk).
Proof.
  unfold getModeratorsForTalk, getPeopleForTalk.
  preserves_reads.
Qed.

(** A permission step that returns has found the moderators, resolved
    them and asked for the update, which was accepted. *)
Lemma moderate_returns roomId (m : M State (list IDbPerson)) s1 s' :
  preserves (λ s : State, s) m →
  bind m (moderate lib roomId) s1 = (Some (), s') →
  ∃ mods resolved,
    m s1 = (Some mods, s1)
    ∧ resolveIdentifiers lib mods = Some resolved
    ∧ ensureModerator lib roomId resolved = true
    ∧ s' = (s1.1, s1.2 ++ [EnsureModerator roomId resolved]).
Proof.
  intros Hm. unfold bind. specialize (Hm s1).
  destruct (m s1) as [[mods|] s2]; simpl in Hm; subst s2; [|done].
  unfold moderate, bind, await, request.
  destruct (resolveIdentifiers lib mods) as [resolved|] eqn:Hresolved;
    [|done].
  destruct s1 as [this trace].
  destruct (ensureModerator lib roomId resolved) eqn:Haccepted; [|done].
  intros [= <-]. by exists mods, resolved.
Qed.

(** C8.  A run of the handler that ends [Applied] has written the people
    found, and has then looked the room of the event up among the
    auditoriums first, then among the backstages, then among the talks: it
    has asked, last, for one moderator update for the room, with the
    resolved moderators of the first kind that has the room; and when no
    kind has the room it has asked for no permission update. *)
Theorem entity_lookup_order roomId event s s' :
  onRoomEvent client db lib roomId event s = (Applied, s') →
  ∃ tok pid found s1,
    carriesToken event tok ∧ recordCarries client roomId tok pid
    ∧ findPeopleWithId db pid = Some found
    ∧ stampAll client lib event found s = (Some (), s1)
    ∧ (auditoriumOf s.1 roomId →
         ∃ mods resolved,
           getModeratorsForAuditorium db lib
             (inl {| aud_roomId := roomId |}) s1 = (Some mods, s1)
           ∧ resolveIdentifiers lib mods = Some resolved
           ∧ s' = (s1.1, s1.2 ++ [EnsureModerator roomId resolved]))
    ∧ (¬ auditoriumOf s.1 roomId → backstageOf s.1 roomId →
         ∃ mods resolved,
           getModeratorsForAuditorium db lib
             (inr {| bs_roomId := roomId |}) s1 = (Some mods, s1)
           ∧ resolveIdentifiers lib mods = Some resolved
           ∧ s' = (s1.1, s1.2 ++ [EnsureModerator roomId resolved]))
    ∧ (¬ auditoriumOf s.1 roomId → ¬ backstageOf s.1 roomId →
       talkOf s.1 roomId →
         ∃ mods resolved,
           getModeratorsForTalk db lib {| talk_roomId := roomId |} s1
           = (Some mods, s1)
           ∧ resolveIdentifiers lib mods = Some resolved
           ∧ s' = (s1.1, s1.2 ++ [EnsureModerator roomId resolved]))
    ∧ (¬ auditoriumOf s.1 roomId → ¬ backstageOf s.1 roomId →
       ¬ talkOf s.1 roomId →
         s' = s1
         ∧ ∀ room resolved,
             EnsureModerator room resolved ∈ s'.2 →
             EnsureModerator room resolved ∈ s.2).
Proof.
  intros Hrun.
  destruct (onRoomEvent_run roomId event s)
    as [[Hrej _]|[[Hrej _]
       |(_ & tok & pid & found & Htok & Hrec & _ & _ & Hdb & Hne & Heq)]];
    [congruence|congruence|].
  rewrite Hrun, associate_unfold in Heq. unfold bind in Heq.
  destruct (stampAll_trace event found s) as (added & Htrace & Hadded).
  pose proof (stampAll_entities auditoriums event found
                (λ _ _, eq_refl) s) as Hauds.
  pose proof (stampAll_entities auditoriumBackstages event found
                (λ _ _, eq_refl) s) as Hbss.
  pose proof (stampAll_entities talks event found
                (λ _ _, eq_refl) s) as Htalks.
  destruct (stampAll client lib event found s) as [[[]|] s1] eqn:Hstamp.
  2: { by destruct s1. }
  simpl in Htrace, Hauds, Hbss, Htalks.
  destruct (updatePermissions db lib roomId s1) as [[[]|] s2] eqn:Hperm;
    [|by destruct s2].
  injection Heq as ->.
  exists tok, pid, found, s1. do 4 (split; [done|]).
  assert (auditoriumOf s1.1 roomId ↔ auditoriumOf s.1 roomId) as Ha
    by (unfold auditoriumOf; by rewrite Hauds).
  assert (backstageOf s1.1 roomId ↔ backstageOf s.1 roomId) as Hb
    by (unfold backstageOf; by rewrite Hbss).
  assert (talkOf s1.1 roomId ↔ talkOf s.1 roomId) as Ht
    by (unfold talkOf; by rewrite Htalks).
  rewrite <- Ha, <- Hb, <- Ht.
  clear Hstamp Hauds Hbss Htalks Ha Hb Ht.
  destruct s1 as [this trace]. simpl in *.
  unfold updatePermissions, bind at 1, get in Hperm. simpl in Hperm.
  split; [|split; [|split]].
  - intros Hin.
    rewrite (proj1 (find_auditorium this roomId) Hin) in Hperm.
    apply moderate_returns in Hperm
      as (mods & resolved & ? & ? & _ & ?);
      [|apply getModeratorsForAuditorium_state].
    by exists mods, resolved.
  - intros Hnot Hin.
    rewrite (proj2 (find_auditorium this roomId) Hnot) in Hperm.
    rewrite (proj1 (find_backstage this roomId) Hin) in Hperm.
    apply moderate_returns in Hperm
      as (mods & resolved & ? & ? & _ & ?);
      [|apply getModeratorsForAuditorium_state].
    by exists mods, resolved.
  - intros Hnot1 Hnot2 Hin.
    rewrite (proj2 (find_auditorium this roomId) Hnot1) in Hperm.
    rewrite (proj2 (find_backstage this roomId) Hnot2) in Hperm.
    rewrite (proj1 (find_talk this roomId) Hin) in Hperm.
    apply moderate_returns in Hperm
      as (mods & resolved & ? & ? & _ & ?);
      [|apply getModeratorsForTalk_state].
    by exists mods, resolved.
  - intros Hnot1 Hnot2 Hnot3.
    rewrite (proj2 (find_auditorium this roomId) Hnot1) in Hperm.
    rewrite (proj2 (find_backstage this roomId) Hnot2) in Hperm.
    rewrite (proj2 (find_talk this roomId) Hnot3) in Hperm.
    injection Hperm as <-. split; [done|].
    intros room resolved. simpl. rewrite Htrace.
    intros [?|Hin]%elem_of_app; [done|].
    rewrite Forall_forall in Hadded.
    by destruct (Hadded _ Hin) as (? & ? & ? & ? & ?).
Qed.
End Redemption.

(** ** Permissions *)

Section Permissions.
Context (client : MatrixClient) (config : Config).

(** The loop gives 50 to the identities of the list whose level is
    missing or 0, and leaves every other entry alone. *)
Lemma grantModerators_lookup mxids (levels : gmap string Z) user :
  grantModerators mxids levels !! user
  = if bool_decide (user ∈ mxids) && negb (truthyLevel (levels !! user))
    then Some 50%Z else levels !! user.
Proof.
  revert levels. induction mxids as [|x mxids IH]; intros levels.
  - done.
  - unfold grantModerators in *. simpl. rewrite IH.
    destruct (decide (x = user)) as [->|Hx].
    + rewrite (bool_decide_eq_true_2 (user ∈ user :: mxids))
        by (apply elem_of_cons; by left).
      destruct (truthyLevel (levels !! user)) eqn:Hlevel; simpl.
      * by rewrite Hlevel, andb_false_r.
      * rewrite lookup_insert_eq. simpl. by rewrite andb_false_r.
    + assert (bool_decide (user ∈ x :: mxids) = bool_decide (user ∈ mxids))
        as ->.
      { apply bool_decide_ext. rewrite elem_of_cons.
        split; [by intros [->|?]|by right]. }
      destruct (truthyLevel (levels !! x)); [done|].
      by rewrite lookup_insert_ne.
Qed.

Lemma mxids_target (targets : list ResolvedPersonIdentifier) user :
  user ∈ map (λ r, default "" (mxid r))
             (List.filter (λ t, truthy (mxid t)) targets)
  ↔ isTarget targets user.
Proof.
  unfold isTarget. rewrite list_elem_of_fmap. split.
  - intros (t & -> & [Hin Ht]%list_elem_of_In%filter_In).
    destruct (mxid t) as [u|] eqn:Hu; [|done]. simpl in *.
    apply bool_decide_eq_true in Ht. split; [done|].
    exists t. split; [by apply list_elem_of_In|done].
  - intros (Hne & t & Hin & Ht). exists t. rewrite Ht. split; [done|].
    apply list_elem_of_In, filter_In. split; [by apply list_elem_of_In|].
    rewrite Ht. simpl. by apply bool_decide_eq_true.
Qed.

(** What [ensurePermissionsFor] sends when the power levels are read and
    have a [users] map. *)
Lemma ensurePermissionsFor_run targets roomId pls users0 s :
  getRoomStateEvent client roomId "m.room.power_levels" (Some "")
    = Some pls →
  users pls = Some users0 →
  let mxids :=
    map (λ r, default "" (mxid r))
        (List.filter (λ t, truthy (mxid t)) targets) in
  let merged :=
    grantModerators mxids
      (<[moderatorUserId config := 100%Z]>
         (<[getUserId client := 100%Z]> users0)) in
  ensurePermissionsFor client config targets roomId s
  = (if sendStateEvent client roomId "m.room.power_levels" ""
          (set_users merged pls)
     then Some () else None,
     (s.1, s.2 ++ [SendStateEvent roomId "m.room.power_levels" ""
                     (set_users merged pls)])).
Proof.
  intros Hread Husers. destruct s as [this trace].
  unfold ensurePermissionsFor, bind, await, request.
  by rewrite Hread, Husers.
Qed.


(** C10.  A target identity whose level in the map is 0 (and which is not
    one of the two identities set to 100 before the loop) is given 50:
    level 0 does not count as present. *)
Theorem zero_level_is_regranted targets roomId pls users0 user s :
  getRoomStateEvent client roomId "m.room.power_levels" (Some "")
    = Some pls →
  users pls = Some users0 →
  isTarget targets user →
  user ≠ getUserId client → user ≠ moderatorUserId config →
  users0 !! user = Some 0%Z →
  ∃ merged,
    (ensurePermissionsFor client config targets roomId s).2
    = (s.1, s.2 ++ [SendStateEvent roomId "m.room.power_levels" ""
                      (set_users merged pls)])
    ∧ merged !! user = Some 50%Z.
Proof.
  intros Hread Husers Htarget Hme Hmod Hzero. eexists. split.
  { by rewrite (ensurePermissionsFor_run targets roomId pls users0 s). }
  rewrite grantModerators_lookup, !lookup_insert_ne by done.
  rewrite bool_decide_eq_true_2 by by apply mxids_target.
  by rewrite Hzero.
Qed.
End Permissions.

(** ** Invites *)

Section Invites.
Context (client : MatrixClient) (lib : Imports).

Lemma elem_of_concat {A} (x : A) (ls : list (list A)) :
  x ∈ concat ls ↔ ∃ l, x ∈ l ∧ l ∈ ls.
Proof.
  rewrite list_elem_of_In, in_concat. split.
  - intros (l & ? & ?). exists l. by rewrite !list_elem_of_In.
  - intros (l & ? & ?). exists l. by rewrite <- !list_elem_of_In.
Qed.

Lemma joinedMembers_Some members joined :
  joinedMembers lib members = Some joined →
  (∀ m, m ∈ members → is_Some (effectiveMembership lib m))
  ∧ ∀ m, m ∈ joined
      ↔ m ∈ members ∧ effectiveMembership lib m = Some "join".
Proof.
  revert joined. induction members as [|x members IH]; intros joined; simpl.
  - intros [= <-]. split; [by intros m ?%elem_of_nil|].
    intros m. rewrite elem_of_nil. tauto.
  - destruct (effectiveMembership lib x) as [effective|] eqn:Hx; [|done].
    destruct (joinedMembers lib members) as [rest|]; [|done].
    destruct (IH rest eq_refl) as [Hread Hrest].
    intros [= <-]. split.
    + intros m [->|Hm]%elem_of_cons; [by rewrite Hx|by apply Hread].
    + intros m. rewrite elem_of_cons. case_bool_decide as Hjoin.
      * rewrite elem_of_cons, Hrest. subst effective.
        split; [intros [->|[? ?]]; auto|]. intros [[->|?] ?]; auto.
      * rewrite Hrest. split; [intros [? ?]; auto|].
        intros [[->|?] ?]; [congruence|auto].
Qed.

Lemma joinedMembers_None members :
  joinedMembers lib members = None →
  ∃ m, m ∈ members ∧ effectiveMembership lib m = None.
Proof.
  induction members as [|x members IH]; simpl; [done|].
  destruct (effectiveMembership lib x) as [effective|] eqn:Hx.
  - destruct (joinedMembers lib members) as [rest|]; [done|].
    intros _. destruct (IH eq_refl) as (m & Hm & Hnone).
    exists m. split; [by right|done].
  - intros _. exists x. split; [by left|done].
Qed.

Lemma elem_of_members (state : list RoomEvent) s :
  s ∈ List.filter (λ s, bool_decide (type s = "m.room.member")) state
  ↔ s ∈ state ∧ type s = "m.room.member".
Proof.
  rewrite list_elem_of_In, filter_In, <- list_elem_of_In.
  by rewrite bool_decide_eq_true.
Qed.

(** The joined identities are computed exactly when the membership of
    every member event can be read. *)
Lemma effectiveJoinedUserIds_readable state :
  membershipsReadable lib state
  ↔ is_Some (effectiveJoinedUserIds lib state).
Proof.
  unfold membershipsReadable, effectiveJoinedUserIds.
  destruct (joinedMembers lib _) as [joined|] eqn:Hjoined; simpl.
  - apply joinedMembers_Some in Hjoined as [Hread _].
    split; [eauto|]. intros _ s Hs Hty. apply Hread.
    by apply elem_of_members.
  - apply joinedMembers_None in Hjoined as (m & Hm & Hnone).
    apply elem_of_members in Hm as [Hm Hty].
    split; [|by intros [? ?]]. intros Hread.
    destruct (Hread m Hm Hty) as [? ?]. congruence.
Qed.

Lemma effectiveJoinedUserIds_spec state joined user :
  effectiveJoinedUserIds lib state = Some joined →
  user ∈ joined
  ↔ ∃ s, s ∈ state ∧ type s = "m.room.member"
         ∧ effectiveMembership lib s = Some "join"
         ∧ membershipFor lib s = user.
Proof.
  unfold effectiveJoinedUserIds.
  destruct (joinedMembers lib _) as [members|] eqn:Hjoined; [|done].
  apply joinedMembers_Some in Hjoined as [_ Hjoined].
  intros [= <-]. rewrite elem_of_list_to_set, list_elem_of_fmap. split.
  - intros (s & -> & Hs). apply Hjoined in Hs as [Hs Hj].
    apply elem_of_members in Hs as [Hs Hty]. by exists s.
  - intros (s & Hs & Hty & Hj & <-). exists s. split; [done|].
    apply Hjoined. split; [|done]. by apply elem_of_members.
Qed.

Lemma emailInvitePersonIds_spec state pid :
  pid ∈ emailInvitePersonIds state
  ↔ pid ≠ ""
    ∧ ∃ s, s ∈ state ∧ type s = "m.room.third_party_invite"
           ∧ content s ≫= RS_3PID_PERSON_ID = Some pid.
Proof.
  unfold emailInvitePersonIds.
  rewrite elem_of_list_to_set, list_elem_of_fmap. split.
  - intros (v & -> & Hv). apply list_elem_of_In, filter_In in Hv as [Hv Ht].
    apply in_map_iff in Hv as (s & <- & Hs).
    apply filter_In in Hs as [Hs Hty]. apply bool_decide_eq_true in Hty.
    destruct (content s ≫= RS_3PID_PERSON_ID) as [p|] eqn:Hp; [|done].
    simpl in *. apply bool_decide_eq_true in Ht. split; [done|].
    exists s. by rewrite list_elem_of_In.
  - intros (Hne & s & Hs & Hty & Hp). exists (Some pid). split; [done|].
    apply list_elem_of_In, filter_In.
    split; [|by apply bool_decide_eq_true].
    apply in_map_iff. exists s. split; [done|].
    apply filter_In. split; [by apply list_elem_of_In|].
    by apply bool_decide_eq_true.
Qed.

(** The two tests that pass a target over are those of the state read. *)
Lemma passedOver_spec state joined target :
  effectiveJoinedUserIds lib state = Some joined →
  passedOver (emailInvitePersonIds state) joined target = true
  ↔ hasJoined lib state target ∨ hasPendingInvite state target.
Proof.
  intros Hjoined. unfold passedOver.
  rewrite orb_true_iff, andb_true_iff, !bool_decide_eq_true.
  rewrite (effectiveJoinedUserIds_spec state joined _ Hjoined).
  rewrite emailInvitePersonIds_spec.
  unfold hasJoined, hasPendingInvite. split.
  - intros [[Hid (s & ? & ? & ? & ?)]|?]; [left|by right].
    destruct (mxid target) as [user|]; [|done]. simpl in *.
    apply bool_decide_eq_true in Hid. by exists user, s.
  - intros [(user & s & Huser & ? & ? & ? & ? & ?)|?]; [left|by right].
    rewrite Huser. simpl. split; [by apply bool_decide_eq_true|].
    by exists s.
Qed.

Lemma inviteRequests_passedOver roomId invited joined target :
  inviteRequests lib roomId invited joined target
  = if passedOver invited joined target then []
    else InvitePersonToRoom target roomId
         :: (if invitePersonToRoom lib target roomId then []
             else [LogError target roomId]).
Proof.
  unfold inviteRequests, inviteTarget, passedOver.
  destruct (truthy (mxid target)
            && bool_decide (default "" (mxid target) ∈ joined)); simpl;
    [done|].
  destruct (bool_decide (person_id (person target) ∈ invited)); simpl;
    [done|].
  by destruct (invitePersonToRoom lib target roomId).
Qed.

Lemma inviteTarget_run roomId invited joined target trace :
  inviteTarget lib roomId invited joined target trace
  = (if passedOver invited joined target || goesOn lib roomId target
     then Some () else None,
     trace ++ inviteRequests lib roomId invited joined target).
Proof.
  unfold inviteRequests, inviteTarget, passedOver, goesOn, ret.
  repeat case_match; simpl in *; rewrite ?app_nil_r; try done.
Qed.

Lemma forOf_inviteTarget roomId invited joined targets trace :
  forOf targets (inviteTarget lib roomId invited joined) trace
  = (if forallb (λ t, passedOver invited joined t || goesOn lib roomId t)
          targets
     then Some () else None,
     trace ++ concat (map (inviteRequests lib roomId invited joined)
                          (reached lib roomId invited joined targets))).
Proof.
  revert trace. induction targets as [|t targets IH]; intros trace; simpl.
  - by rewrite app_nil_r.
  - unfold bind. rewrite inviteTarget_run.
    destruct (passedOver invited joined t || goesOn lib roomId t); simpl.
    + rewrite IH. by rewrite app_assoc.
    + by rewrite app_nil_r.
Qed.

Lemma reached_targets roomId invited joined targets t :
  t ∈ reached lib roomId invited joined targets → t ∈ targets.
Proof.
  induction targets as [|x targets IH]; simpl; [done|].
  intros [->|Hin]%elem_of_cons; [by left|]. right.
  destruct (passedOver invited joined x || goesOn lib roomId x);
    [auto|by apply elem_of_nil in Hin].
Qed.

(** The loop comes to a target when it went on after every target
    before. *)
Lemma reached_after roomId invited joined before target after :
  (∀ t, t ∈ before →
     passedOver invited joined t || goesOn lib roomId t = true) →
  target ∈ reached lib roomId invited joined (before ++ target :: after).
Proof.
  induction before as [|x before IH]; simpl; intros Hon.
  - by left.
  - rewrite (Hon x) by (by left). right.
    apply IH. intros t Ht. apply Hon. by right.
Qed.

Lemma goesOn_or_passedOver roomId state joined t :
  effectiveJoinedUserIds lib state = Some joined →
  passedOver (emailInvitePersonIds state) joined t || goesOn lib roomId t
  = true
  ↔ hasJoined lib state t ∨ hasPendingInvite state t
    ∨ goesOn lib roomId t = true.
Proof.
  intros Hjoined.
  rewrite orb_true_iff, (passedOver_spec state joined t Hjoined). tauto.
Qed.

Lemma inviteRequests_elem roomId invited joined target e :
  e ∈ inviteRequests lib roomId invited joined target →
  e = InvitePersonToRoom target roomId ∨ e = LogError target roomId.
Proof.
  rewrite inviteRequests_passedOver.
  repeat case_match; simpl; rewrite ?elem_of_cons, ?elem_of_nil;
    intuition.
Qed.

(** C6, amended.  [ensureInvited] throws, having asked for nothing, when
    the membership of a member event of the room state cannot be read.
    When it can, the requests are such that: no invite is asked for a
    target whose identity has effective join membership or whose person ID
    a third-party-invite record carries; an invite is asked for every
    other target, provided the loop went on after the targets before it:
    that it does after a target that is passed over, after an invite that
    succeeds and after one that fails and is logged; every request is the
    invite of a target to the room or the log entry of a failed one; and
    [ensureInvited] returns exactly when the loop goes on after every
    target. *)
Theorem ensureInvited_spec roomId targets state trace :
  getRoomState client roomId = Some state →
  (¬ membershipsReadable lib state →
     ensureInvited client lib roomId targets trace = (None, trace))
  ∧ (membershipsReadable lib state →
     ∃ added,
       (ensureInvited client lib roomId targets trace).2 = trace ++ added
       ∧ (∀ target,
            hasJoined lib state target ∨ hasPendingInvite state target →
            InvitePersonToRoom target roomId ∉ added)
       ∧ (∀ before target after,
            targets = before ++ target :: after →
            ¬ hasJoined lib state target → ¬ hasPendingInvite state target →
            (∀ t, t ∈ before →
               hasJoined lib state t ∨ hasPendingInvite state t
               ∨ goesOn lib roomId t = true) →
            InvitePersonToRoom target roomId ∈ added)
       ∧ (∀ e, e ∈ added →
            ∃ target, target ∈ targets
              ∧ (e = InvitePersonToRoom target roomId
                 ∨ e = LogError target roomId))
       ∧ ((ensureInvited client lib roomId targets trace).1 = Some ()
          ↔ ∀ t, t ∈ targets →
              hasJoined lib state t ∨ hasPendingInvite state t
              ∨ goesOn lib roomId t = true)).
Proof.
  intros Hstate. unfold ensureInvited, bind at 1, await at 1.
  rewrite Hstate. cbv zeta. unfold bind, await.
  rewrite effectiveJoinedUserIds_readable.
  destruct (effectiveJoinedUserIds lib state) as [joined|] eqn:Hjoined.
  2: { split; [done|]. by intros [? ?]. }
  split; [by intros []|]. intros _.
  rewrite forOf_inviteTarget. cbn [fst snd].
  eexists. split; [reflexivity|]. split; [|split; [|split]].
  - intros target Hskip Hin.
    apply elem_of_concat in Hin as (requests & Hin & Hrequests).
    apply list_elem_of_fmap in Hrequests as (t & -> & Ht).
    destruct (inviteRequests_elem _ _ _ _ _ Hin) as [[= Heq]|[=]].
    subst t. rewrite inviteRequests_passedOver in Hin.
    apply (passedOver_spec state joined target Hjoined) in Hskip.
    rewrite Hskip in Hin. by apply elem_of_nil in Hin.
  - intros before target after -> Hj Hp Hon.
    apply elem_of_concat.
    exists (inviteRequests lib roomId (emailInvitePersonIds state) joined
              target).
    split; [|apply list_elem_of_fmap; eexists; split;
               [done|apply reached_after; intros t Ht;
                     by apply (goesOn_or_passedOver roomId state), Hon]].
    rewrite inviteRequests_passedOver.
    destruct (passedOver (emailInvitePersonIds state) joined target)
      eqn:Hpassed; [|by left].
    apply (passedOver_spec state joined target Hjoined) in Hpassed.
    tauto.
  - intros e Hin.
    apply elem_of_concat in Hin as (requests & Hin & Hrequests).
    apply list_elem_of_fmap in Hrequests as (t & -> & Ht).
    exists t. split; [by eapply reached_targets|].
    by apply inviteRequests_elem in Hin.
  - match goal with
    | |- (if ?b then _ else _) = _ ↔ _ =>
        assert (b = true
                ↔ ∀ t, t ∈ targets →
                    hasJoined lib state t ∨ hasPendingInvite state t
                    ∨ goesOn lib roomId t = true) as <-
    end.
    { rewrite forallb_forall. split.
      - intros Hall t Ht.
        by apply (goesOn_or_passedOver roomId state joined), Hall,
          list_elem_of_In.
      - intros Hall t Ht.
        by apply (goesOn_or_passedOver roomId state joined), Hall,
          list_elem_of_In. }
    by destruct (forallb _ targets).
Qed.
End Invites.

(** * The properties on the concrete homeserver *)

Example ensureInvited_demo :
  ensureInvited Demo.client Demo.lib "!room1:x"
    [Demo.target (Some Demo.alice) "p0"; Demo.target None "p1";
     Demo.target None "p3"; Demo.target (Some Demo.mallory) "p4"] []
  = (Some (),
     [InvitePersonToRoom (Demo.target None "p3") "!room1:x";
      LogError (Demo.target None "p3") "!room1:x";
      InvitePersonToRoom (Demo.target (Some Demo.mallory) "p4") "!room1:x"]).
Proof. vm_compute. reflexivity. Qed.

Example onRoomEvent_demo :
  onRoomEvent Demo.client Demo.db Demo.lib "!room1:x"
    (Demo.redemption "tok1" Demo.alice) (Demo.built, [])
  = (Applied,
     (set_people
        {[ "p1" := {| pentaId := Some "p1"; userId := Some Demo.alice |} ]}
        Demo.built,
      [SendStateEvent "!db:x" "org.matrix.confbot.person" "p1"
         (personContent
            {| pentaId := Some "p1"; userId := Some Demo.alice |});
       EnsureModerator "!room1:x"
         [{| mxid := Some Demo.alice;
             person := set_matrix_id (Some Demo.alice) Demo.p1 |}]])).
Proof. vm_compute. reflexivity. Qed.

(** C1, counter-example: the event carries a token for which the room has
    no third-party-invite record; the read of the record rejects and the
    handler throws: it does not end [Rejected]. *)
Lemma redemption_absent_record_throws :
  getRoomStateEvent Demo.client "!room1:x" "m.room.third_party_invite"
    (Some "nope") = None
  ∧ onRoomEvent Demo.client Demo.db Demo.lib "!room1:x"
      (Demo.redemption "nope" Demo.alice) (Demo.built, [])
    = (Threw, (Demo.built, []))
  ∧ (onRoomEvent Demo.client Demo.db Demo.lib "!room1:x"
       (Demo.redemption "nope" Demo.alice) (Demo.built, [])).1 ≠ Rejected.
Proof. vm_compute. repeat split. discriminate. Qed.

(** C1, amended, on the concrete server: the redemption of [tok1] is
    genuine, and neither rejects nor throws; the event with a token the
    room has no record for throws and changes nothing; an event that is
    no redemption is rejected and changes nothing. *)
Lemma redemption_verified_witness :
  (genuine Demo.client Demo.db "!room1:x" (Demo.redemption "tok1" Demo.alice)
   ∧ (onRoomEvent Demo.client Demo.db Demo.lib "!room1:x"
        (Demo.redemption "tok1" Demo.alice) (Demo.built, [])).1 ≠ Rejected
   ∧ (onRoomEvent Demo.client Demo.db Demo.lib "!room1:x"
        (Demo.redemption "tok1" Demo.alice) (Demo.built, [])).1 ≠ Threw)
  ∧ (¬ genuine Demo.client Demo.db "!room1:x"
         (Demo.redemption "nope" Demo.alice)
     ∧ onRoomEvent Demo.client Demo.db Demo.lib "!room1:x"
         (Demo.redemption "nope" Demo.alice) (Demo.built, [])
       = (Threw, (Demo.built, [])))
  ∧ onRoomEvent Demo.client Demo.db Demo.lib "!room1:x"
      (Demo.stateEvent "m.room.member" Demo.alice Demo.alice
         (Demo.member "join" None)) (Demo.built, [])
    = (Rejected, (Demo.built, [])).
Proof.
  assert (genuine Demo.client Demo.db "!room1:x"
            (Demo.redemption "tok1" Demo.alice)) as Hgenuine.
  { exists "tok1", "p1". split; [|split; [|split; [|split]]].
    - split; [reflexivity|]. eexists _, _.
      split; [reflexivity|]. split; reflexivity.
    - eexists. split; [reflexivity|]. split; [reflexivity|discriminate].
    - eexists _, _. split; [reflexivity|]. split; reflexivity.
    - eexists _, _. split; [reflexivity|]. split; reflexivity.
    - eexists _, _. reflexivity. }
  destruct (redemption_verified Demo.client Demo.db Demo.lib "!room1:x"
              (Demo.redemption "tok1" Demo.alice) (Demo.built, []))
    as (_ & _ & _ & _ & Hnot).
  destruct (redemption_verified Demo.client Demo.db Demo.lib "!room1:x"
              (Demo.redemption "nope" Demo.alice) (Demo.built, []))
    as (_ & _ & Hthrows & _).
  destruct (redemption_verified Demo.client Demo.db Demo.lib "!room1:x"
              (Demo.stateEvent "m.room.member" Demo.alice Demo.alice
                 (Demo.member "join" None)) (Demo.built, []))
    as (_ & Hrejects & _).
  split; [|split].
  - split; [exact Hgenuine|exact (Hnot Hgenuine)].
  - apply Hthrows. split; [reflexivity|].
    eexists. split; [reflexivity|]. exact I.
  - apply Hrejects.
    + intros (tok & pid & [_ (invite & sg & Hinv & _)] & _).
      discriminate Hinv.
    + intros (_ & invite & Hinv & _). discriminate Hinv.
Defined.

(** C2, counter-example: [tok1] is redeemed by one identity, then [tok2],
    an invite for the same person, by another; both runs are [Applied] and
    the second identity replaces the first. *)
Lemma matrix_id_overwritten :
  let run1 :=
    onRoomEvent Demo.client Demo.db Demo.lib "!room1:x"
      (Demo.redemption "tok1" Demo.alice) (Demo.built, []) in
  let run2 :=
    onRoomEvent Demo.client Demo.db Demo.lib "!room1:x"
      (Demo.redemption "tok2" Demo.mallory) run1.2 in
  run1.1 = Applied
  ∧ people run1.2.1 !! "p1" ≫= userId = Some Demo.alice
  ∧ run2.1 = Applied
  ∧ people run2.2.1 !! "p1" ≫= userId = Some Demo.mallory
  ∧ Demo.alice ≠ Demo.mallory.
Proof. vm_compute. repeat split. discriminate. Qed.

(** C2, amended, on the two redemptions of the counter-example. *)
Lemma redemption_last_write_wins_witness :
  ∃ tok pid found,
    carriesToken (Demo.redemption "tok2" Demo.mallory) tok
    ∧ recordCarries Demo.client "!room1:x" tok pid
    ∧ findPeopleWithId Demo.db pid = Some found ∧ found ≠ []
    ∧ ∀ p, p ∈ found →
        people
          (onRoomEvent Demo.client Demo.db Demo.lib "!room1:x"
             (Demo.redemption "tok2" Demo.mallory)
             (onRoomEvent Demo.client Demo.db Demo.lib "!room1:x"
                (Demo.redemption "tok1" Demo.alice) (Demo.built, [])).2).2.1
        !! person_id p
        = Some {| pentaId := Some (person_id p);
                  userId := Some Demo.mallory |}.
Proof.
  apply (redemption_last_write_wins Demo.client Demo.db Demo.lib "!room1:x"
           (Demo.redemption "tok2" Demo.mallory)
           (onRoomEvent Demo.client Demo.db Demo.lib "!room1:x"
              (Demo.redemption "tok1" Demo.alice) (Demo.built, [])).2).
  vm_compute. reflexivity.
Defined.

(** C3, counter-example: the joined rooms cannot be listed; the rebuild
    fails and the catalog built before is gone. *)
Lemma construct_not_atomic :
  construct Demo.offline Demo.config Demo.lib Demo.built
  = (None, Demo.emptyCatalog "X")
  ∧ Demo.built ≠ Demo.emptyCatalog "X".
Proof.
  split; [vm_compute; reflexivity|].
  intros H. apply (f_equal dbRoom) in H. discriminate H.
Qed.

(** C3, amended, on the same rebuild. *)
Lemma construct_discards_prior_witness :
  construct Demo.offline Demo.config Demo.lib (Demo.emptyCatalog "X")
  = construct Demo.offline Demo.config Demo.lib Demo.built
  ∧ construct Demo.offline Demo.config Demo.lib Demo.built
    = (None, reset Demo.built).
Proof.
  destruct (construct_discards_prior Demo.offline Demo.config Demo.lib
              Demo.built) as (Hprior & _ & Hfail).
  split; [apply Hprior; reflexivity|apply Hfail; reflexivity].
Defined.

(** C4, counter-example: the state of the first joined room cannot be
    read; the rebuild throws, and the auditorium, a room of the second
    batch whose record is read and matches, is not in the catalog. *)
Lemma read_failure_aborts_rebuild :
  getJoinedRooms Demo.crowded
  = Some ("!gone:x" :: Demo.fillers ++ ["!room1:x"])
  ∧ getRoomStateEvent Demo.crowded "!gone:x" "m.room.create" (Some "") = None
  ∧ getRoomStateEvent Demo.crowded "!room1:x" "m.room.create" (Some "")
    = Some (Demo.creation "X" KAuditorium (Some "A1") None None)
  ∧ construct Demo.crowded Demo.config Demo.lib (Demo.emptyCatalog "X")
    = (None, Demo.emptyCatalog "X").
Proof. vm_compute. repeat split. Qed.

(** C4, amended: a room of another conference is passed over; the three
    readable rooms are all classified; with the unreadable first room,
    whose read settles first, the rebuild throws before any room is
    classified. *)
Lemma construct_partial_failure_witness :
  classifyRoom Demo.crowded "!r01:x" (Demo.emptyCatalog "X")
  = (Some (), Demo.emptyCatalog "X")
  ∧ batchLoop Demo.client 3 0 ["!room1:x"; "!room2:x"; "!db:x"]
      (reset Demo.built)
    = (Some (),
       foldl (classified Demo.client) (reset Demo.built)
         ["!room1:x"; "!room2:x"; "!db:x"])
  ∧ construct Demo.crowded Demo.config Demo.lib Demo.built
    = (None, reset Demo.built).
Proof.
  destruct (construct_partial_failure Demo.crowded Demo.config Demo.lib
              Demo.built ("!gone:x" :: Demo.fillers ++ ["!room1:x"])
              eq_refl) as (Hskip & _ & _ & Hfail).
  destruct (construct_partial_failure Demo.client Demo.config Demo.lib
              Demo.built ["!room1:x"; "!room2:x"; "!db:x"] eq_refl)
    as (_ & _ & Hall & _).
  split; [|split].
  - apply (Hskip "!r01:x"
             (Demo.creation "Z" KTalk None (Some "T9") None)
             (Demo.emptyCatalog "X")); [reflexivity|discriminate].
  - apply Hall. reflexivity.
  - apply (Hfail [] "!gone:x" (Demo.fillers ++ ["!room1:x"]));
      reflexivity.
Defined.



(** C10 on the same room: the target listed with level 0 is sent back with
    50. *)
Lemma zero_level_is_regranted_witness :
  ∃ merged,
    (ensurePermissionsFor Demo.client Demo.config
       [Demo.target (Some Demo.mallory) "p4"] "!room1:x" (Demo.built, [])).2
    = (Demo.built,
       [SendStateEvent "!room1:x" "m.room.power_levels" ""
          (set_users merged
             (set_users {[ Demo.alice := 100%Z; Demo.mallory := 0%Z ]}
                emptyContent))])
    ∧ merged !! Demo.mallory = Some 50%Z.
Proof.
  apply (zero_level_is_regranted Demo.client Demo.config
           [Demo.target (Some Demo.mallory) "p4"] "!room1:x"
           (set_users {[ Demo.alice := 100%Z; Demo.mallory := 0%Z ]}
              emptyContent)
           {[ Demo.alice := 100%Z; Demo.mallory := 0%Z ]}
           Demo.mallory (Demo.built, [])).
  - reflexivity.
  - reflexivity.
  - split; [discriminate|]. exists (Demo.target (Some Demo.mallory) "p4").
    split; [apply elem_of_cons; by left|reflexivity].
  - discriminate.
  - discriminate.
  - reflexivity.
Defined.

(** C6, counter-example.  A member event of the room has no membership:
    [ensureInvited] throws, and no invite is asked for a target that has
    neither joined nor a pending invite.  And in the room of the examples,
    the invite of "p6" fails and the failure cannot be logged: the loop is
    left, and no invite is asked for the target after it. *)
Lemma invite_failure_aborts :
  (ensureInvited Demo.redacted Demo.lib "!redacted:x"
     [Demo.target None "p9"] []
   = (None, [])
   ∧ ∃ state,
       getRoomState Demo.redacted "!redacted:x" = Some state
       ∧ ¬ hasJoined Demo.lib state (Demo.target None "p9")
       ∧ ¬ hasPendingInvite state (Demo.target None "p9"))
  ∧ ensureInvited Demo.client Demo.lib "!room1:x"
      [Demo.target None "p6"; Demo.target (Some Demo.mallory) "p4"] []
    = (None,
       [InvitePersonToRoom (Demo.target None "p6") "!room1:x";
        LogError (Demo.target None "p6") "!room1:x"]).
Proof.
  split; [split|]; [vm_compute; reflexivity| |vm_compute; reflexivity].
  eexists. split; [reflexivity|]. split.
  - by intros (user & s & [=] & _).
  - intros (_ & s & Hs & Hty & _).
    apply elem_of_cons in Hs as [->|Hs]; [discriminate Hty|].
    by apply elem_of_nil in Hs.
Qed.

(** C6, amended: of four targets, the one who joined and the one with a
    pending invite are passed over; the invite after the failed one, whose
    failure is logged, is still asked for. *)
Lemma ensureInvited_spec_witness :
  ∃ added,
    (ensureInvited Demo.client Demo.lib "!room1:x"
       [Demo.target (Some Demo.alice) "p0"; Demo.target None "p1";
        Demo.target None "p3"; Demo.target (Some Demo.mallory) "p4"] []).2
    = added
    ∧ (InvitePersonToRoom (Demo.target (Some Demo.alice) "p0") "!room1:x"
       ∉ added)
    ∧ (InvitePersonToRoom (Demo.target None "p1") "!room1:x" ∉ added)
    ∧ (InvitePersonToRoom (Demo.target (Some Demo.mallory) "p4") "!room1:x"
       ∈ added).
Proof.
  destruct (ensureInvited_spec Demo.client Demo.lib "!room1:x"
              [Demo.target (Some Demo.alice) "p0"; Demo.target None "p1";
               Demo.target None "p3"; Demo.target (Some Demo.mallory) "p4"]
              Demo.room1 [] eq_refl)
    as (_ & Hreadable).
  assert (membershipsReadable Demo.lib Demo.room1) as Hmembers.
  { intros s Hs Hty. unfold Demo.room1 in Hs.
    repeat (apply elem_of_cons in Hs as [->|Hs];
            [first [discriminate Hty|vm_compute; eauto]|]).
    by apply elem_of_nil in Hs. }
  destruct (Hreadable Hmembers) as (added & Hrun & Hskip & Hinvite & _).
  exists added. split; [exact Hrun|]. split; [|split].
  - apply Hskip. left. exists Demo.alice.
    exists (Demo.stateEvent "m.room.member" Demo.alice Demo.alice
              (Demo.member "join" None)).
    split; [reflexivity|]. split; [discriminate|].
    split; [apply list_elem_of_In; simpl; auto 10|].
    repeat split.
  - apply Hskip. right. split; [discriminate|].
    exists (Demo.stateEvent "m.room.third_party_invite" "tok1" Demo.bot
              (Demo.inviteRecord "p1")).
    split; [apply list_elem_of_In; simpl; auto 10|].
    split; reflexivity.
  - apply (Hinvite [Demo.target (Some Demo.alice) "p0";
                    Demo.target None "p1"; Demo.target None "p3"]
             (Demo.target (Some Demo.mallory) "p4") []); [reflexivity| | |].
    + intros (user & s & [= <-] & _ & Hs & _ & Hjoin & Hfor).
      revert Hjoin Hfor. unfold Demo.room1 in Hs.
      repeat (apply elem_of_cons in Hs as [->|Hs]; [vm_compute; congruence|]).
      by apply elem_of_nil in Hs.
    + intros (_ & s & Hs & _ & Hpid). revert Hpid. unfold Demo.room1 in Hs.
      repeat (apply elem_of_cons in Hs as [->|Hs]; [vm_compute; congruence|]).
      by apply elem_of_nil in Hs.
    + intros t Ht. right; right.
      repeat (apply elem_of_cons in Ht as [->|Ht]; [reflexivity|]).
      by apply elem_of_nil in Ht.
Defined.

(** C7: the auditorium of conference X is put under its identifier, the
    talk of conference Y is passed over, and the rebuild has the auditorium
    in its slot. *)
Lemma classifier_correct_witness :
  classifyRoom Demo.client "!room1:x" (Demo.emptyCatalog "X")
  = (Some (),
     set_auditoriums {[ "A1" := {| aud_roomId := "!room1:x" |} ]}
       (Demo.emptyCatalog "X"))
  ∧ classifyRoom Demo.client "!room2:x" (Demo.emptyCatalog "X")
    = (Some (), Demo.emptyCatalog "X")
  ∧ holds
      (construct Demo.client Demo.config Demo.lib (Demo.emptyCatalog "X")).2
      (AuditoriumSlot "A1") "!room1:x".
Proof.
  destruct (classifier_correct Demo.client Demo.config Demo.lib "!room1:x"
              (Demo.creation "X" KAuditorium (Some "A1") None None)
              (Demo.emptyCatalog "X") eq_refl)
    as (Hmatch & _ & _ & Hrebuild).
  destruct (Hmatch eq_refl) as (_ & Haud & _).
  destruct (classifier_correct Demo.client Demo.config Demo.lib "!room2:x"
              (Demo.creation "Y" KTalk None (Some "T1") None)
              (Demo.emptyCatalog "X") eq_refl) as (_ & Hother & _).
  split; [apply (Haud "A1"); reflexivity|].
  split; [apply Hother; discriminate|].
  apply (Hrebuild ["!room1:x"; "!room2:x"; "!db:x"]);
    [reflexivity|reflexivity| | |reflexivity].
  - intros r1 r2 H1 H2 Hne.
    repeat (apply elem_of_cons in H1 as [->|H1]);
      try (by apply elem_of_nil in H1);
      repeat (apply elem_of_cons in H2 as [->|H2]);
      try (by apply elem_of_nil in H2);
      first [done|left; reflexivity|right; vm_compute; discriminate].
  - apply elem_of_cons. by left.
Defined.

(** C8: the redemption in the room of the auditorium "A1" writes the
    person found and then asks for the moderators of the auditorium, the
    coordinator "p1" with the identity just associated. *)
Lemma entity_lookup_order_witness :
  (onRoomEvent Demo.client Demo.db Demo.lib "!room1:x"
     (Demo.redemption "tok1" Demo.alice) (Demo.built, [])).2.2
  = [SendStateEvent "!db:x" "org.matrix.confbot.person" "p1"
       (personContent {| pentaId := Some "p1"; userId := Some Demo.alice |});
     EnsureModerator "!room1:x"
       [{| mxid := Some Demo.alice;
           person := set_matrix_id (Some Demo.alice) Demo.p1 |}]].
Proof.
  destruct (entity_lookup_order Demo.client Demo.db Demo.lib "!room1:x"
              (Demo.redemption "tok1" Demo.alice) (Demo.built, [])
              (onRoomEvent Demo.client Demo.db Demo.lib "!room1:x"
                 (Demo.redemption "tok1" Demo.alice) (Demo.built, [])).2)
    as (tok & pid & found & s1 & Htok & Hrec & Hdb & Hstamp & Haud & _).
  { vm_compute. reflexivity. }
  destruct Htok as [_ (invite & sg & [= <-] & [= <-] & [= <-])].
  destruct Hrec as (emailInvite & [= <-] & [= <-] & _).
  injection Hdb as <-.
  assert (auditoriumOf Demo.built "!room1:x") as Hin
    by (exists "A1", {| aud_roomId := "!room1:x" |}; by split).
  destruct (Haud Hin) as (mods & resolved & Hmods & Hresolved & Hrun).
  vm_compute in Hstamp. injection Hstamp as <-.
  vm_compute in Hmods. injection Hmods as <-.
  vm_compute in Hresolved. injection Hresolved as <-.
  rewrite Hrun. vm_compute. reflexivity.
Defined.

(** C9, counter-example.  Two joined rooms say they are the auditorium
    "A1"; the rooms and their states are the same in both rebuilds, but the
    reads settle in another order in the second: the first rebuild leaves
    one room as the auditorium, the second the other.  And with a joined
    room that cannot be read, next to one auditorium, both rebuilds throw:
    the first before the auditorium is classified, the second after. *)
Lemma rebuild_order_shows :
  (sameAnswers Demo.twins (Demo.lastFirst Demo.twins)
   ∧ construct Demo.twins Demo.config Demo.lib (Demo.emptyCatalog "X")
     = (Some (),
        set_auditoriums {[ "A1" := {| aud_roomId := "!b:x" |} ]}
          (Demo.emptyCatalog "X"))
   ∧ construct (Demo.lastFirst Demo.twins) Demo.config Demo.lib
       (construct Demo.twins Demo.config Demo.lib (Demo.emptyCatalog "X")).2
     = (Some (),
        set_auditoriums {[ "A1" := {| aud_roomId := "!a:x" |} ]}
          (Demo.emptyCatalog "X"))
   ∧ set_auditoriums {[ "A1" := {| aud_roomId := "!b:x" |} ]}
       (Demo.emptyCatalog "X")
     ≠ set_auditoriums {[ "A1" := {| aud_roomId := "!a:x" |} ]}
         (Demo.emptyCatalog "X"))
  ∧ (sameAnswers Demo.flaky (Demo.lastFirst Demo.flaky)
     ∧ construct Demo.flaky Demo.config Demo.lib (Demo.emptyCatalog "X")
       = (None, Demo.emptyCatalog "X")
     ∧ construct (Demo.lastFirst Demo.flaky) Demo.config Demo.lib
         (construct Demo.flaky Demo.config Demo.lib
            (Demo.emptyCatalog "X")).2
       = (None,
          set_auditoriums {[ "A1" := {| aud_roomId := "!room1:x" |} ]}
            (Demo.emptyCatalog "X"))
     ∧ Demo.emptyCatalog "X"
       ≠ set_auditoriums {[ "A1" := {| aud_roomId := "!room1:x" |} ]}
           (Demo.emptyCatalog "X")).
Proof.
  split.
  - split; [by repeat split|].
    split; [vm_compute; reflexivity|]. split; [vm_compute; reflexivity|].
    intros H. apply (f_equal (λ c, auditoriums c !! "A1")) in H.
    vm_compute in H. discriminate H.
  - split; [by repeat split|].
    split; [vm_compute; reflexivity|]. split; [vm_compute; reflexivity|].
    intros H. apply (f_equal (λ c, auditoriums c !! "A1")) in H.
    vm_compute in H. discriminate H.
Qed.

(** C9, amended, on the homeserver of the examples, whose joined rooms
    claim different slots: a second rebuild whose reads settle in another
    order leaves the catalog of the first. *)
Lemma construct_idempotent_witness :
  construct (Demo.lastFirst Demo.client) Demo.config Demo.lib
    (construct Demo.client Demo.config Demo.lib (Demo.emptyCatalog "X")).2
  = construct Demo.client Demo.config Demo.lib (Demo.emptyCatalog "X").
Proof.
  apply (construct_idempotent Demo.client (Demo.lastFirst Demo.client)
           Demo.config Demo.lib (Demo.emptyCatalog "X")).
  - by repeat split.
  - intros roomIds [= <-] r1 r2 H1 H2 Hne.
    repeat (apply elem_of_cons in H1 as [->|H1]);
      try (by apply elem_of_nil in H1);
      repeat (apply elem_of_cons in H2 as [->|H2]);
      try (by apply elem_of_nil in H2);
      first [done|left; reflexivity|right; vm_compute; discriminate].
  - vm_compute. reflexivity.
Defined.

(** * Further properties of the code *)

(** ** The loop that drops the people already seen *)

Lemma existsb_seen (newPeople : list IDbPerson) (k : string) :
  existsb (λ n, bool_decide (person_id n = k)) newPeople = true
  ↔ k ∈ person_id <$> newPeople.
Proof.
  rewrite existsb_exists, list_elem_of_fmap. split.
  - intros (n & Hn & Hk). apply bool_decide_eq_true in Hk.
    exists n. by rewrite list_elem_of_In.
  - intros (n & -> & Hn). exists n.
    split; [by apply list_elem_of_In|by apply bool_decide_eq_true].
Qed.

Lemma pushUnseen_seen newPeople p :
  person_id p ∈ person_id <$> newPeople → pushUnseen newPeople p = newPeople.
Proof.
  intros Hseen. unfold pushUnseen.
  by rewrite (proj2 (existsb_seen newPeople (person_id p)) Hseen).
Qed.

Lemma pushUnseen_unseen newPeople p :
  person_id p ∉ person_id <$> newPeople →
  pushUnseen newPeople p = newPeople ++ [p].
Proof.
  intros Hunseen. unfold pushUnseen.
  destruct (existsb _ newPeople) eqn:Hex; [|done].
  by apply existsb_seen in Hex.
Qed.

Lemma foldl_pushUnseen_ids people newPeople k :
  k ∈ person_id <$> foldl pushUnseen newPeople people
  ↔ k ∈ person_id <$> newPeople ∨ k ∈ person_id <$> people.
Proof.
  revert newPeople. induction people as [|p people IH]; intros newPeople.
  - simpl. rewrite elem_of_nil. tauto.
  - simpl. rewrite IH, elem_of_cons.
    destruct (decide (person_id p ∈ person_id <$> newPeople)) as [Hp|Hp].
    + rewrite pushUnseen_seen by done. split; [tauto|].
      intros [?|[->|?]]; auto.
    + rewrite pushUnseen_unseen by done.
      rewrite fmap_app, elem_of_app. simpl.
      rewrite elem_of_cons, elem_of_nil. tauto.
Qed.

Lemma foldl_pushUnseen_NoDup people newPeople :
  NoDup (person_id <$> newPeople) →
  NoDup (person_id <$> foldl pushUnseen newPeople people).
Proof.
  revert newPeople. induction people as [|p people IH]; intros newPeople Hnd.
  - done.
  - simpl. apply IH.
    destruct (decide (person_id p ∈ person_id <$> newPeople)) as [Hp|Hp].
    + by rewrite pushUnseen_seen.
    + rewrite pushUnseen_unseen by done. rewrite fmap_app.
      apply NoDup_app. split; [done|]. split.
      * intros k Hk [->|[]%elem_of_nil]%elem_of_cons. done.
      * apply NoDup_singleton.
Qed.

Lemma foldl_pushUnseen_first people newPeople q :
  q ∈ foldl pushUnseen newPeople people →
  q ∈ newPeople
  ∨ ((person_id q ∉ person_id <$> newPeople)
     ∧ ∃ i, people !! i = Some q
            ∧ ∀ j p, j < i → people !! j = Some p →
                person_id p ≠ person_id q).
Proof.
  revert newPeople. induction people as [|x people IH]; intros newPeople Hq.
  - by left.
  - simpl in Hq.
    destruct (decide (person_id x ∈ person_id <$> newPeople)) as [Hx|Hx].
    + rewrite pushUnseen_seen in Hq by done.
      destruct (IH _ Hq) as [?|(Hnew & i & Hi & Hfirst)]; [by left|].
      right. split; [done|]. exists (S i). split; [done|].
      intros [|j] p Hj Hp.
      * assert (p = x) as -> by (simpl in Hp; congruence).
        intros Heq. by rewrite Heq in Hx.
      * apply (Hfirst j); [lia|done].
    + rewrite pushUnseen_unseen in Hq by done.
      destruct (IH _ Hq) as [Hin|(Hnew & i & Hi & Hfirst)].
      * apply elem_of_app in Hin as [?|Hin]; [by left|].
        apply elem_of_cons in Hin as [->|[]%elem_of_nil].
        right. split; [done|]. exists 0. split; [done|]. intros; lia.
      * rewrite fmap_app, elem_of_app in Hnew.
        right. split; [tauto|]. exists (S i). split; [done|].
        intros [|j] p Hj Hp.
        -- assert (p = x) as -> by (simpl in Hp; congruence).
           intros Heq. apply Hnew. right.
           rewrite <- Heq. apply elem_of_cons. by left.
        -- apply (Hfirst j); [lia|done].
Qed.

Lemma foldl_pushUnseen_sublist people newPeople :
  ∃ kept, foldl pushUnseen newPeople people = newPeople ++ kept
          ∧ kept `sublist_of` people.
Proof.
  revert newPeople. induction people as [|p people IH]; intros newPeople.
  - exists []. by rewrite app_nil_r.
  - simpl.
    destruct (decide (person_id p ∈ person_id <$> newPeople)) as [Hp|Hp].
    + rewrite pushUnseen_seen by done.
      destruct (IH newPeople) as (kept & -> & Hsub).
      exists kept. split; [done|]. by apply sublist_cons.
    + rewrite pushUnseen_unseen by done.
      destruct (IH (newPeople ++ [p])) as (kept & -> & Hsub).
      exists (p :: kept). rewrite <- app_assoc. split; [done|].
      by apply sublist_skip.
Qed.

(** X1.  The people kept by the loop have different person IDs, and the
    person IDs kept are those of the list. *)
Theorem dropSeen_distinct people :
  NoDup (person_id <$> dropSeen people)
  ∧ ∀ k, k ∈ person_id <$> dropSeen people ↔ k ∈ person_id <$> people.
Proof.
  split.
  - apply foldl_pushUnseen_NoDup. constructor.
  - intros k. unfold dropSeen. rewrite foldl_pushUnseen_ids.
    simpl. rewrite elem_of_nil. tauto.
Qed.

(** X2.  The loop keeps people in the order of the list, and for each
    person ID it keeps the first person of the list that has it. *)
Theorem dropSeen_first people :
  dropSeen people `sublist_of` people
  ∧ ∀ q, q ∈ dropSeen people →
      ∃ i, people !! i = Some q
           ∧ ∀ j p, j < i → people !! j = Some p →
               person_id p ≠ person_id q.
Proof.
  split.
  - destruct (foldl_pushUnseen_sublist people []) as (kept & Heq & Hsub).
    unfold dropSeen. by rewrite Heq.
  - intros q Hq.
    destruct (foldl_pushUnseen_first people [] q Hq)
      as [[]%elem_of_nil|(_ & Hfirst)].
    done.
Qed.

(** X3.  The number of people kept, which the counting command reports, is
    the number of different person IDs in the list; and running the loop on
    its own result changes nothing. *)
Theorem dropSeen_count people :
  length (dropSeen people)
  = size (list_to_set (person_id <$> people) : gset string)
  ∧ dropSeen (dropSeen people) = dropSeen people.
Proof.
  assert (NoDup (person_id <$> dropSeen people)) as Hnd
    by (apply foldl_pushUnseen_NoDup; constructor).
  split.
  - rewrite <- (length_fmap person_id), <- (size_list_to_set (C:=gset string))
      by done.
    f_equal. apply set_eq. intros k.
    rewrite !elem_of_list_to_set. unfold dropSeen.
    rewrite foldl_pushUnseen_ids. simpl. rewrite elem_of_nil. tauto.
  - assert (∀ l acc,
              NoDup (person_id <$> (acc ++ l)) →
              foldl pushUnseen acc l = acc ++ l) as Hid.
    { induction l as [|p l IH]; intros acc Hacc; simpl.
      - by rewrite app_nil_r.
      - rewrite pushUnseen_unseen.
        + rewrite IH; rewrite <- app_assoc; done.
        + rewrite fmap_app in Hacc. apply NoDup_app in Hacc as (_ & Hnot & _).
          intros Hin. apply (Hnot _ Hin). simpl. apply elem_of_cons. by left. }
    by apply (Hid _ []).
Qed.

(** ** People and their roles *)

Section People.
Context (db : DBBackend) (lib : Imports) (env : Surroundings).

(** X4.  [resolvePeople] returns the people of the list in the same order,
    with their person IDs and roles; a person with an identity from the
    database is returned as it is, whatever the cache holds; a person
    without one gets the identity of the cache, if the cache has one. *)
Theorem resolvePeople_identity this found :
  length (resolvePeople this found) = length found
  ∧ ∀ i p, found !! i = Some p →
      ∃ p', resolvePeople this found !! i = Some p'
        ∧ person_id p' = person_id p ∧ event_role p' = event_role p
        ∧ (truthy (matrix_id p) = true → p' = p)
        ∧ (truthy (matrix_id p) = false →
             (cachedIdentity this (person_id p) →
                ∃ stored, people this !! person_id p = Some stored
                          ∧ matrix_id p' = userId stored)
             ∧ (¬ cachedIdentity this (person_id p) → p' = p)).
Proof.
  unfold resolvePeople. split; [by rewrite length_map|].
  intros i p Hi. rewrite list_lookup_fmap, Hi. simpl. eexists.
  split; [done|]. unfold getPerson, cachedIdentity.
  destruct (truthy (matrix_id p)) eqn:Hdb.
  { do 3 (split; [done|]). done. }
  destruct (people this !! person_id p) as [stored|] eqn:Hstored.
  - destruct (truthy (userId stored)) eqn:Hcache; simpl.
    + do 3 (split; [done|]). intros _. split; [eauto|].
      intros []. eauto.
    + do 3 (split; [done|]). intros _. split; [|done].
      intros (stored' & [= <-] & Hid). congruence.
  - do 3 (split; [done|]). intros _. split; [|done].
    by intros (stored' & [=] & _).
Qed.

(** X5.  Resolving the people again, against the same cache, changes
    nothing. *)
Theorem resolvePeople_idempotent this found :
  resolvePeople this (resolvePeople this found) = resolvePeople this found.
Proof.
  unfold resolvePeople. rewrite map_map. apply map_ext. intros p.
  destruct (truthy (matrix_id p)) eqn:Hdb; [by rewrite Hdb|].
  unfold getPerson.
  destruct (people this !! person_id p) as [stored|] eqn:Hstored.
  - destruct (truthy (userId stored)) eqn:Hcache; simpl.
    + by rewrite Hcache.
    + by rewrite Hdb, Hstored, Hcache.
  - by rewrite Hdb, Hstored.
Qed.

Lemma filter_filter_sub {A} (f g : A → bool) (l : list A) :
  (∀ x, f x = true → g x = true) →
  List.filter f (List.filter g l) = List.filter f l.
Proof.
  intros Hfg. induction l as [|x l IH]; simpl; [done|].
  destruct (g x) eqn:Hg, (f x) eqn:Hf; simpl; rewrite ?Hf, ?IH; try done.
  apply Hfg in Hf. congruence.
Qed.

(** X6.  The moderators of an auditorium, a talk or an interest room are
    among its invite targets: they are the invite targets that are
    coordinators (auditorium), all of them (talk), the hosts and
    coordinators among them (interest room); and each pair of queries
    fails together. *)
Theorem moderators_are_invite_targets s :
  (∀ auditorium,
     getModeratorsForAuditorium db lib auditorium s
     = bind (getInviteTargetsForAuditorium db lib auditorium)
         (λ targets, ret (List.filter isCoordinator targets)) s)
  ∧ (∀ talk,
       getModeratorsForTalk db lib talk s
       = getInviteTargetsForTalk db lib talk s)
  ∧ (∀ int,
       getModeratorsForInterest db env int s
       = bind (getInviteTargetsForInterest db env int)
           (λ targets, ret (List.filter isHostOrCoordinator targets)) s).
Proof.
  split; [|split].
  - intros auditorium.
    unfold getModeratorsForAuditorium, getInviteTargetsForAuditorium, bind.
    destruct (getPeopleForAuditorium db lib auditorium s) as [[found|] s'];
      [|done].
    unfold ret. f_equal. f_equal. symmetry.
    apply filter_filter_sub. unfold isCoordinator, isSpeakerHostOrCoordinator.
    intros p. by destruct (event_role p).
  - intros talk. unfold getModeratorsForTalk, getInviteTargetsForTalk, bind.
    destruct (getPeopleForTalk db lib talk s) as [[found|] s']; [|done].
    done.
  - intros int.
    unfold getModeratorsForInterest, getInviteTargetsForInterest, bind.
    destruct (getPeopleForInterest db env int s) as [[found|] s']; [|done].
    unfold ret. f_equal. f_equal. symmetry.
    apply filter_filter_sub.
    unfold isHostOrCoordinator, isSpeakerHostOrCoordinator.
    intros p. by destruct (event_role p).
Qed.

(** ** The parent space of an auditorium or interest room *)

Lemma forPrefixes_spec this subspaceId prefixes id :
  forPrefixes this subspaceId prefixes id
  = if existsb (λ prefix, String.prefix prefix id) prefixes
    then Some (subspaceOrError this subspaceId)
    else None.
Proof.
  induction prefixes as [|prefix prefixes IH]; simpl; [done|].
  destruct (String.prefix prefix id); simpl; [|done].
  unfold subspaceOrError, hasProperty.
  by destruct (getProperty (subspaces this) subspaceId).
Qed.

Lemma forSubspaces_spec this entries id :
  forSubspaces this entries id
  = match fst <$> find (λ entry, existsb (λ prefix, String.prefix prefix id)
                                         (snd entry)) entries with
    | Some subspaceId => Some (subspaceOrError this subspaceId)
    | None => None
    end.
Proof.
  induction entries as [|[subspaceId prefixes] entries IH]; simpl; [done|].
  rewrite forPrefixes_spec.
  by destruct (existsb _ prefixes).
Qed.

(** X7.  [getDesiredParentSpace] is decided by the first configured
    subspace that has a prefix of the id, in the order of the
    configuration, without looking at later subspaces or at the conference
    space.  It gives that subspace when the catalog has it.  When the
    catalog has not, it throws, naming the subspace, unless the subspace
    is named like a property of [Object.prototype]: then it returns the
    value inherited under that name, which is no space.  When no subspace
    has a prefix of the id, it gives the conference space, and throws when
    there is none. *)
Theorem getDesiredParentSpace_decided this id :
  getDesiredParentSpace env this id
  = match decidingSubspace env id with
    | Some subspaceId =>
        match subspaces this !! subspaceId with
        | Some subspace => Parent (Own subspace)
        | None =>
            if inherited subspaceId then Parent (Inherited subspaceId)
            else NotCreatedYet subspaceId
        end
    | None =>
        match Conference_getSpace env this with
        | Some space => Parent (Own space)
        | None => NoConferenceSpace
        end
    end.
Proof.
  unfold getDesiredParentSpace, decidingSubspace.
  rewrite forSubspaces_spec.
  destruct (fst <$> find _ (subspaces_prefixes env)) as [subspaceId|];
    [|done].
  unfold subspaceOrError, getProperty.
  destruct (subspaces this !! subspaceId); [done|].
  by destruct (inherited subspaceId).
Qed.

(** X8.  A subspace configured with the empty prefix takes every id that no
    subspace before it takes: the conference space is then never looked
    at, and the parent is the deciding subspace, or the value inherited
    under its name, or the call throws, naming it. *)
Theorem getDesiredParentSpace_empty_prefix this id subspaceId prefixes :
  (subspaceId, prefixes) ∈ subspaces_prefixes env → "" ∈ prefixes →
  ∃ decides,
    decidingSubspace env id = Some decides
    ∧ getDesiredParentSpace env this id
      = match subspaces this !! decides with
        | Some subspace => Parent (Own subspace)
        | None =>
            if inherited decides then Parent (Inherited decides)
            else NotCreatedYet decides
        end.
Proof.
  intros Hentry Hempty.
  assert (∃ decides, decidingSubspace env id = Some decides) as [decides Hd].
  { unfold decidingSubspace.
    destruct (find _ (subspaces_prefixes env)) as [[decides ?]|] eqn:Hfind;
      [by exists decides|].
    apply (find_None _ _ _ Hfind) in Hentry. simpl in Hentry.
    assert (existsb (λ prefix, String.prefix prefix id) prefixes = true)
      as Hex; [|congruence].
    apply existsb_exists. exists "". split; [by apply list_elem_of_In|].
    by destruct id. }
  exists decides. split; [done|].
  unfold getDesiredParentSpace. rewrite forSubspaces_spec.
  unfold decidingSubspace in Hd. rewrite Hd.
  unfold subspaceOrError, getProperty.
  destruct (subspaces this !! decides); [done|].
  by destruct (inherited decides).
Qed.
End People.

(** ** The power levels written *)

Lemma mergeUsers_lookup client config targets users0 user :
  mergeUsers client config targets users0 !! user
  = if bool_decide (user = moderatorUserId config)
       || bool_decide (user = getUserId client)
    then Some 100%Z
    else if bool_decide (user ∈ targetIds targets)
              && negb (truthyLevel (users0 !! user))
    then Some 50%Z
    else users0 !! user.
Proof.
  unfold mergeUsers. rewrite grantModerators_lookup.
  destruct (decide (user = moderatorUserId config)) as [->|Hmod].
  { rewrite lookup_insert_eq. simpl.
    rewrite (bool_decide_eq_true_2 (_ = _)) by done.
    by rewrite andb_false_r. }
  rewrite lookup_insert_ne by done.
  rewrite (bool_decide_eq_false_2 (user = moderatorUserId config)) by done.
  destruct (decide (user = getUserId client)) as [->|Hme].
  { rewrite lookup_insert_eq. simpl.
    rewrite (bool_decide_eq_true_2 (_ = _)) by done.
    by rewrite andb_false_r. }
  rewrite lookup_insert_ne by done.
  by rewrite (bool_decide_eq_false_2 (user = getUserId client)) by done.
Qed.

Lemma ensurePermissionsFor_writes client config targets roomId pls users0 s :
  getRoomStateEvent client roomId "m.room.power_levels" (Some "")
    = Some pls →
  users pls = Some users0 →
  ensurePermissionsFor client config targets roomId s
  = (if sendStateEvent client roomId "m.room.power_levels" ""
          (set_users (mergeUsers client config targets users0) pls)
     then Some () else None,
     (s.1, s.2 ++ [SendStateEvent roomId "m.room.power_levels" ""
                     (set_users (mergeUsers client config targets users0)
                        pls)])).
Proof.
  intros Hread Husers.
  by rewrite (ensurePermissionsFor_run client config targets roomId pls
                users0 s Hread Husers).
Qed.

(** X9.  Calling [ensurePermissionsFor] again, with the same targets, on
    the power levels it wrote, writes the same power levels: the merge of a
    merged map is that map. *)
Theorem ensurePermissionsFor_again client config targets roomId pls users0 s
    (client' : MatrixClient) s' :
  getRoomStateEvent client roomId "m.room.power_levels" (Some "")
    = Some pls →
  users pls = Some users0 →
  getUserId client' = getUserId client →
  getRoomStateEvent client' roomId "m.room.power_levels" (Some "")
    = Some (set_users (mergeUsers client config targets users0) pls) →
  ∃ written,
    (ensurePermissionsFor client config targets roomId s).2
    = (s.1, s.2 ++ [SendStateEvent roomId "m.room.power_levels" "" written])
    ∧ (ensurePermissionsFor client' config targets roomId s').2
      = (s'.1,
         s'.2 ++ [SendStateEvent roomId "m.room.power_levels" "" written]).
Proof.
  intros Hread Husers Hme Hread'.
  assert (mergeUsers client' config targets
            (mergeUsers client config targets users0)
          = mergeUsers client config targets users0) as Hagain.
  { apply map_eq. intros user. rewrite !mergeUsers_lookup, Hme.
    destruct (bool_decide (user = moderatorUserId config)
              || bool_decide (user = getUserId client)); [done|].
    destruct (bool_decide (user ∈ targetIds targets)); simpl; [|done].
    destruct (truthyLevel (users0 !! user)) eqn:Hlevel; simpl.
    - by rewrite Hlevel.
    - done. }
  eexists. split.
  - by rewrite (ensurePermissionsFor_writes client config targets roomId
                  pls users0 s Hread Husers).
  - rewrite (ensurePermissionsFor_writes client' config targets roomId
               _ _ s' Hread' eq_refl).
    simpl. by rewrite Hagain.
Qed.

(** X10.  Only which identities are targets matters to what is written,
    not their order or how often they are listed. *)
Theorem mergeUsers_targets_set client config targets targets' users0 :
  (∀ user, isTarget targets user ↔ isTarget targets' user) →
  mergeUsers client config targets users0
  = mergeUsers client config targets' users0.
Proof.
  intros Hsame. apply map_eq. intros user. rewrite !mergeUsers_lookup.
  assert (bool_decide (user ∈ targetIds targets)
          = bool_decide (user ∈ targetIds targets')) as ->; [|done].
  apply bool_decide_ext. unfold targetIds. by rewrite !mxids_target.
Qed.



(** ** The invites asked for *)

Lemma reached_invites lib roomId invited joined targets :
  invitesOf (concat (map (inviteRequests lib roomId invited joined)
                       (reached lib roomId invited joined targets)))
  = askedFor lib roomId
      (List.filter (λ t, negb (passedOver invited joined t)) targets)
  ∧ forallb (λ t, passedOver invited joined t || goesOn lib roomId t) targets
    = forallb (goesOn lib roomId)
        (List.filter (λ t, negb (passedOver invited joined t)) targets).
Proof.
  induction targets as [|t targets [IH1 IH2]]; [done|].
  cbn [reached List.filter forallb]. unfold invitesOf in *.
  destruct (passedOver invited joined t) eqn:Hpassed;
    destruct (goesOn lib roomId t) eqn:Hon;
    cbn [orb negb map concat forallb askedFor];
    rewrite ?Hon, omap_app, ?IH1, inviteRequests_passedOver, Hpassed;
    try (by split);
    destruct (invitePersonToRoom lib t roomId); by split.
Qed.

Lemma reached_logs lib roomId invited joined targets :
  logsOf (concat (map (inviteRequests lib roomId invited joined) targets))
  = List.filter (λ t, negb (invitePersonToRoom lib t roomId))
      (invitesOf (concat (map (inviteRequests lib roomId invited joined)
                            targets))).
Proof.
  induction targets as [|t targets IH]; [done|].
  cbn [map concat]. unfold invitesOf, logsOf in *.
  rewrite !omap_app, List.filter_app, IH, inviteRequests_passedOver.
  f_equal.
  destruct (passedOver invited joined t); simpl; [done|].
  destruct (invitePersonToRoom lib t roomId) eqn:Hinvite; simpl;
    by rewrite ?Hinvite.
Qed.

(** X13.  [ensureInvited] throws, having asked for nothing, when the room
    state cannot be read, and when the membership of one of its member
    events cannot be read.  Otherwise the joined and invited sets are
    those of the state read before the loop, and the invites asked for are
    those of the targets not passed over, in the order of the list and as
    often as the list has them, up to the first one that fails and whose
    log entry fails too: there the call throws; without such a target it
    returns.  The log entries are those of the invites that failed, in the
    same order. *)
Theorem ensureInvited_in_order client lib roomId targets trace :
  match getRoomState client roomId with
  | None => ensureInvited client lib roomId targets trace = (None, trace)
  | Some state =>
      match effectiveJoinedUserIds lib state with
      | None => ensureInvited client lib roomId targets trace = (None, trace)
      | Some joined =>
          let todo :=
            List.filter
              (λ t, negb (passedOver (emailInvitePersonIds state) joined t))
              targets in
          ∃ added,
            ensureInvited client lib roomId targets trace
            = (if forallb (goesOn lib roomId) todo then Some () else None,
               trace ++ added)
            ∧ invitesOf added = askedFor lib roomId todo
            ∧ logsOf added
              = List.filter (λ t, negb (invitePersonToRoom lib t roomId))
                  (invitesOf added)
      end
  end.
Proof.
  unfold ensureInvited, bind, await.
  destruct (getRoomState client roomId) as [state|]; [|done].
  destruct (effectiveJoinedUserIds lib state) as [joined|]; [|done].
  cbv zeta. rewrite forOf_inviteTarget.
  destruct (reached_invites lib roomId (emailInvitePersonIds state) joined
              targets) as [Hinvites Hreturns].
  eexists. split; [by rewrite Hreturns|]. split; [done|].
  apply reached_logs.
Qed.

(** ** The requests of the handler *)

Section Handler.
Context (client : MatrixClient) (db : DBBackend) (lib : Imports).

(** The run of the handler on an event that passes every check. *)
Lemma onRoomEvent_found roomId event tok pid found s :
  carriesToken event tok → recordCarries client roomId tok pid →
  createdByAgent client roomId → inviteSentByAgent client roomId tok →
  findPeopleWithId db pid = Some found → found ≠ [] →
  onRoomEvent client db lib roomId event s
  = match associate client db lib roomId event found s with
    | (Some _, s') => (Applied, s')
    | (None, s') => (Incomplete, s')
    end.
Proof.
  intros [Hty (invite & sg & Hinv & Hsg & Htok)]
         (emailInvite & Hrec & Hpid & Hne)
         (state & created & Hstate & Hcreate & Hs1)
         (state' & invited & Hstate' & Hinvited & Hs2) Hdb Hfound.
  assert (state' = state) as -> by congruence.
  unfold onRoomEvent.
  rewrite bool_decide_eq_true_2 by done. rewrite Hinv, Hsg. simpl.
  rewrite Htok, Hrec, Hpid. simpl.
  rewrite bool_decide_eq_true_2 by done. rewrite Hstate, Hcreate. simpl.
  rewrite bool_decide_eq_true_2 by done. rewrite Hinvited. simpl.
  rewrite bool_decide_eq_true_2 by done. rewrite Hdb.
  by destruct found.
Qed.

Lemma stamp_run event p this trace :
  createUpdatePerson client lib (set_matrix_id (Some (state_key event)) p)
    (this, trace)
  = match dbRoom this with
    | None => (None, (this, trace))
    | Some room =>
        if stampAccepted client lib room event p
        then (Some (stamped event p),
              (set_people (<[person_id p := stamped event p]> (people this))
                 this,
               trace ++ [stampWrite lib room event p]))
        else (None, (this, trace ++ [stampWrite lib room event p]))
    end.
Proof. by rewrite createUpdatePerson_run. Qed.

Lemma stampAll_accepted event room written rest this trace :
  dbRoom this = Some room →
  Forall (λ q, stampAccepted client lib room event q = true) written →
  stampAll client lib event (written ++ rest) (this, trace)
  = stampAll client lib event rest
      (set_people (cacheStamped event written (people this)) this,
       trace ++ map (stampWrite lib room event) written).
Proof.
  intros Hroom Hall. revert this trace Hroom.
  induction Hall as [|q written Hq Hall IH]; intros this trace Hroom.
  - simpl. rewrite app_nil_r. by destruct this.
  - unfold stampAll in *. simpl. unfold bind at 1 2.
    rewrite stamp_run, Hroom, Hq. unfold ret.
    rewrite IH by done. simpl. by rewrite <- app_assoc.
Qed.

Lemma stampAll_refused event room p rest this trace :
  dbRoom this = Some room →
  stampAccepted client lib room event p = false →
  stampAll client lib event (p :: rest) (this, trace)
  = (None, (this, trace ++ [stampWrite lib room event p])).
Proof.
  intros Hroom Hp. unfold stampAll. simpl. unfold bind at 1 2.
  by rewrite stamp_run, Hroom, Hp.
Qed.

(** The loop writes the people found in order, up to the first write that
    is refused. *)
Lemma stampAll_writes event found room this trace :
  dbRoom this = Some room →
  ∃ written,
    written `prefix_of` found
    ∧ (stampAll client lib event found (this, trace)).2
      = (set_people
           (cacheStamped event
              (List.filter (stampAccepted client lib room event) written)
              (people this)) this,
         trace ++ map (stampWrite lib room event) written).
Proof.
  revert this trace. induction found as [|p found IH]; intros this trace Hroom.
  - exists []. split; [done|]. simpl. rewrite app_nil_r. by destruct this.
  - destruct (stampAccepted client lib room event p) eqn:Hp.
    + rewrite (stampAll_accepted event room [p] found) by (by repeat constructor).
      destruct (IH (set_people (cacheStamped event [p] (people this)) this)
                  (trace ++ map (stampWrite lib room event) [p]) Hroom)
        as (written & Hprefix & ->).
      exists (p :: written). split; [by apply prefix_cons|].
      simpl. rewrite Hp. simpl. by rewrite <- app_assoc.
    + rewrite (stampAll_refused event room) by done.
      exists [p]. split; [by apply prefix_cons, prefix_nil|].
      simpl. rewrite Hp. by destruct this.
Qed.

(** The permission step asks for one moderator update at most, for the
    room of the event. *)
Lemma updatePermissions_trace roomId s :
  ∃ moderation,
    (updatePermissions db lib roomId s).2 = (s.1, s.2 ++ moderation)
    ∧ (moderation = []
       ∨ ∃ resolved, moderation = [EnsureModerator roomId resolved]).
Proof.
  assert (∀ (m : M State (list IDbPerson)) s,
            preserves (λ s : State, s) m →
            ∃ moderation,
              (bind m (moderate lib roomId) s).2 = (s.1, s.2 ++ moderation)
              ∧ (moderation = []
                 ∨ ∃ resolved, moderation = [EnsureModerator roomId resolved]))
    as Hmoderate.
  { intros m s0 Hm. unfold bind. specialize (Hm s0).
    destruct (m s0) as [[mods|] s1]; simpl in Hm; subst s1.
    - unfold moderate, bind, await.
      destruct (resolveIdentifiers lib mods) as [resolved|].
      + destruct s0 as [this trace]. simpl. eauto.
      + exists []. rewrite app_nil_r. split; [by destruct s0|by left].
    - exists []. rewrite app_nil_r. split; [by destruct s0|by left]. }
  assert (∀ auditorium,
            preserves (λ s : State, s)
              (getModeratorsForAuditorium db lib auditorium)) as Haud.
  { intros auditorium.
    unfold getModeratorsForAuditorium, getPeopleForAuditorium.
    preserves_reads. }
  assert (∀ talk,
            preserves (λ s : State, s) (getModeratorsForTalk db lib talk))
    as Htalk.
  { intros talk. unfold getModeratorsForTalk, getPeopleForTalk.
    preserves_reads. }
  destruct s as [this trace].
  unfold updatePermissions, bind at 1, get.
  repeat case_match; try (by apply Hmoderate).
  exists []. simpl. rewrite app_nil_r. split; [done|by left].
Qed.

(** X14.  A genuine redemption in a conference that has no root room ends
    [Incomplete] at the first person found: nothing is written, nobody is
    associated and no permission is updated. *)
Theorem redemption_without_root_room roomId event s :
  genuine client db roomId event → dbRoom s.1 = None →
  onRoomEvent client db lib roomId event s = (Incomplete, s).
Proof.
  intros (tok & pid & Htok & Hrec & Hcreated & Hsent & person & rest & Hdb)
         Hroot.
  rewrite (onRoomEvent_found roomId event tok pid (person :: rest)) by done.
  rewrite associate_unfold. unfold bind at 1, stampAll. simpl.
  unfold bind at 1 2. destruct s as [this trace].
  rewrite stamp_run. simpl in Hroot. by rewrite Hroot.
Qed.

(** X15.  The association block writes the people found one after the
    other and stops at the first write the homeserver refuses: the run ends
    [Incomplete], the people before that one are written and cached with
    the redeeming identity, the people after it are not, and no permission
    update is asked for. *)
Theorem redemption_stops_at_refusal roomId event tok pid written p rest room
    this trace :
  carriesToken event tok → recordCarries client roomId tok pid →
  createdByAgent client roomId → inviteSentByAgent client roomId tok →
  findPeopleWithId db pid = Some (written ++ p :: rest) →
  dbRoom this = Some room →
  Forall (λ q, stampAccepted client lib room event q = true) written →
  stampAccepted client lib room event p = false →
  onRoomEvent client db lib roomId event (this, trace)
  = (Incomplete,
     (set_people (cacheStamped event written (people this)) this,
      trace ++ map (stampWrite lib room event) (written ++ [p]))).
Proof.
  intros Htok Hrec Hcreated Hsent Hdb Hroom Hwritten Hp.
  rewrite (onRoomEvent_found roomId event tok pid (written ++ p :: rest))
    by (done || by destruct written).
  rewrite associate_unfold. unfold bind at 1.
  rewrite (stampAll_accepted event room) by done.
  rewrite (stampAll_refused event room) by done.
  by rewrite map_app, app_assoc.
Qed.

(** X16.  Whatever the event, the handler changes nothing of the catalog
    but the cache of people, and asks for nothing but stored-person writes
    in the root room, each for the identity that redeemed, followed by one
    moderator update at most, for the room of the event. *)
Theorem onRoomEvent_requests roomId event s :
  ∃ cache writes moderation,
    (onRoomEvent client db lib roomId event s).2
    = (set_people cache s.1, s.2 ++ writes ++ moderation)
    ∧ Forall (λ e, ∃ room p,
                dbRoom s.1 = Some room ∧ e = stampWrite lib room event p)
        writes
    ∧ (moderation = []
       ∨ ∃ resolved, moderation = [EnsureModerator roomId resolved]).
Proof.
  destruct s as [this trace].
  assert (∃ cache, this = set_people cache this) as Hsame
    by (exists (people this); by destruct this).
  destruct (onRoomEvent_run client db lib roomId event (this, trace))
    as [[Hrun _]|[[Hrun _]
       |(_ & _ & _ & found & _ & _ & _ & _ & _ & _ & Hrun)]];
    rewrite Hrun.
  1, 2: destruct Hsame as [cache Hcache]; exists cache, [], [];
    simpl; rewrite app_nil_r, <- Hcache; auto.
  assert (∃ cache writes moderation,
            (associate client db lib roomId event found (this, trace)).2
            = (set_people cache this, trace ++ writes ++ moderation)
            ∧ Forall (λ e, ∃ room p,
                        dbRoom this = Some room
                        ∧ e = stampWrite lib room event p) writes
            ∧ (moderation = []
               ∨ ∃ resolved, moderation = [EnsureModerator roomId resolved]))
    as (cache & writes & moderation & Heq & Hwrites & Hmoderation).
  { rewrite associate_unfold. unfold bind.
    destruct (dbRoom this) as [room|] eqn:Hroom.
    - destruct (stampAll_writes event found room this trace Hroom)
        as (written & _ & Hstamp).
      destruct (stampAll client lib event found (this, trace))
        as [[[]|] s1]; simpl in Hstamp; subst s1.
      + destruct (updatePermissions_trace roomId
                    (set_people
                       (cacheStamped event
                          (List.filter (stampAccepted client lib room event)
                             written) (people this)) this,
                     trace ++ map (stampWrite lib room event) written))
          as (moderation & -> & Hmoderation).
        eexists _, _, moderation. simpl. rewrite <- app_assoc.
        split; [done|]. split; [|done].
        apply Forall_forall. intros e (p & -> & _)%list_elem_of_fmap. eauto.
      + eexists _, _, []. simpl. rewrite app_nil_r.
        split; [done|]. split; [|by left].
        apply Forall_forall. intros e (p & -> & _)%list_elem_of_fmap. eauto.
    - destruct found as [|p found].
      + simpl.
        destruct (updatePermissions_trace roomId (this, trace))
          as (moderation & Heq & Hmoderation).
        destruct Hsame as [cache Hcache].
        exists cache, [], moderation. simpl in *.
        rewrite Heq, <- Hcache. auto.
      + unfold stampAll. simpl. unfold bind at 1 2.
        rewrite stamp_run, Hroom. simpl.
        destruct Hsame as [cache Hcache]. exists cache, [], [].
        simpl. rewrite app_nil_r, <- Hcache. auto. }
  exists cache, writes, moderation.
  split; [|done].
  by destruct (associate client db lib roomId event found (this, trace))
    as [[[]|] s1].
Qed.
End Handler.

(** ** What a rebuild loads *)

Lemma forOf_total {S A} (l : list A) (body : A → M S unit) s :
  (∀ x s, (body x s).1 = Some ()) →
  forOf l body s = (Some (), foldl (λ s x, (body x s).2) s l).
Proof.
  intros Hbody. revert s. induction l as [|x l IH]; intros s; simpl; [done|].
  unfold bind. specialize (Hbody x s).
  destruct (body x s) as [[[]|] s']; [|done]. apply IH.
Qed.

(** The entry a loop of writes leaves under a key is that of the last
    element written under the key. *)
Lemma foldl_insert_last {A V} (key : A → string) (val : A → V) (l : list A)
    (m : gmap string V) (k : string) :
  foldl (λ m x, <[key x := val x]> m) m l !! k
  = match last (List.filter (λ x, bool_decide (key x = k)) l) with
    | Some x => Some (val x)
    | None => m !! k
    end.
Proof.
  revert m. induction l as [|x l IH]; intros m; simpl; [done|].
  rewrite IH. case_bool_decide as Hk.
  - rewrite last_cons.
    destruct (last (List.filter _ l)); [done|].
    by rewrite <- Hk, lookup_insert_eq.
  - destruct (last (List.filter _ l)); [done|].
    by rewrite lookup_insert_ne.
Qed.

Section Hydration.
Context (client : MatrixClient) (config : Config) (lib : Imports).

Lemma classified_loaded this roomId :
  people (classified client this roomId) = people this
  ∧ subspaces (classified client this roomId) = subspaces this.
Proof. rewrite classified_eq. by repeat case_match. Qed.

Lemma classifiedCatalog_loaded this roomIds :
  people (classifiedCatalog client this roomIds) = ∅
  ∧ subspaces (classifiedCatalog client this roomIds) = ∅.
Proof.
  unfold classifiedCatalog.
  assert (people (reset this) = ∅ ∧ subspaces (reset this) = ∅) as H by done.
  revert H. generalize (reset this).
  generalize (settledRooms client roomIds) as rooms.
  induction rooms as [|r rooms IH]; intros c Hc; simpl; [done|].
  apply IH. destruct (classified_loaded c r) as [-> ->]. done.
Qed.

Lemma resolveExisting_result entry this :
  ∃ rooms,
    resolveExisting client entry this
    = (Some (), set_interestRooms rooms this)
    ∧ ∀ k, rooms !! k
        = match interestRooms this !! k with
          | Some room => Some room
          | None =>
              if bool_decide (entry.1 = k) && negb (inherited k)
              then (λ roomId, {| ir_roomId := roomId; ir_id := Some k |})
                   <$> resolveRoom client entry.2
              else None
          end.
Proof.
  destruct entry as [interestId roomIdOrAlias].
  unfold resolveExisting, hasProperty, getProperty. simpl.
  destruct (interestRooms this !! interestId) as [known|] eqn:Hin.
  { exists (interestRooms this). split; [by destruct this|].
    intros k. destruct (interestRooms this !! k) eqn:Hk; [done|].
    case_bool_decide; [|done]. congruence. }
  destruct (inherited interestId) eqn:Hinherited.
  { exists (interestRooms this). split; [by destruct this|].
    intros k. destruct (interestRooms this !! k) eqn:Hk; [done|].
    case_bool_decide; [|done]. subst k. by rewrite Hinherited. }
  destruct (resolveRoom client roomIdOrAlias) as [roomId|] eqn:Hresolve.
  - exists (<[interestId := {| ir_roomId := roomId;
                               ir_id := Some interestId |}]>
              (interestRooms this)).
    split; [done|]. intros k.
    destruct (decide (interestId = k)) as [<-|Hne].
    + rewrite lookup_insert_eq, Hin, Hinherited.
      by rewrite bool_decide_eq_true_2.
    + rewrite lookup_insert_ne by done.
      destruct (interestRooms this !! k); [done|].
      by rewrite bool_decide_eq_false_2.
  - exists (interestRooms this). split; [by destruct this|].
    intros k. destruct (interestRooms this !! k); [done|].
    by destruct (bool_decide (interestId = k) && negb (inherited k)).
Qed.

Lemma withConfigured_result this :
  ∃ rooms,
    withConfigured client config this = set_interestRooms rooms this
    ∧ ∀ k, rooms !! k
        = match interestRooms this !! k with
          | Some room => Some room
          | None => configuredRoom client config k
          end.
Proof.
  unfold withConfigured, configuredRoom.
  generalize (existingInterestRooms config) as entries.
  intros entries. revert this.
  induction entries as [|entry entries IH]; intros this.
  - exists (interestRooms this). split; [by destruct this|].
    intros k. simpl. destruct (interestRooms this !! k); [done|].
    by destruct (inherited k).
  - simpl. destruct (resolveExisting_result entry this)
      as (rooms1 & -> & Hrooms1). simpl.
    destruct (IH (set_interestRooms rooms1 this)) as (rooms & -> & Hrooms).
    exists rooms. split; [done|]. intros k.
    rewrite Hrooms. simpl. rewrite Hrooms1.
    destruct (interestRooms this !! k) as [room|]; [done|].
    destruct (inherited k); simpl; [by rewrite andb_false_r|].
    rewrite andb_true_r.
    case_bool_decide as Hk; simpl.
    + destruct (resolveRoom client entry.2) as [roomId|] eqn:Hresolve; simpl.
      * rewrite ?bool_decide_eq_true_2 by eauto. simpl.
        by rewrite ?Hresolve.
      * rewrite ?bool_decide_eq_false_2 by (by intros [? ?]). done.
    + done.
Qed.

Lemma resolveExisting_loop this :
  forOf (existingInterestRooms config) (resolveExisting client) this
  = (Some (), withConfigured client config this).
Proof.
  apply forOf_total. intros entry c.
  by destruct (resolveExisting_result entry c) as (rooms & -> & _).
Qed.

(** The loop over the subspace events. *)
Lemma subspaceLoop_run events this :
  ∃ found,
    forOf events (openSubspace client) this
    = (if spacesOpen client events then Some () else None,
       set_subspaces found this)
    ∧ (spacesOpen client events = true →
         ∀ k, found !! k
           = match last (List.filter
                           (λ e, bool_decide (state_key e = k)) events) with
             | Some e => getSpace client (subspaceRoom e)
             | None => subspaces this !! k
             end).
Proof.
  revert this. induction events as [|e events IH]; intros this.
  - exists (subspaces this). split; [by destruct this|done].
  - change (forOf (e :: events) (openSubspace client) this)
      with (bind (openSubspace client e)
              (λ _, forOf events (openSubspace client)) this).
    unfold bind at 1. unfold openSubspace at 1, bind, await, modify.
    change (spacesOpen client (e :: events))
      with (bool_decide (is_Some (getSpace client (subspaceRoom e)))
            && spacesOpen client events).
    change (subspace_roomId (as_IStoredSubspace (contentOf e)))
      with (subspaceRoom e).
    destruct (getSpace client (subspaceRoom e)) as [space|] eqn:Hopen.
    + rewrite bool_decide_eq_true_2 by eauto.
      destruct (IH (set_subspaces (<[state_key e := space]> (subspaces this))
                      this)) as (found & -> & Hfound).
      exists found. split; [done|].
      intros Hall k. rewrite (Hfound Hall k).
      cbn [List.filter]. case_bool_decide as Hk.
      * rewrite last_cons.
        destruct (last (List.filter _ events)); [done|].
        simpl. by rewrite <- Hk, lookup_insert_eq.
      * destruct (last (List.filter _ events)); [done|].
        simpl. by rewrite lookup_insert_ne.
    + rewrite bool_decide_eq_false_2 by (by intros [? ?]).
      exists (subspaces this). split; [by destruct this|done].
Qed.

(** A rebuild whose creation records can all be read. *)
Lemma construct_run this roomIds :
  getJoinedRooms client = Some roomIds →
  forallb (readable client) roomIds = true →
  let rooms :=
    withConfigured client config (classifiedCatalog client this roomIds) in
  construct client config lib this
  = match dbRoom rooms with
    | None => (Some (), rooms)
    | Some room =>
        match getRoomState client (mr_roomId room) with
        | None => (None, rooms)
        | Some roomState =>
            forOf (storedSubspaces lib roomState) (openSubspace client)
              (set_people
                 (foldl (λ cache person,
                           <[propertyKey (pentaId person) := person]> cache)
                    (people rooms) (storedPersons lib roomState)) rooms)
        end
    end.
Proof.
  intros Hjoined Hall. cbn zeta.
  rewrite construct_unfold, Hjoined.
  pose proof (settledRooms_Permutation client roomIds) as Hperm.
  erewrite bind_ok.
  2: { rewrite batchLoop_run. fold (settledRooms client roomIds).
       rewrite (forallb_Permutation _ _ _ Hperm), Hall.
       rewrite untilRejected_readable;
         [done|by rewrite (forallb_Permutation _ _ _ Hperm)]. }
  fold (classifiedCatalog client this roomIds).
  cbv beta. unfold bind at 1. rewrite resolveExisting_loop.
  unfold bind at 1, get.
  destruct (dbRoom (withConfigured client config
                      (classifiedCatalog client this roomIds)))
    as [room|]; [|done].
  unfold bind at 1, await.
  destruct (getRoomState client (mr_roomId room)) as [roomState|]; [|done].
  unfold bind at 1. rewrite forOf_total by done.
  fold (storedPersons lib roomState). fold (storedSubspaces lib roomState).
  f_equal.
  generalize (storedPersons lib roomState) as persons.
  generalize (withConfigured client config
                (classifiedCatalog client this roomIds)) as c.
  intros c persons. revert c.
  induction persons as [|person persons IH]; intros c; simpl.
  - by destruct c.
  - rewrite IH. unfold modify. simpl. done.
Qed.

Lemma construct_returns_readable this :
  (construct client config lib this).1 = Some () →
  ∃ roomIds,
    getJoinedRooms client = Some roomIds
    ∧ forallb (readable client) roomIds = true.
Proof.
  rewrite construct_unfold.
  destruct (getJoinedRooms client) as [roomIds|]; [|done].
  intros Hret. exists roomIds. split; [done|].
  unfold bind at 1 in Hret. rewrite batchLoop_run in Hret.
  fold (settledRooms client roomIds) in Hret.
  rewrite (forallb_Permutation _ _ _ (settledRooms_Permutation client roomIds))
    in Hret.
  by destruct (forallb (readable client) roomIds).
Qed.

Lemma withConfigured_rooms this :
  dbRoom (withConfigured client config this) = dbRoom this
  ∧ people (withConfigured client config this) = people this
  ∧ subspaces (withConfigured client config this) = subspaces this.
Proof. by destruct (withConfigured_result this) as (rooms & -> & _). Qed.

(** X17.  [construct] returns exactly when the joined rooms can be listed,
    the creation record of every joined room can be read and, when one of
    them is the root room of the conference, the state of the root room
    can be read and every subspace stored there can be opened; of several
    rooms that say they are the root room, the one whose read settles last
    counts.  Nothing else makes it throw: not a room of another
    conference, not a configured interest room that does not resolve, not
    a conference without a root room. *)
Theorem construct_returns_iff this :
  (construct client config lib this).1 = Some ()
  ↔ ∃ roomIds,
      getJoinedRooms client = Some roomIds
      ∧ forallb (readable client) roomIds = true
      ∧ match dbRoom (classifiedCatalog client this roomIds) with
        | None => True
        | Some room =>
            ∃ roomState,
              getRoomState client (mr_roomId room) = Some roomState
              ∧ spacesOpen client (storedSubspaces lib roomState) = true
        end.
Proof.
  split.
  - intros Hret.
    destruct (construct_returns_readable this Hret)
      as (roomIds & Hjoined & Hall).
    exists roomIds. do 2 (split; [done|]).
    rewrite (construct_run this roomIds Hjoined Hall) in Hret.
    cbn zeta in Hret.
    destruct (withConfigured_rooms (classifiedCatalog client this roomIds))
      as (Hroot & _). rewrite Hroot in Hret.
    destruct (dbRoom (classifiedCatalog client this roomIds)) as [room|];
      [|done].
    destruct (getRoomState client (mr_roomId room)) as [roomState|];
      [|done].
    exists roomState. split; [done|].
    destruct (subspaceLoop_run (storedSubspaces lib roomState)
                (set_people
                   (foldl (λ cache person,
                             <[propertyKey (pentaId person) := person]> cache)
                      (people (withConfigured client config
                                 (classifiedCatalog client this roomIds)))
                      (storedPersons lib roomState))
                   (withConfigured client config
                      (classifiedCatalog client this roomIds))))
      as (found & Hloop & _).
    rewrite Hloop in Hret.
    by destruct (spacesOpen client (storedSubspaces lib roomState)).
  - intros (roomIds & Hjoined & Hall & Hroot).
    rewrite (construct_run this roomIds Hjoined Hall). cbn zeta.
    destruct (withConfigured_rooms (classifiedCatalog client this roomIds))
      as (-> & _).
    destruct (dbRoom (classifiedCatalog client this roomIds)) as [room|];
      [|done].
    destruct Hroot as (roomState & -> & Hopen).
    destruct (subspaceLoop_run (storedSubspaces lib roomState)
                (set_people
                   (foldl (λ cache person,
                             <[propertyKey (pentaId person) := person]> cache)
                      (people (withConfigured client config
                                 (classifiedCatalog client this roomIds)))
                      (storedPersons lib roomState))
                   (withConfigured client config
                      (classifiedCatalog client this roomIds))))
      as (found & Hloop & _).
    by rewrite Hloop, Hopen.
Qed.

(** X18.  What a rebuild that returns has loaded.  Without a root room the
    cache of people and the subspaces are empty.  With one, the cache holds
    under each key the last stored person of the root room's state whose
    [pentaId] is the key (the state key of the event plays no part), and
    the catalog holds under each key the space opened for the last stored
    subspace whose state key is the key. *)
Theorem construct_loads this rebuilt :
  construct client config lib this = (Some (), rebuilt) →
  match dbRoom rebuilt with
  | None => people rebuilt = ∅ ∧ subspaces rebuilt = ∅
  | Some room =>
      ∃ roomState,
        getRoomState client (mr_roomId room) = Some roomState
        ∧ (∀ k, people rebuilt !! k
              = last (List.filter
                        (λ p, bool_decide (propertyKey (pentaId p) = k))
                        (storedPersons lib roomState)))
        ∧ (∀ k, subspaces rebuilt !! k
              = last (List.filter (λ e, bool_decide (state_key e = k))
                        (storedSubspaces lib roomState))
                ≫= λ e, getSpace client (subspaceRoom e))
  end.
Proof.
  intros Hrun.
  destruct (construct_returns_readable this) as (roomIds & Hjoined & Hall);
    [by rewrite Hrun|].
  rewrite (construct_run this roomIds Hjoined Hall) in Hrun.
  cbn zeta in Hrun.
  destruct (withConfigured_rooms (classifiedCatalog client this roomIds))
    as (Hroot & Hpeople & Hsubspaces).
  destruct (classifiedCatalog_loaded this roomIds) as [Hp Hs].
  rewrite Hp in Hpeople. rewrite Hs in Hsubspaces.
  destruct (dbRoom (withConfigured client config
                      (classifiedCatalog client this roomIds)))
    as [room|] eqn:Hroom.
  - destruct (getRoomState client (mr_roomId room)) as [roomState|] eqn:Hst;
      [|done].
    destruct (subspaceLoop_run (storedSubspaces lib roomState)
                (set_people
                   (foldl (λ cache person,
                             <[propertyKey (pentaId person) := person]> cache)
                      (people (withConfigured client config
                                 (classifiedCatalog client this roomIds)))
                      (storedPersons lib roomState))
                   (withConfigured client config
                      (classifiedCatalog client this roomIds))))
      as (found & Heq & Hfound).
    rewrite Hrun in Heq.
    destruct (spacesOpen client (storedSubspaces lib roomState)); [|done].
    injection Heq as ->. simpl. rewrite Hroom.
    exists roomState. split; [done|]. split.
    + intros k.
      rewrite (foldl_insert_last (λ p, propertyKey (pentaId p)) (λ p, p)).
      rewrite Hpeople, lookup_empty.
      by destruct (last (List.filter _ (storedPersons lib roomState))).
    + intros k. rewrite (Hfound eq_refl k). simpl.
      rewrite Hsubspaces, lookup_empty.
      by destruct (last (List.filter _ (storedSubspaces lib roomState))).
  - injection Hrun as <-. by rewrite Hroom.
Qed.

(** X19.  The interest rooms of a rebuild that returns are those of the
    joined rooms classified as interest rooms, and, for an id that none of
    them has, the room that the configuration names for it when that room
    resolves: a configured room never replaces a classified one, an entry
    that does not resolve is skipped, and so is an entry whose id is a
    property name of [Object.prototype]. *)
Theorem construct_configured_interest_rooms this rebuilt :
  construct client config lib this = (Some (), rebuilt) →
  ∃ roomIds,
    getJoinedRooms client = Some roomIds
    ∧ ∀ k, interestRooms rebuilt !! k
        = match interestRooms (classifiedCatalog client this roomIds) !! k
          with
          | Some room => Some room
          | None => configuredRoom client config k
          end.
Proof.
  intros Hrun.
  destruct (construct_returns_readable this) as (roomIds & Hjoined & Hall);
    [by rewrite Hrun|].
  exists roomIds. split; [done|].
  rewrite (construct_run this roomIds Hjoined Hall) in Hrun.
  cbn zeta in Hrun.
  destruct (withConfigured_result (classifiedCatalog client this roomIds))
    as (rooms & Heq & Hrooms).
  rewrite Heq in Hrun. simpl in Hrun.
  destruct (dbRoom (classifiedCatalog client this roomIds)) as [room|].
  - destruct (getRoomState client (mr_roomId room)) as [roomState|];
      [|done].
    match type of Hrun with
    | forOf ?events _ ?c = _ =>
        destruct (subspaceLoop_run events c) as (found & Hloop & _)
    end.
    rewrite Hrun in Hloop. injection Hloop as _ ->. simpl. apply Hrooms.
  - injection Hrun as <-. simpl. apply Hrooms.
Qed.
End Hydration.
(** ** Creating the rooms and spaces *)

Ltac run_builder :=
  unfold bind, send, ask, sendUnawaited, read, update, catalog, await, ret,
    getSpaceNow, desiredParentSpace, asSpace, powerLevelsOf, roomIdOf,
    getProperty; simpl;
  repeat (case_match; simpl in *; simplify_eq; simpl in *;
          rewrite ?lookup_insert_eq in * ).

Ltac solve_extends :=
  repeat split; simpl; try done; try (by apply insert_subseteq);
  try (intros ?; congruence).

Ltac solve_added :=
  first [ eexists; split; [rewrite <- ?app_assoc; reflexivity|]
        | exists []; split; [by rewrite app_nil_r|] ].

Ltac run_builder_in H :=
  unfold bind, send, ask, sendUnawaited, read, update, catalog, await, ret,
    getSpaceNow, desiredParentSpace, asSpace, powerLevelsOf, roomIdOf,
    getProperty in H; simpl in H;
  repeat (match goal with
          | H' : context [match ?x with _ => _ end] |- _ =>
              destruct x eqn:?
          end; simpl in * |-; try done;
          rewrite ?lookup_insert_eq in * |-; simplify_eq).

Ltac ran :=
  intros; simplify_eq; simpl in *; rewrite ?lookup_insert_eq in *;
  simplify_eq; eauto.

Lemma getProperty_Own {V} (obj : gmap string V) key v :
  getProperty obj key = Own v ↔ obj !! key = Some v.
Proof.
  unfold getProperty. destruct (obj !! key); [|by destruct (inherited key)].
  split; congruence.
Qed.

Lemma getProperty_Undefined {V} (obj : gmap string V) key :
  getProperty obj key = Undefined ↔ obj !! key = None ∧ inherited key = false.
Proof.
  unfold getProperty. destruct (obj !! key); [by split; [|intros []]|].
  destruct (inherited key); by split; [|intros []].
Qed.

Lemma getProperty_Inherited {V} (obj : gmap string V) key key' :
  getProperty obj key = Inherited key'
  ↔ obj !! key = None ∧ inherited key = true ∧ key' = key.
Proof.
  unfold getProperty. destruct (obj !! key).
  { by split; [|intros (? & _)]. }
  destruct (inherited key); [|by split; [|intros (_ & ? & _)]].
  split; [by intros [= ->]|by intros (_ & _ & ->)].
Qed.

Section Building.
Context (client : list Request → MatrixClient)
        (env : list Request → Surroundings)
        (server : Server) (settings : Settings) (config : Config)
        (lib : Imports).

(** One turn of the loop of [createSupportRooms]. *)
Lemma createSupportRoom_run alias s :
  let request := supportRoomRequest settings config alias in
  createSupportRoom client env server settings config alias s
  = (match resolveRoom (client s.2) alias with
     | Some _ => Some ()
     | None =>
         match createdRoom server (s.2 ++ [request]) with
         | None => None
         | Some _ =>
             (λ _, ()) <$> Conference_getSpace (env (s.2 ++ [request])) s.1
         end
     end,
     (s.1, s.2 ++ supportRoomTurn client env server settings config s.1 s.2
                    alias)).
Proof.
  destruct s as [this asked].
  unfold createSupportRoom, supportRoomTurn, supportRoomRequest.
  run_builder; by rewrite <- ?app_assoc, ?app_nil_r.
Qed.



Lemma createSupportRooms_loop aliases s :
  ∃ turns,
    (forOf aliases (createSupportRoom client env server settings config) s).2
    = (s.1, s.2 ++ concat turns)
    ∧ length turns ≤ length aliases
    ∧ ((forOf aliases (createSupportRoom client env server settings config)
          s).1 = Some () → length turns = length aliases)
    ∧ ∀ i alias added,
        aliases !! i = Some alias → turns !! i = Some added →
        added = supportRoomTurn client env server settings config s.1
                  (s.2 ++ concat (take i turns)) alias.
Proof.
  revert s. induction aliases as [|alias aliases IH]; intros s.
  - exists []. simpl. rewrite app_nil_r. split; [by destruct s|].
    split; [done|]. split; [done|]. by intros i alias added ?.
  - simpl. unfold bind. rewrite createSupportRoom_run. cbv zeta.
    set (added1 := supportRoomTurn client env server settings config s.1 s.2
                     alias).
    match goal with
    | |- context [match ?r with Some _ => _ | None => _ end] =>
        destruct r as [[]|]
    end.
    + destruct (IH (s.1, s.2 ++ added1))
        as (turns & Heq & Hlen & Hret & Hturns).
      exists (added1 :: turns). simpl in *. rewrite Heq, app_assoc.
      split; [done|]. split; [lia|]. split; [intros ?; f_equal; auto|].
      intros [|i] a added Ha Hadded; simpl in *.
      * injection Ha as <-. injection Hadded as <-. by rewrite app_nil_r.
      * rewrite app_assoc. by apply Hturns.
    + exists [added1]. simpl. rewrite app_nil_r.
      split; [done|]. split; [lia|]. split; [done|].
      intros [|i] a added Ha Hadded; simpl in *; [|done].
      injection Ha as <-. injection Hadded as <-. by rewrite app_nil_r.
Qed.

(** X20.  Whatever their outcome, the functions that create the
    conference keep what the catalog has: the conference id, the cache of
    people, the root room once there is one, and every entry of the
    subspaces, auditoriums, backstages, talks and interest rooms; and they
    only add to what was asked.  [createSupportRooms] leaves the catalog as
    it is. *)
Theorem create_only_grows :
  (∀ conference, onlyGrows (createDb env server settings conference))
  ∧ onlyGrows (createSupportRooms client env server settings config)
  ∧ (∀ subspaceId displayName aliasLocalpart,
       onlyGrows (createSubspace env server settings lib subspaceId
                    displayName aliasLocalpart))
  ∧ (∀ interestRoom,
       onlyGrows (createInterestRoom client env server settings config
                    interestRoom))
  ∧ (∀ auditorium,
       onlyGrows (createAuditoriumBackstage server settings auditorium))
  ∧ (∀ auditorium,
       onlyGrows (createAuditorium env server settings auditorium))
  ∧ (∀ talk auditorium,
       onlyGrows (createTalk env server settings lib talk auditorium))
  ∧ ∀ s, (createSupportRooms client env server settings config s).2.1 = s.1.
Proof.
  assert (∀ s, ∃ added,
            (createSupportRooms client env server settings config s).2
            = (s.1, s.2 ++ added)) as Hsupport.
  { intros s.
    destruct (createSupportRooms_loop (roomAliases settings) s)
      as (turns & Heq & _). by exists (concat turns). }
  split; [|split; [|split; [|split; [|split; [|split; [|split]]]]]].
  - intros conference [this asked]. unfold createDb.
    split; [run_builder; solve_extends|].
    run_builder; repeat (apply prefix_app_r); done.
  - intros s. destruct (Hsupport s) as [added ->].
    split; [solve_extends|by apply prefix_app_r].
  - intros subspaceId displayName aliasLocalpart [this asked].
    unfold createSubspace.
    split; [run_builder; solve_extends|].
    run_builder; repeat (apply prefix_app_r); done.
  - intros interestRoom [this asked]. unfold createInterestRoom.
    split; [run_builder; solve_extends|].
    run_builder; repeat (apply prefix_app_r); done.
  - intros auditorium [this asked]. unfold createAuditoriumBackstage.
    split; [run_builder; solve_extends|].
    run_builder; repeat (apply prefix_app_r); done.
  - intros auditorium [this asked].
    unfold createAuditorium, createAuditoriumBackstage.
    split; [run_builder; solve_extends|].
    run_builder; repeat (apply prefix_app_r); done.
  - intros talk auditorium [this asked]. unfold createTalk.
    split; [run_builder; solve_extends|].
    run_builder; repeat (apply prefix_app_r); done.
  - intros s. by destruct (Hsupport s) as [added ->].
Qed.

(** X21.  For an entity that the catalog has, no function asks for a new
    space or room.  [createAuditorium] and [createAuditoriumBackstage]
    return the handle of the catalog and ask for nothing at all:
    [createAuditorium] does not look whether the backstage is there.  The
    other functions leave the catalog as it is and ask only for links and
    state events. *)
Theorem create_existing s :
  (∀ auditorium existing,
     auditoriums s.1 !! auditorium_id auditorium = Some existing →
     createAuditorium env server settings auditorium s
     = (Some (Own existing), s))
  ∧ (∀ auditorium existing,
       auditoriumBackstages s.1 !! auditorium_id auditorium = Some existing →
       createAuditoriumBackstage server settings auditorium s
       = (Some (Own existing), s))
  ∧ (∀ talk auditorium,
       is_Some (talks s.1 !! talk_id talk) →
       createsNothing (createTalk env server settings lib talk auditorium) s)
  ∧ (∀ interestRoom,
       is_Some (interestRooms s.1 !! interest_id interestRoom) →
       createsNothing
         (createInterestRoom client env server settings config interestRoom)
         s)
  ∧ (∀ subspaceId displayName aliasLocalpart,
       is_Some (subspaces s.1 !! subspaceId) →
       createsNothing
         (createSubspace env server settings lib subspaceId displayName
            aliasLocalpart) s)
  ∧ (∀ conference,
       is_Some (dbRoom s.1) →
       createsNothing (createDb env server settings conference) s).
Proof.
  destruct s as [this asked].
  split; [|split; [|split; [|split; [|split]]]].
  - intros auditorium existing Hexisting. unfold createAuditorium.
    unfold bind, catalog, getProperty. simpl in *. by rewrite Hexisting.
  - intros auditorium existing Hexisting. unfold createAuditoriumBackstage.
    unfold bind, catalog, getProperty. simpl in *. by rewrite Hexisting.
  - intros talk auditorium [existing Hexisting]. simpl in Hexisting.
    unfold createsNothing, createTalk.
    split; [run_builder; done|].
    run_builder; solve_added; done.
  - intros interestRoom [existing Hexisting]. simpl in Hexisting.
    unfold createsNothing, createInterestRoom.
    split; [run_builder; done|].
    run_builder; solve_added; done.
  - intros subspaceId displayName aliasLocalpart [existing Hexisting].
    simpl in Hexisting. unfold createsNothing, createSubspace.
    split; [run_builder; done|].
    run_builder; solve_added; done.
  - intros conference [existing Hexisting]. simpl in Hexisting.
    unfold createsNothing, createDb.
    split; [run_builder; done|].
    run_builder; solve_added; done.
Qed.

Lemma createAuditorium_recorded auditorium s existing s' :
  createAuditorium env server settings auditorium s = (Some existing, s') →
  getProperty (auditoriums s'.1) (auditorium_id auditorium) = existing
  ∧ existing ≠ Undefined.
Proof.
  destruct s as [this asked].
  unfold createAuditorium, createAuditoriumBackstage.
  intros Hrun. run_builder_in Hrun; unfold getProperty; simpl;
    rewrite ?lookup_insert_eq; repeat case_match; simplify_eq; done.
Qed.

(** X22.  What a function returns is what the catalog then has under the
    id of the entity, and it is never undefined: it is the handle of the
    catalog or, for an id that is a property name of [Object.prototype]
    and that the catalog has no entry for, the value inherited under that
    name.  The functions that need the root room return only when there
    is one.  A [createAuditorium] that made the auditorium returns only
    once the backstage is in the catalog too. *)
Theorem create_returns_recorded s s' :
  (∀ auditorium existing,
     createAuditorium env server settings auditorium s = (Some existing, s') →
     getProperty (auditoriums s'.1) (auditorium_id auditorium) = existing
     ∧ existing ≠ Undefined
     ∧ (getProperty (auditoriums s.1) (auditorium_id auditorium) = Undefined →
          (∃ handle, existing = Own handle)
          ∧ is_Some (auditoriumBackstages s'.1 !! auditorium_id auditorium)
          ∧ is_Some (dbRoom s'.1)))
  ∧ (∀ auditorium existing,
       createAuditoriumBackstage server settings auditorium s
       = (Some existing, s') →
       getProperty (auditoriumBackstages s'.1) (auditorium_id auditorium)
       = existing
       ∧ existing ≠ Undefined)
  ∧ (∀ talk auditorium existing,
       createTalk env server settings lib talk auditorium s
       = (Some existing, s') →
       getProperty (talks s'.1) (talk_id talk) = existing
       ∧ existing ≠ Undefined)
  ∧ (∀ interestRoom existing,
       createInterestRoom client env server settings config interestRoom s
       = (Some existing, s') →
       getProperty (interestRooms s'.1) (interest_id interestRoom) = existing
       ∧ existing ≠ Undefined
       ∧ is_Some (dbRoom s'.1))
  ∧ (∀ subspaceId displayName aliasLocalpart subspace,
       createSubspace env server settings lib subspaceId displayName
         aliasLocalpart s = (Some subspace, s') →
       getProperty (subspaces s'.1) subspaceId = subspace
       ∧ subspace ≠ Undefined
       ∧ is_Some (dbRoom s'.1))
  ∧ (∀ conference,
       createDb env server settings conference s = (Some (), s') →
       is_Some (dbRoom s'.1)).
Proof.
  destruct s as [this asked].
  split; [|split; [|split; [|split; [|split]]]].
  - intros auditorium existing Hrun.
    destruct (createAuditorium_recorded _ _ _ _ Hrun) as [Hrecorded Hdefined].
    split; [done|]. split; [done|]. clear Hrecorded Hdefined.
    intros Hnew. simpl in Hnew.
    unfold createAuditorium in Hrun.
    unfold bind at 1, catalog at 1 in Hrun. simpl in Hrun.
    rewrite Hnew in Hrun. unfold createAuditoriumBackstage in Hrun.
    run_builder_in Hrun; simpl; rewrite ?lookup_insert_eq;
      repeat split;
      first [by eauto|eexists; eassumption
            |apply getProperty_Undefined in Hnew as [? ?]; congruence].
  - intros auditorium existing Hrun.
    unfold createAuditoriumBackstage in Hrun.
    run_builder_in Hrun; unfold getProperty; simpl;
      rewrite ?lookup_insert_eq; repeat case_match; simplify_eq; done.
  - intros talk auditorium existing Hrun. unfold createTalk in Hrun.
    run_builder_in Hrun; unfold getProperty; simpl;
      rewrite ?lookup_insert_eq; repeat case_match; simplify_eq; done.
  - intros interestRoom existing Hrun. unfold createInterestRoom in Hrun.
    run_builder_in Hrun; unfold getProperty; simpl;
      rewrite ?lookup_insert_eq; repeat case_match; simplify_eq; eauto.
  - intros subspaceId displayName aliasLocalpart subspace Hrun.
    unfold createSubspace in Hrun.
    destruct (dbRoom this) as [room|] eqn:Hroom;
      run_builder_in Hrun; unfold Conference_getSpace in *; simpl in *;
      rewrite ?Hroom in *; simplify_eq;
      unfold getProperty; simpl;
      rewrite ?lookup_insert_eq; repeat case_match; simplify_eq; eauto.
  - intros conference. unfold createDb.
    run_builder; ran.
Qed.

Lemma createAuditorium_known env' server' settings' auditorium existing
    later asked :
  getProperty (auditoriums later) (auditorium_id auditorium) = existing →
  existing ≠ Undefined →
  createAuditorium env' server' settings' auditorium (later, asked)
  = (Some existing, (later, asked)).
Proof.
  intros Hexisting Hdefined. unfold createAuditorium, bind, catalog. simpl.
  rewrite Hexisting. by destruct existing.
Qed.

(** X23.  Once [createAuditorium] has returned, every later call for the
    auditorium returns the same handle and asks for nothing, whatever the
    homeserver and the configuration have become and whatever was added to
    the catalog in between.  (The same holds of a value inherited from
    [Object.prototype] that the call returned, as long as the catalog has
    no entry under the id.) *)
Theorem createAuditorium_again env' server' settings' auditorium s existing
    s' later asked :
  createAuditorium env server settings auditorium s = (Some existing, s') →
  extends s'.1 later →
  (∀ key, existing = Inherited key →
     auditoriums later !! auditorium_id auditorium = None) →
  createAuditorium env' server' settings' auditorium (later, asked)
  = (Some existing, (later, asked)).
Proof.
  intros Hrun (_ & _ & _ & _ & Hauditoriums & _) Hinherited.
  destruct (createAuditorium_recorded _ _ _ _ Hrun) as [Hrecorded Hdefined].
  apply createAuditorium_known; [|done].
  destruct existing as [handle|key|]; [| |done].
  - apply getProperty_Own. apply getProperty_Own in Hrecorded.
    by eapply lookup_weaken.
  - apply getProperty_Inherited in Hrecorded as (_ & ? & ->).
    apply getProperty_Inherited. split; [by eapply Hinherited|done].
Qed.

(** X24.  When [createAuditoriumBackstage] throws, the catalog is as it
    was.  Either there is no root room and nothing was asked, or the room
    was asked for first, and then at most its aliases and its place under
    the root room: a room made before the failure is not in the catalog,
    which is written last. *)
Theorem createAuditoriumBackstage_throws auditorium s s' :
  createAuditoriumBackstage server settings auditorium s = (None, s') →
  s'.1 = s.1
  ∧ auditoriumBackstages s.1 !! auditorium_id auditorium = None
  ∧ (dbRoom s.1 = None ∧ s'.2 = s.2
     ∨ ∃ room roomId asked,
         dbRoom s.1 = Some room
         ∧ asked ≠ []
         ∧ asked `prefix_of`
             backstageRequests settings (id s.1) room auditorium roomId
         ∧ s'.2 = s.2 ++ asked).
Proof.
  destruct s as [this asked]. unfold createAuditoriumBackstage.
  run_builder; ran; (split; [done|]); (split; [done|]).
  all: try (by left).
  all: right.
  - eexists _, _, [_; _; _]. split; [done|]. split; [done|].
    split; [|by rewrite <- ?app_assoc].
    unfold backstageRequests. do 3 apply prefix_cons. apply prefix_nil.
  - eexists _, _, [_; _]. split; [done|]. split; [done|].
    split; [|by rewrite <- ?app_assoc].
    unfold backstageRequests. do 2 apply prefix_cons. apply prefix_nil.
  - eexists _, "", [_]. split; [done|]. split; [done|].
    split; [|by rewrite <- ?app_assoc].
    unfold backstageRequests. do 1 apply prefix_cons. apply prefix_nil.
Qed.

(** X25.  When [createAuditorium] throws, either the catalog is as it was,
    or the auditorium is in the catalog already: it is written before the
    auditorium is linked and before the backstage is made.  In that case
    every later call returns the auditorium at once and asks for nothing,
    so what the failed call had not done yet is not done by calling
    again. *)
Theorem createAuditorium_throws auditorium s s' :
  createAuditorium env server settings auditorium s = (None, s') →
  s'.1 = s.1
  ∨ ∃ roomId,
      auditoriums s.1 !! auditorium_id auditorium = None
      ∧ auditoriums s'.1 !! auditorium_id auditorium
        = Some {| aud_roomId := roomId |}
      ∧ ∀ env' server' settings' asked,
          createAuditorium env' server' settings' auditorium (s'.1, asked)
          = (Some (Own {| aud_roomId := roomId |}), (s'.1, asked)).
Proof.
  destruct s as [this asked].
  unfold createAuditorium, createAuditoriumBackstage.
  intros Hrun. run_builder_in Hrun; simpl; eauto.
  all: right; eexists; (split; [done|]); simpl;
    rewrite ?lookup_insert_eq; (split; [done|]).
  all: intros; apply createAuditorium_known; [|done];
    apply getProperty_Own; simpl; by rewrite lookup_insert_eq.
Qed.

(** X26.  A [createAuditorium] that makes the auditorium and returns has
    asked, in this order: for the space of the auditorium; for its place
    under the parent space that [getDesiredParentSpace] gave when the call
    began; for the room, with the root room as parent and the space stored
    in it; for the aliases; for its place under the root room; for its
    place in the space, first; then, if the catalog had no backstage, for
    the backstage room, its aliases and its place under the root room; and
    last for the place of the backstage in the space, second.  The catalog
    has gained the auditorium and, if it was missing, the backstage, and
    nothing else.  The auditorium is made when the catalog has no entry
    for the id and the id is no property name of [Object.prototype]. *)
Theorem createAuditorium_requests auditorium s existing s' :
  getProperty (auditoriums s.1) (auditorium_id auditorium) = Undefined →
  createAuditorium env server settings auditorium s = (Some existing, s') →
  ∃ room parentSpace audSpace roomId backstage made,
    dbRoom s.1 = Some room
    ∧ getDesiredParentSpace (env s.2) s.1 (auditorium_id auditorium)
      = Parent (Own parentSpace)
    ∧ existing = Own {| aud_roomId := roomId |}
    ∧ s'.2
      = s.2
        ++ auditoriumRequests settings (id s.1) room auditorium parentSpace
             audSpace roomId
        ++ made
        ++ [AddChildRoom audSpace (Some (bs_roomId backstage))
              (Some "2-backstage")]
    ∧ (auditoriumBackstages s.1 !! auditorium_id auditorium = Some backstage
       ∧ made = []
       ∨ auditoriumBackstages s.1 !! auditorium_id auditorium = None
         ∧ made = backstageRequests settings (id s.1) room auditorium
                    (bs_roomId backstage))
    ∧ s'.1
      = set_auditoriumBackstages
          (<[auditorium_id auditorium := backstage]>
             (auditoriumBackstages s.1))
          (set_auditoriums
             (<[auditorium_id auditorium := {| aud_roomId := roomId |}]>
                (auditoriums s.1))
             s.1).
Proof.
  destruct s as [this asked]. simpl. intros Hnew Hrun.
  unfold createAuditorium in Hrun.
  unfold bind at 1, catalog at 1 in Hrun. simpl in Hrun.
  rewrite Hnew in Hrun. unfold createAuditoriumBackstage in Hrun.
  apply getProperty_Undefined in Hnew as [Hnone Hplain].
  run_builder_in Hrun.
  - cbn [fst snd]. eexists _, _, _, _, _, [].
    split; [reflexivity|]. split; [reflexivity|].
    split; [simpl; rewrite lookup_insert_eq; reflexivity|].
    split; [unfold auditoriumRequests, backstageRequests;
            rewrite <- ?app_assoc; cbn [app]; f_equal|].
    split; [left; split; reflexivity|].
    rewrite (insert_id (auditoriumBackstages this)) by done.
    by destruct this.
  - cbn [fst snd]. eexists _, _, _, _, {| bs_roomId := _ |}, _.
    split; [reflexivity|]. split; [reflexivity|].
    split; [simpl; rewrite lookup_insert_eq; reflexivity|].
    split; [|split; [right; split; reflexivity|reflexivity]].
    unfold auditoriumRequests, backstageRequests.
    rewrite <- ?app_assoc. cbn [app]. f_equal.
Qed.

(** X27.  Without a root room: [createAuditoriumBackstage] and
    [createInterestRoom], for an entity that the catalog and the
    configuration do not have, throw before asking for anything;
    [createAuditorium] throws and leaves the catalog as it was;
    [createSubspace] asks for the space and, when it is given one, puts it
    in the catalog and then throws: the subspace is in the catalog but is
    not stored in any room, nor linked.  This is so for an id under which
    the catalog has no property, its own or inherited.  For an id that is
    a property name of [Object.prototype], [createAuditorium] and
    [createAuditoriumBackstage] do not throw, with or without root room:
    when the catalog has no entry under the id they return the value
    inherited under that name, and ask for nothing. *)
Theorem create_without_root_room s :
  dbRoom s.1 = None →
  (∀ auditorium,
     getProperty (auditoriumBackstages s.1) (auditorium_id auditorium)
     = Undefined →
     createAuditoriumBackstage server settings auditorium s = (None, s))
  ∧ (∀ interestRoom,
       getProperty (interestRooms s.1) (interest_id interestRoom)
       = Undefined →
       existingInterestRoom config (interest_id interestRoom) = None →
       createInterestRoom client env server settings config interestRoom s
       = (None, s))
  ∧ (∀ auditorium,
       getProperty (auditoriums s.1) (auditorium_id auditorium) = Undefined →
       ∃ s', createAuditorium env server settings auditorium s = (None, s')
             ∧ s'.1 = s.1)
  ∧ (∀ subspaceId displayName aliasLocalpart,
       getProperty (subspaces s.1) subspaceId = Undefined →
       let request :=
         CreateSpace true
           ("space-" +:+ prefixes_aliases settings +:+ aliasLocalpart)
           displayName in
       createSubspace env server settings lib subspaceId displayName
         aliasLocalpart s
       = (None,
          (match createdSpace server (s.2 ++ [request]) with
           | Some subspace =>
               set_subspaces (<[subspaceId := subspace]> (subspaces s.1)) s.1
           | None => s.1
           end, s.2 ++ [request])))
  ∧ (∀ auditorium,
       inherited (auditorium_id auditorium) = true →
       (auditoriums s.1 !! auditorium_id auditorium = None →
          createAuditorium env server settings auditorium s
          = (Some (Inherited (auditorium_id auditorium)), s))
       ∧ (auditoriumBackstages s.1 !! auditorium_id auditorium = None →
            createAuditoriumBackstage server settings auditorium s
            = (Some (Inherited (auditorium_id auditorium)), s))).
Proof.
  destruct s as [this asked]. simpl. intros Hroot.
  split; [|split; [|split; [|split]]].
  - intros auditorium Hnew. unfold createAuditoriumBackstage.
    unfold bind, catalog, await. simpl. by rewrite Hnew, Hroot.
  - intros interestRoom Hnew Hconfig. unfold createInterestRoom.
    unfold bind, catalog, await. simpl. by rewrite Hnew, Hconfig, Hroot.
  - intros auditorium Hnew.
    unfold createAuditorium. unfold bind at 1, catalog at 1. simpl.
    rewrite Hnew. unfold createAuditoriumBackstage.
    run_builder; ran.
  - intros subspaceId displayName aliasLocalpart Hnew.
    unfold createSubspace. unfold bind at 1, catalog at 1. simpl.
    rewrite Hnew. run_builder; ran.
  - intros auditorium Hinherited. split; intros Hnone.
    + unfold createAuditorium, bind, catalog, getProperty. simpl.
      by rewrite Hnone, Hinherited.
    + unfold createAuditoriumBackstage, bind, catalog, getProperty. simpl.
      by rewrite Hnone, Hinherited.
Qed.



(** X29.  [createTalk] does not look at the root room: with another root
    room, or none, it asks for the same things, gives the same result and
    changes the catalog in the same way. *)
Theorem createTalk_needs_no_root_room talk auditorium root this asked :
  createTalk env server settings lib talk auditorium
    (set_dbRoom root this, asked)
  = let ran :=
      createTalk env server settings lib talk auditorium (this, asked) in
    (ran.1, (set_dbRoom root ran.2.1, ran.2.2)).
Proof.
  unfold createTalk. run_builder; done.
Qed.

(** X30.  For an interest room that the configuration names and under
    whose id the catalog has no property, its own or inherited,
    [createInterestRoom] asks for no new room.  When the configured room
    or alias does not resolve it throws before asking for anything; when
    it resolves, the room is in the catalog from then on, also when a
    later step of the call throws.  (Under an id that is a property name
    of [Object.prototype] the configuration is not looked at.) *)
Theorem createInterestRoom_configured interestRoom roomIdOrAlias s :
  getProperty (interestRooms s.1) (interest_id interestRoom) = Undefined →
  existingInterestRoom config (interest_id interestRoom)
    = Some roomIdOrAlias →
  let ran :=
    createInterestRoom client env server settings config interestRoom s in
  (∃ added, ran.2.2 = s.2 ++ added ∧ List.filter isCreation added = [])
  ∧ match resolveRoom (client s.2) roomIdOrAlias with
    | None => ran = (None, s)
    | Some roomId =>
        ran.2.1
        = set_interestRooms
            (<[interest_id interestRoom :=
                 {| ir_roomId := roomId;
                    ir_id := Some (interest_id interestRoom) |}]>
               (interestRooms s.1)) s.1
    end.
Proof.
  destruct s as [this asked]. simpl. intros Hnew Hconfigured.
  apply getProperty_Undefined in Hnew as [Hnone Hplain].
  unfold createInterestRoom. rewrite Hconfigured.
  split.
  - run_builder; solve_added; done.
  - run_builder; done || congruence.
Qed.
End Building.

(** * The further properties on the concrete homeservers *)

Lemma getDesiredParentSpace_empty_prefix_witness :
  ∃ decides,
    decidingSubspace Festival.env "A.main" = Some decides
    ∧ getDesiredParentSpace Festival.env Festival.catalog "A.main"
      = match subspaces Festival.catalog !! decides with
        | Some subspace => Parent (Own subspace)
        | None =>
            if inherited decides then Parent (Inherited decides)
            else NotCreatedYet decides
        end.
Proof.
  apply (getDesiredParentSpace_empty_prefix Festival.env Festival.catalog
           "A.main" "other" [""]).
  - apply elem_of_cons. right. apply elem_of_cons. by left.
  - apply elem_of_cons. by left.
Defined.

Lemma ensurePermissionsFor_again_witness :
  ∃ written,
    (ensurePermissionsFor Demo.client Demo.config
       [Demo.target (Some Demo.mallory) "p9"] "!room1:x" (Demo.built, [])).2
    = (Demo.built, [SendStateEvent "!room1:x" "m.room.power_levels" "" written])
    ∧ (ensurePermissionsFor
         (Festival.regranted [Demo.target (Some Demo.mallory) "p9"])
         Demo.config [Demo.target (Some Demo.mallory) "p9"] "!room1:x"
         (Demo.built, [])).2
      = (Demo.built,
         [SendStateEvent "!room1:x" "m.room.power_levels" "" written]).
Proof.
  apply (ensurePermissionsFor_again Demo.client Demo.config
           [Demo.target (Some Demo.mallory) "p9"] "!room1:x"
           (set_users {[ Demo.alice := 100%Z; Demo.mallory := 0%Z ]}
              emptyContent)
           {[ Demo.alice := 100%Z; Demo.mallory := 0%Z ]}
           (Demo.built, [])
           (Festival.regranted [Demo.target (Some Demo.mallory) "p9"])
           (Demo.built, [])).
  - vm_compute. reflexivity.
  - reflexivity.
  - reflexivity.
  - vm_compute. reflexivity.
Defined.

Lemma mergeUsers_targets_set_witness :
  mergeUsers Demo.client Demo.config
    [Demo.target (Some Demo.alice) "p1"; Demo.target (Some Demo.mallory) "p2"]
    ∅
  = mergeUsers Demo.client Demo.config
      [Demo.target (Some Demo.mallory) "p7"; Demo.target None "p8";
       Demo.target (Some Demo.alice) "p1"; Demo.target (Some Demo.mallory) "p2"]
      ∅.
Proof.
  apply (mergeUsers_targets_set Demo.client Demo.config).
  intros user. unfold isTarget. split.
  - intros [Hne (t & Ht & Hid)]. split; [exact Hne|].
    apply elem_of_cons in Ht as [->|Ht].
    { eexists. split; [|exact Hid]. do 2 (apply elem_of_cons; right).
      apply elem_of_cons. by left. }
    apply elem_of_cons in Ht as [->|Ht].
    { eexists. split; [|exact Hid]. do 3 (apply elem_of_cons; right).
      apply elem_of_cons. by left. }
    by apply elem_of_nil in Ht.
  - intros [Hne (t & Ht & Hid)]. split; [exact Hne|].
    apply elem_of_cons in Ht as [->|Ht].
    { exists (Demo.target (Some Demo.mallory) "p2").
      split; [|exact Hid]. apply elem_of_cons. right.
      apply elem_of_cons. by left. }
    apply elem_of_cons in Ht as [->|Ht]; [discriminate Hid|].
    apply elem_of_cons in Ht as [->|Ht].
    { eexists. split; [|exact Hid]. apply elem_of_cons. by left. }
    apply elem_of_cons in Ht as [->|Ht].
    { eexists. split; [|exact Hid]. apply elem_of_cons. right.
      apply elem_of_cons. by left. }
    by apply elem_of_nil in Ht.
Defined.

Lemma redemption_without_root_room_witness :
  onRoomEvent Demo.client Demo.db Demo.lib "!room1:x"
    (Demo.redemption "tok1" Demo.alice) (Demo.emptyCatalog "X", [])
  = (Incomplete, (Demo.emptyCatalog "X", [])).
Proof.
  apply (redemption_without_root_room Demo.client Demo.db Demo.lib
           "!room1:x" (Demo.redemption "tok1" Demo.alice)
           (Demo.emptyCatalog "X", [])); [|reflexivity].
  exists "tok1", "p1". split; [|split; [|split; [|split]]].
  - split; [reflexivity|]. eexists _, _.
    split; [reflexivity|]. split; reflexivity.
  - eexists. split; [reflexivity|]. split; [reflexivity|discriminate].
  - eexists _, _. split; [reflexivity|]. split; reflexivity.
  - eexists _, _. split; [reflexivity|]. split; reflexivity.
  - eexists _, _. reflexivity.
Defined.

Lemma redemption_stops_at_refusal_witness :
  onRoomEvent Festival.readOnly Demo.db Demo.lib "!room1:x"
    (Demo.redemption "tok1" Demo.alice) (Demo.built, [])
  = (Incomplete,
     (set_people (people Demo.built) Demo.built,
      [stampWrite Demo.lib {| mr_roomId := "!db:x" |}
         (Demo.redemption "tok1" Demo.alice) Demo.p1])).
Proof.
  apply (redemption_stops_at_refusal Festival.readOnly Demo.db Demo.lib
           "!room1:x" (Demo.redemption "tok1" Demo.alice) "tok1" "p1"
           [] Demo.p1 [] {| mr_roomId := "!db:x" |} Demo.built []).
  - split; [reflexivity|]. eexists _, _.
    split; [reflexivity|]. split; reflexivity.
  - eexists. split; [reflexivity|]. split; [reflexivity|discriminate].
  - eexists _, _. split; [reflexivity|]. split; reflexivity.
  - eexists _, _. split; [reflexivity|]. split; reflexivity.
  - reflexivity.
  - reflexivity.
  - constructor.
  - reflexivity.
Defined.

Example festival_rebuild :
  construct Festival.client Festival.config Demo.lib (Demo.emptyCatalog "X")
  = (Some (),
     {| id := "X"; dbRoom := Some {| mr_roomId := "!db:x" |};
        subspaces := {[ "devrooms" := {| space_roomId := "!devrooms:x" |} ]};
        auditoriums := {[ "A1" := {| aud_roomId := "!room1:x" |} ]};
        auditoriumBackstages := ∅; talks := ∅;
        interestRooms :=
          {[ "I1" := {| ir_roomId := "!i1:x"; ir_id := Some "I1" |};
             "I2" := {| ir_roomId := "!i2:x"; ir_id := Some "I2" |} ]};
        people :=
          {[ "p1" := {| pentaId := Some "p1";
                        userId := Some Demo.mallory |};
             "p2" := {| pentaId := Some "p2"; userId := None |} ]} |}).
Proof. vm_compute. reflexivity. Qed.

Lemma construct_loads_witness :
  ∃ roomState,
    getRoomState Festival.client "!db:x" = Some roomState
    ∧ (∀ k, people (construct Festival.client Festival.config Demo.lib
                      (Demo.emptyCatalog "X")).2 !! k
          = last (List.filter
                    (λ p, bool_decide (propertyKey (pentaId p) = k))
                    (storedPersons Demo.lib roomState)))
    ∧ (∀ k, subspaces (construct Festival.client Festival.config Demo.lib
                         (Demo.emptyCatalog "X")).2 !! k
          = last (List.filter (λ e, bool_decide (state_key e = k))
                    (storedSubspaces Demo.lib roomState))
            ≫= λ e, getSpace Festival.client (subspaceRoom e)).
Proof.
  apply (construct_loads Festival.client Festival.config Demo.lib
           (Demo.emptyCatalog "X")
           (construct Festival.client Festival.config Demo.lib
              (Demo.emptyCatalog "X")).2).
  vm_compute. reflexivity.
Defined.

Lemma construct_configured_interest_rooms_witness :
  ∃ roomIds,
    getJoinedRooms Festival.client = Some roomIds
    ∧ ∀ k, interestRooms
             (construct Festival.client Festival.config Demo.lib
                (Demo.emptyCatalog "X")).2 !! k
        = match interestRooms
                  (classifiedCatalog Festival.client (Demo.emptyCatalog "X")
                     roomIds) !! k with
          | Some room => Some room
          | None => configuredRoom Festival.client Festival.config k
          end.
Proof.
  apply (construct_configured_interest_rooms Festival.client Festival.config
           Demo.lib (Demo.emptyCatalog "X")
           (construct Festival.client Festival.config Demo.lib
              (Demo.emptyCatalog "X")).2).
  vm_compute. reflexivity.
Defined.

Example festival_auditorium :
  createAuditorium (λ _, Festival.env) Festival.server Festival.settings
    Festival.devroom (Festival.catalog, [])
  = (Some (Own {| aud_roomId := "!rust:x" |}),
     (set_auditoriumBackstages
        {[ "D.rust" := {| bs_roomId := "!rust-backstage:x" |} ]}
        (set_auditoriums
           {[ "A1" := {| aud_roomId := "!room1:x" |};
              "D.rust" := {| aud_roomId := "!rust:x" |} ]}
           Festival.catalog),
      auditoriumRequests Festival.settings "X" {| mr_roomId := "!db:x" |}
        Festival.devroom {| space_roomId := "!devrooms:x" |}
        {| space_roomId := "!rust-space:x" |} "!rust:x"
      ++ backstageRequests Festival.settings "X" {| mr_roomId := "!db:x" |}
           Festival.devroom "!rust-backstage:x"
      ++ [AddChildRoom {| space_roomId := "!rust-space:x" |}
            (Some "!rust-backstage:x") (Some "2-backstage")])).
Proof. vm_compute. reflexivity. Qed.

(** An auditorium whose id is a property name of [Object.prototype] is
    taken to exist: nothing is asked for, and what is returned is no
    auditorium. *)
Example festival_constructor :
  createAuditorium (λ _, Festival.env) Festival.server Festival.settings
    {| auditorium_id := "constructor"; auditorium_name := "Main" |}
    (Festival.catalog, [])
  = (Some (Inherited "constructor"), (Festival.catalog, [])).
Proof. vm_compute. reflexivity. Qed.

Lemma createAuditorium_again_witness :
  createAuditorium (λ _, Festival.env) Festival.noAliases Festival.settings
    Festival.devroom
    ((createAuditorium (λ _, Festival.env) Festival.server Festival.settings
        Festival.devroom (Festival.catalog, [])).2.1, [])
  = (Some (Own {| aud_roomId := "!rust:x" |}),
     ((createAuditorium (λ _, Festival.env) Festival.server Festival.settings
         Festival.devroom (Festival.catalog, [])).2.1, [])).
Proof.
  apply (createAuditorium_again (λ _, Festival.env) Festival.server
           Festival.settings (λ _, Festival.env) Festival.noAliases
           Festival.settings Festival.devroom (Festival.catalog, [])
           (Own {| aud_roomId := "!rust:x" |})
           (createAuditorium (λ _, Festival.env) Festival.server
              Festival.settings Festival.devroom (Festival.catalog, [])).2).
  - vm_compute. reflexivity.
  - repeat split; try reflexivity. intros room Hroom. exact Hroom.
  - intros key Hkey. discriminate Hkey.
Defined.

Lemma createAuditoriumBackstage_throws_witness :
  ∃ s',
    createAuditoriumBackstage Festival.noAliases Festival.settings
      Festival.devroom (Festival.catalog, []) = (None, s')
    ∧ s'.1 = Festival.catalog
    ∧ auditoriumBackstages Festival.catalog !! "D.rust" = None
    ∧ (dbRoom Festival.catalog = None ∧ s'.2 = []
       ∨ ∃ room roomId asked,
           dbRoom Festival.catalog = Some room
           ∧ asked ≠ []
           ∧ asked `prefix_of`
               backstageRequests Festival.settings "X" room Festival.devroom
                 roomId
           ∧ s'.2 = [] ++ asked).
Proof.
  eexists. split; [vm_compute; reflexivity|].
  apply (createAuditoriumBackstage_throws Festival.noAliases
           Festival.settings Festival.devroom (Festival.catalog, [])).
  vm_compute. reflexivity.
Defined.

Lemma createAuditorium_throws_witness :
  ∃ s',
    createAuditorium (λ _, Festival.env) Festival.noBackstage
      Festival.settings Festival.devroom (Festival.catalog, []) = (None, s')
    ∧ auditoriumBackstages s'.1 !! "D.rust" = None
    ∧ (s'.1 = Festival.catalog
       ∨ ∃ roomId,
           auditoriums Festival.catalog !! "D.rust" = None
           ∧ auditoriums s'.1 !! "D.rust" = Some {| aud_roomId := roomId |}
           ∧ ∀ env' server' settings' asked,
               createAuditorium env' server' settings' Festival.devroom
                 (s'.1, asked)
               = (Some (Own {| aud_roomId := roomId |}), (s'.1, asked))).
Proof.
  eexists. split; [vm_compute; reflexivity|]. split; [vm_compute; reflexivity|].
  apply (createAuditorium_throws (λ _, Festival.env) Festival.noBackstage
           Festival.settings Festival.devroom (Festival.catalog, [])).
  vm_compute. reflexivity.
Defined.

Lemma createAuditorium_requests_witness :
  ∃ room parentSpace audSpace roomId backstage made,
    dbRoom Festival.catalog = Some room
    ∧ getDesiredParentSpace Festival.env Festival.catalog "D.rust"
      = Parent (Own parentSpace)
    ∧ Own {| aud_roomId := "!rust:x" |} = Own {| aud_roomId := roomId |}
    ∧ (createAuditorium (λ _, Festival.env) Festival.server
         Festival.settings Festival.devroom (Festival.catalog, [])).2.2
      = []
        ++ auditoriumRequests Festival.settings "X" room Festival.devroom
             parentSpace audSpace roomId
        ++ made
        ++ [AddChildRoom audSpace (Some (bs_roomId backstage))
              (Some "2-backstage")]
    ∧ (auditoriumBackstages Festival.catalog !! "D.rust" = Some backstage
       ∧ made = []
       ∨ auditoriumBackstages Festival.catalog !! "D.rust" = None
         ∧ made = backstageRequests Festival.settings "X" room
                    Festival.devroom (bs_roomId backstage))
    ∧ (createAuditorium (λ _, Festival.env) Festival.server
         Festival.settings Festival.devroom (Festival.catalog, [])).2.1
      = set_auditoriumBackstages
          (<["D.rust" := backstage]>
             (auditoriumBackstages Festival.catalog))
          (set_auditoriums
             (<["D.rust" := {| aud_roomId := roomId |}]>
                (auditoriums Festival.catalog))
             Festival.catalog).
Proof.
  apply (createAuditorium_requests (λ _, Festival.env) Festival.server
           Festival.settings Festival.devroom (Festival.catalog, [])
           (Own {| aud_roomId := "!rust:x" |})
           (createAuditorium (λ _, Festival.env) Festival.server
              Festival.settings Festival.devroom (Festival.catalog, [])).2).
  - vm_compute. reflexivity.
  - vm_compute. reflexivity.
Defined.

Lemma create_without_root_room_witness :
  createAuditoriumBackstage Festival.server Festival.settings
    Festival.devroom (Demo.emptyCatalog "X", [])
  = (None, (Demo.emptyCatalog "X", []))
  ∧ subspaces
      (createSubspace (λ _, Festival.env) Festival.server Festival.settings
         Demo.lib "devrooms" "Developer rooms" "devrooms"
         (Demo.emptyCatalog "X", [])).2.1 !! "devrooms"
    = Some {| space_roomId := "!rust-space:x" |}
  ∧ createAuditoriumBackstage Festival.server Festival.settings
      {| auditorium_id := "toString"; auditorium_name := "Main" |}
      (Demo.emptyCatalog "X", [])
    = (Some (Inherited "toString"), (Demo.emptyCatalog "X", [])).
Proof.
  destruct (create_without_root_room (λ _, Demo.client) (λ _, Festival.env)
              Festival.server Festival.settings Demo.config Demo.lib
              (Demo.emptyCatalog "X", []) eq_refl)
    as (Hbackstage & _ & _ & Hsubspace & Hinherited).
  split; [|split].
  - apply Hbackstage. vm_compute. reflexivity.
  - rewrite (Hsubspace "devrooms" "Developer rooms" "devrooms");
      vm_compute; reflexivity.
  - apply (Hinherited {| auditorium_id := "toString";
                         auditorium_name := "Main" |});
      vm_compute; reflexivity.
Defined.

Lemma resolvePeople_identity_witness :
  resolvePeople
    (set_people {[ "p1" := {| pentaId := Some "p1";
                              userId := Some Demo.alice |} ]} Demo.built)
    [Demo.p1] !! 0
  = Some (set_matrix_id (Some Demo.alice) Demo.p1).
Proof.
  destruct (resolvePeople_identity
              (set_people {[ "p1" := {| pentaId := Some "p1";
                                        userId := Some Demo.alice |} ]}
                 Demo.built) [Demo.p1]) as [_ Hpeople].
  destruct (Hpeople 0 Demo.p1 eq_refl)
    as (p' & Hlookup & Hid & Hrole & _ & Hcache).
  destruct (Hcache eq_refl) as [Hcached _].
  destruct Hcached as (stored & Hstored & Huser).
  { eexists. split; reflexivity. }
  rewrite Hlookup. f_equal. destruct p' as [pid user role].
  simpl in *. subst pid role. rewrite Huser.
  vm_compute in Hstored. by injection Hstored as <-.
Defined.

Lemma create_existing_witness :
  createAuditorium (λ _, Festival.env) Festival.noBackstage Festival.settings
    {| auditorium_id := "A1"; auditorium_name := "Main" |}
    (Festival.catalog, [])
  = (Some (Own {| aud_roomId := "!room1:x" |}), (Festival.catalog, []))
  ∧ createsNothing
      (createSubspace (λ _, Festival.env) Festival.server Festival.settings
         Demo.lib "devrooms" "Developer rooms" "devrooms")
      (Festival.catalog, []).
Proof.
  destruct (create_existing (λ _, Demo.client) (λ _, Festival.env)
              Festival.noBackstage Festival.settings Demo.config Demo.lib
              (Festival.catalog, [])) as (Hauditorium & _).
  destruct (create_existing (λ _, Demo.client) (λ _, Festival.env)
              Festival.server Festival.settings Demo.config Demo.lib
              (Festival.catalog, [])) as (_ & _ & _ & _ & Hsubspace & _).
  split.
  - apply Hauditorium. reflexivity.
  - apply Hsubspace. eexists. reflexivity.
Defined.

Lemma create_returns_recorded_witness :
  getProperty
    (auditoriums
       (createAuditorium (λ _, Festival.env) Festival.server
          Festival.settings Festival.devroom (Festival.catalog, [])).2.1)
    "D.rust"
  = Own {| aud_roomId := "!rust:x" |}
  ∧ is_Some
      (auditoriumBackstages
         (createAuditorium (λ _, Festival.env) Festival.server
            Festival.settings Festival.devroom (Festival.catalog, [])).2.1
       !! "D.rust").
Proof.
  destruct (create_returns_recorded (λ _, Demo.client) (λ _, Festival.env)
              Festival.server Festival.settings Demo.config Demo.lib
              (Festival.catalog, [])
              (createAuditorium (λ _, Festival.env) Festival.server
                 Festival.settings Festival.devroom (Festival.catalog, [])).2)
    as (Hauditorium & _).
  destruct (Hauditorium Festival.devroom (Own {| aud_roomId := "!rust:x" |}))
    as (Hrecorded & _ & Hnew); [vm_compute; reflexivity|].
  split; [exact Hrecorded|].
  destruct Hnew as (_ & Hbackstage & _); [vm_compute; reflexivity|].
  exact Hbackstage.
Defined.

Lemma createInterestRoom_configured_witness :
  (∃ added,
     (createInterestRoom (λ _, Festival.client) (λ _, Festival.env)
        Festival.server Festival.settings Festival.config
        {| interest_id := "I2"; interest_name := "Stands" |}
        (Demo.built, [])).2.2 = [] ++ added
     ∧ List.filter isCreation added = [])
  ∧ (createInterestRoom (λ _, Festival.client) (λ _, Festival.env)
       Festival.server Festival.settings Festival.config
       {| interest_id := "I2"; interest_name := "Stands" |}
       (Demo.built, [])).2.1
    = set_interestRooms
        (<["I2" := {| ir_roomId := "!i2:x"; ir_id := Some "I2" |}]>
           (interestRooms Demo.built)) Demo.built.
Proof.
  apply (createInterestRoom_configured (λ _, Festival.client)
           (λ _, Festival.env) Festival.server Festival.settings
           Festival.config
           {| interest_id := "I2"; interest_name := "Stands" |} "#i2:x"
           (Demo.built, [])); [vm_compute; reflexivity|reflexivity].
Defined.
